(** * cat-ate-my-source-code: the backup engine

    A shallow embedding of [src/core/fileSystem.ts] (class [FileSystem]),
    [src/core/backupPlan.ts] (class [BackupPlan]), of the checks and lookups
    of [src/core/config.ts] (class [ConfigLoader]) and of the restore,
    backup and list commands ([src/commands/restore.ts],
    [src/commands/backup.ts], [src/commands/list.ts]), with the properties
    of the specification stated and settled on it, and further properties of
    the code after them.

    Conventions of the embedding.
    - JavaScript strings are [string]; the paths and patterns of interest are
      ASCII, so a character of the model is a UTF-16 code unit of the program.
    - The platform is POSIX: the path separator is [/].  A path handed to the
      file system is the list of its segments from the root.  The name of an
      entry of a directory is what a file system allows: not empty, neither
      [.] nor [..], without a separator; [path.join] of a directory and such
      a name appends the name ([Path.join]).  A text that a caller supplies
      (the name of a project, a backup id) is split at its separators and
      normalized, as [path.join] and [path.resolve] do ([Path.join_strings],
      [Path.of_string]).
    - The file system is a tree of nodes, read where the program reads it and
      written where the program writes it.  An [async] method is a state
      transformer over the world (file system, notices handed to the logger,
      working directory) that returns a value, throws, or is stuck: its
      recursion budget is spent, or an exclusion pattern has regular
      expression operators of its own, which the model does not interpret.
    - The host functions with no source here are modelled from their
      standard: [String.prototype.replace], [includes], [RegExp] on the
      fragment the program builds, [Array.prototype.sort] and [slice],
      [Date.prototype.toISOString], [path], [fs/promises];
      [String.prototype.localeCompare] is a parameter.

    Layout: the library and the two classes first, then the vocabulary of the
    properties and sample data, then the properties by component. *)

From Stdlib Require Import String Ascii List Bool Arith ZArith Lia.
From Stdlib Require Import Sorted Permutation.
Import ListNotations.

Local Open Scope string_scope.
Local Open Scope list_scope.

(* ===================================================================== *)
(** * The JavaScript library functions the program calls                  *)
(* ===================================================================== *)

Module JS.

(** [s.replace(/needle/g, repl)] for a pattern that is a literal, non-empty
    text: every occurrence, leftmost first, occurrences not overlapping.
    [skip] counts the characters of an occurrence still to be consumed. *)
Fixpoint replace_from (skip : nat) (needle repl s : string) : string :=
  match s with
  | EmptyString => EmptyString
  | String c s' =>
      match skip with
      | S k => replace_from k needle repl s'
      | O =>
          if prefix needle s
          then (repl ++ replace_from (String.length needle - 1) needle repl s')%string
          else String c (replace_from 0 needle repl s')
      end
  end.

Definition replace_all (needle repl s : string) : string :=
  replace_from 0 needle repl s.

(** [s.includes(needle)] *)
Fixpoint includes (needle s : string) : bool :=
  prefix needle s ||
  match s with
  | EmptyString => false
  | String _ s' => includes needle s'
  end.

(** [s.split(sep)[0]] for a one-character separator: the text before the
    first separator, the whole string when there is none. *)
Fixpoint before_first (sep : ascii) (s : string) : string :=
  match s with
  | EmptyString => EmptyString
  | String c s' => if Ascii.eqb c sep then EmptyString else String c (before_first sep s')
  end.

(** ** Regular expressions

    The fragment of the RegExp syntax that [matchesPattern] can build from a
    pattern without regular-expression operators of its own: a sequence of
    atoms, each optionally starred.  An atom is a literal character, the
    escaped dot, or the class [[^/]]. *)

Inductive atom : Type :=
| Lit (c : ascii)
| NotSlash.

Record item : Type := Item { it_atom : atom; it_star : bool }.

Definition regexp : Type := list item.

(** The syntax characters of the RegExp grammar. *)
Definition syntax_char (c : ascii) : bool :=
  existsb (Ascii.eqb c)
    ["^"; "$"; "\"; "."; "*"; "+"; "?"; "("; ")"; "["; "]"; "{"; "}"; "|"]%char.

Inductive token : Type :=
| TAtom (a : atom)
| TStar.

(** Lexing: [\.] is the literal dot, [[^/]] the class, [*] the star, any
    character that is not a syntax character stands for itself.  Anything else
    is outside the fragment. *)
Fixpoint tokens (s : string) : option (list token) :=
  match s with
  | EmptyString => Some []
  | String c r =>
      if Ascii.eqb c "\" then
        match r with
        | String d r' =>
            if Ascii.eqb d "." then option_map (cons (TAtom (Lit "."))) (tokens r')
            else None
        | EmptyString => None
        end
      else if Ascii.eqb c "[" then
        match r with
        | String c1 (String c2 (String c3 r')) =>
            if (Ascii.eqb c1 "^" && Ascii.eqb c2 "/" && Ascii.eqb c3 "]")%bool
            then option_map (cons (TAtom NotSlash)) (tokens r')
            else None
        | _ => None
        end
      else if Ascii.eqb c "*" then option_map (cons TStar) (tokens r)
      else if syntax_char c then None
      else option_map (cons (TAtom (Lit c))) (tokens r)
  end.

(** Grouping: a star binds to the atom before it; a star with nothing to
    repeat is a syntax error. *)
Fixpoint items (ts : list token) : option regexp :=
  match ts with
  | [] => Some []
  | TAtom a :: TStar :: r => option_map (cons (Item a true)) (items r)
  | TAtom a :: r => option_map (cons (Item a false)) (items r)
  | TStar :: _ => None
  end.

(** [new RegExp(source)], on the fragment. *)
Definition RegExp (source : string) : option regexp :=
  match tokens source with
  | Some ts => items ts
  | None => None
  end.

Definition accepts (a : atom) (c : ascii) : bool :=
  match a with
  | Lit d => Ascii.eqb c d
  | NotSlash => negb (Ascii.eqb c "/")
  end.

(** Whether the whole of [s] matches the sequence [re]. *)
Fixpoint match_items (re : regexp) : string -> bool :=
  match re with
  | [] => fun s => match s with EmptyString => true | _ => false end
  | Item a false :: r =>
      fun s =>
        match s with
        | String c s' => accepts a c && match_items r s'
        | EmptyString => false
        end
  | Item a true :: r =>
      fix star (s : string) : bool :=
        match_items r s ||
        match s with
        | String c s' => accepts a c && star s'
        | EmptyString => false
        end
  end.

(** [new RegExp("^" + source + "$").test(s)] *)
Definition anchored_test (source s : string) : option bool :=
  option_map (fun re => match_items re s) (RegExp source).

End JS.

(* ===================================================================== *)
(** * PathMatcher: [FileSystem.shouldExclude], [FileSystem.matchesPattern] *)
(* ===================================================================== *)

Module PathMatcher.

(** The text of [regexPattern] in [matchesPattern]. *)
Definition regexPattern (pattern : string) : string :=
  JS.replace_all "." "\."
    (JS.replace_all "{{DOUBLE_STAR}}" ".*"
       (JS.replace_all "*" "[^/]*"
          (JS.replace_all "**" "{{DOUBLE_STAR}}" pattern))).

(** [None]: the regular expression built from the pattern lies outside the
    modelled fragment (the pattern has RegExp operators of its own). *)
Definition matchesPattern (path pattern : string) : option bool :=
  match JS.anchored_test (regexPattern pattern) path with
  | Some b => Some (b || JS.includes pattern path)
  | None => None
  end.

Fixpoint shouldExclude_loop (normalizedPath : string) (excludePatterns : list string)
  : option bool :=
  match excludePatterns with
  | [] => Some false
  | pattern :: rest =>
      let normalizedPattern := JS.replace_all "\" "/" pattern in
      match matchesPattern normalizedPath normalizedPattern with
      | Some true => Some true
      | Some false => shouldExclude_loop normalizedPath rest
      | None => None
      end
  end.

Definition shouldExclude (relativePath : string) (excludePatterns : list string)
  : option bool :=
  let normalizedPath := JS.replace_all "\" "/" relativePath in
  shouldExclude_loop normalizedPath excludePatterns.

(** The matching rule in the words of the specification: [**] stands for
    zero or more path segments, separators included (any run of characters),
    [*] for a run of characters other than [/], any other character for
    itself. *)
Inductive glob_token : Type :=
| GDoubleStar
| GStar
| GChar (c : ascii).

Fixpoint glob_tokens (pattern : string) : list glob_token :=
  match pattern with
  | EmptyString => []
  | String c r =>
      if Ascii.eqb c "*" then
        match r with
        | String d r' =>
            if Ascii.eqb d "*" then GDoubleStar :: glob_tokens r'
            else GStar :: glob_tokens r
        | EmptyString => [GStar]
        end
      else GChar c :: glob_tokens r
  end.

Fixpoint glob_match (g : list glob_token) : string -> bool :=
  match g with
  | [] => fun s => match s with EmptyString => true | _ => false end
  | GChar d :: r =>
      fun s =>
        match s with
        | String c s' => Ascii.eqb c d && glob_match r s'
        | EmptyString => false
        end
  | GStar :: r =>
      fix run (s : string) : bool :=
        glob_match r s ||
        match s with
        | String c s' => negb (Ascii.eqb c "/") && run s'
        | EmptyString => false
        end
  | GDoubleStar :: r =>
      fix run (s : string) : bool :=
        glob_match r s ||
        match s with
        | String _ s' => run s'
        | EmptyString => false
        end
  end.

Definition spec_matches (path pattern : string) : bool :=
  glob_match (glob_tokens pattern) path || JS.includes pattern path.

Definition spec_excludes (relativePath : string) (patterns : list string) : bool :=
  existsb
    (fun pattern =>
       spec_matches (JS.replace_all "\" "/" relativePath)
                    (JS.replace_all "\" "/" pattern))
    patterns.

End PathMatcher.

(* ===================================================================== *)
(** * Node's [path] module (POSIX)                                        *)
(* ===================================================================== *)

Module Path.

(** An absolute, normalized path: its segments from the root. *)
Definition path : Type := list string.

(** A path as a configuration file or a command line gives it: absolute or
    relative, its segments possibly [.] or [..]. *)
Record cpath : Type := CPath { isAbsolute : bool; segments : list string }.

(** [path.join(dir, entry.name)] for the name of an entry that [readdir]
    returned: such a name holds no separator and is neither empty nor [.]
    nor [..], so that joining appends it. *)
Definition join (dir : path) (names : list string) : path := dir ++ names.

(** Normalization of [.] and [..]; [acc] holds the segments kept so far, last
    first. *)
Fixpoint normalize_onto (acc : list string) (segs : list string) : path :=
  match segs with
  | [] => rev acc
  | s :: r =>
      if String.eqb s "." then normalize_onto acc r
      else if String.eqb s ".." then normalize_onto (tl acc) r
      else if String.eqb s "" then normalize_onto acc r
      else normalize_onto (s :: acc) r
  end.

(** [path.normalize] of an absolute path. *)
Definition absolute (p : cpath) : path := normalize_onto [] (segments p).

(** Normalization of a relative path: the [..] that lead above its start
    are kept. *)
Fixpoint normalize_relative_onto (acc : list string) (segs : list string)
  : list string :=
  match segs with
  | [] => rev acc
  | s :: r =>
      if String.eqb s "." then normalize_relative_onto acc r
      else if String.eqb s "" then normalize_relative_onto acc r
      else if String.eqb s ".." then
        match acc with
        | [] => normalize_relative_onto [".."] r
        | t :: acc' =>
            if String.eqb t ".." then normalize_relative_onto (".." :: acc) r
            else normalize_relative_onto acc' r
        end
      else normalize_relative_onto (s :: acc) r
  end.

(** The pieces of a text between its separators. *)
Fixpoint pieces (s : string) : list string :=
  match s with
  | EmptyString => [EmptyString]
  | String c r =>
      if Ascii.eqb c "/" then EmptyString :: pieces r
      else match pieces r with
           | p :: ps => String c p :: ps
           | [] => [String c EmptyString]
           end
  end.

(** A text that a caller supplies, as a path argument. *)
Definition of_string (s : string) : cpath := CPath (prefix "/" s) (pieces s).

(** [path.join(dir, a, b, ...)] for texts that a caller supplies (a project
    name, a backup id), [dir] absolute and normalized: the arguments are laid
    end to end, split at their separators, and the whole is normalized. *)
Definition join_strings (dir : path) (names : list string) : path :=
  normalize_onto (rev dir) (flat_map pieces names).

(** [path.resolve(a, b, ...)]: the arguments are laid end to end, an absolute
    one starting afresh, the working directory in front. *)
Definition resolve (cwd : path) (args : list cpath) : path :=
  normalize_onto []
    (fold_left
       (fun acc a => if isAbsolute a then segments a else acc ++ segments a)
       args cwd).

(** [path.dirname] *)
Definition dirname (p : cpath) : cpath :=
  CPath (isAbsolute p) (removelast (segments p)).

(** An absolute path as a path argument. *)
Definition from_root (p : path) : cpath := CPath true p.

Fixpoint relative_segments (from to : path) : list string :=
  match from, to with
  | f :: from', t :: to' =>
      if String.eqb f t then relative_segments from' to'
      else map (fun _ => "..") from ++ to
  | _, _ => map (fun _ => "..") from ++ to
  end.

(** [path.relative(from, to)] *)
Definition relative (from to : path) : string :=
  String.concat "/" (relative_segments from to).

End Path.

(* ===================================================================== *)
(** * The file system ([fs/promises])                                     *)
(* ===================================================================== *)

Module Fs.

Import Path.

Inductive errno : Type := ENOENT | ENOTDIR | EEXIST | EISDIR | EINVAL.

(** A node of the tree.  [Special] stands for what is neither a regular file
    nor a directory: a symbolic link as [readdir] reports it, a FIFO, a
    socket, a device. *)
#[warnings="-register-all"]
Inductive node : Type :=
| File (content : string)
| Dir (entries : list (string * node))
| Special.

Inductive kind : Type := KFile | KDir | KOther.

Definition kind_of (n : node) : kind :=
  match n with
  | File _ => KFile
  | Dir _ => KDir
  | Special => KOther
  end.

(** What [readdir(_, { withFileTypes: true })] yields for an entry. *)
Record Dirent : Type := MkDirent { name : string; dkind : kind }.

Definition isDirectory (e : Dirent) : bool :=
  match dkind e with KDir => true | _ => false end.

Definition isFile (e : Dirent) : bool :=
  match dkind e with KFile => true | _ => false end.

(** [Stats.isDirectory()] and [Stats.size] of a node ([size] is read for
    regular files only). *)
Definition node_isDirectory (n : node) : bool :=
  match n with Dir _ => true | _ => false end.

Definition node_size (n : node) : N :=
  match n with
  | File content => N.of_nat (String.length content)
  | _ => 0%N
  end.

Fixpoint lookup (name : string) (es : list (string * node)) : option node :=
  match es with
  | [] => None
  | (k, n) :: r => if String.eqb k name then Some n else lookup name r
  end.

(** Replaces the entry called [name] where it stands, or appends it. *)
Fixpoint put (name : string) (n : node) (es : list (string * node))
  : list (string * node) :=
  match es with
  | [] => [(name, n)]
  | (k, m) :: r =>
      if String.eqb k name then (k, n) :: r else (k, m) :: put name n r
  end.

Definition remove (name : string) (es : list (string * node))
  : list (string * node) :=
  filter (fun e => negb (String.eqb (fst e) name)) es.

Definition set_entry (name : string) (o : option node) (es : list (string * node))
  : list (string * node) :=
  match o with
  | Some n => put name n es
  | None => remove name es
  end.

(** Walks down [p] from [n]. *)
Fixpoint stat_from (p : path) (n : node) : errno + node :=
  match p with
  | [] => inr n
  | s :: r =>
      match n with
      | Dir es =>
          match lookup s es with
          | Some c => stat_from r c
          | None => inl ENOENT
          end
      | _ => inl ENOTDIR
      end
  end.

(** Rewrites what stands at [p] below [o] with [f]; [parents] tells whether
    missing directories on the way are made. *)
Fixpoint alter (parents : bool) (f : option node -> errno + option node)
  (p : path) (o : option node) : errno + option node :=
  match p with
  | [] => f o
  | s :: r =>
      match o with
      | Some (Dir es) =>
          match alter parents f r (lookup s es) with
          | inr o' => inr (Some (Dir (set_entry s o' es)))
          | inl e => inl e
          end
      | Some _ => inl ENOTDIR
      | None =>
          if parents then
            match alter parents f r None with
            | inr o' => inr (Some (Dir (set_entry s o' [])))
            | inl e => inl e
            end
          else inl ENOENT
      end
  end.

(** A change of the tree at [p]; the root itself is never removed. *)
Definition change (parents : bool) (f : option node -> errno + option node)
  (p : path) (root : node) : errno + node :=
  match alter parents f p (Some root) with
  | inr (Some root') => inr root'
  | inr None => inl EINVAL
  | inl e => inl e
  end.

(** [fs.stat(p)]; the paths handed to it are taken not to lead through
    symbolic links. *)
Definition stat (p : path) (root : node) : errno + node := stat_from p root.

Definition dirent_of (e : string * node) : Dirent :=
  MkDirent (fst e) (kind_of (snd e)).

(** [fs.readdir(p, { withFileTypes: true })] *)
Definition readdir (p : path) (root : node) : errno + list Dirent :=
  match stat_from p root with
  | inr (Dir es) => inr (map dirent_of es)
  | inr _ => inl ENOTDIR
  | inl e => inl e
  end.

(** [fs.mkdir(p, { recursive: true })]: an existing directory is left as it
    is, an existing entry of another kind is an error. *)
Definition mkdir_at (o : option node) : errno + option node :=
  match o with
  | None => inr (Some (Dir []))
  | Some (Dir es) => inr (Some (Dir es))
  | Some _ => inl EEXIST
  end.

Definition mkdir (p : path) (root : node) : errno + node :=
  change true mkdir_at p root.

(** [fs.copyFile(src, dest)]: the destination is created or overwritten; its
    directory must exist. *)
Definition write_at (content : string) (o : option node) : errno + option node :=
  match o with
  | None | Some (File _) => inr (Some (File content))
  | Some (Dir _) => inl EISDIR
  | Some Special => inl EINVAL
  end.

Definition copyFile (src dest : path) (root : node) : errno + node :=
  match stat_from src root with
  | inr (File content) => change false (write_at content) dest root
  | inr (Dir _) => inl EISDIR
  | inr Special => inl EINVAL
  | inl e => inl e
  end.

(** [fs.rm(p, { recursive: true, force: true })]: the subtree goes; [force]
    forgives a path that does not exist and no other error, so a path that
    leads through what is no directory is [ENOTDIR]. *)
Definition rm (p : path) (root : node) : errno + node :=
  match change false (fun _ => inr None) p root with
  | inr root' => inr root'
  | inl ENOENT => inr root
  | inl e => inl e
  end.

End Fs.

(* ===================================================================== *)
(** * Asynchronous methods as state transformers                          *)
(* ===================================================================== *)

Module Async.

Import Path.

(** The messages of the errors the program constructs with [new Error]. *)
Inductive message : Type :=
| DestinationExists (destination : path)
    (* Destination directory already exists: <destination>. Use --in-place ... *)
| RemoteNotImplemented
    (* Remote backups are not yet implemented. Use a local target. *)
| FailedToList (cause : option Fs.errno)
    (* Failed to list backups: <cause> *)
| FailedToCreateDirectory (dirPath : path) (cause : option Fs.errno)
    (* Failed to create directory <dirPath>: <cause> *)
| BackupNotFound (backup project : string).
    (* Backup "<backup>" not found for project "<project>". Use 'list' ... *)

(** A thrown value: a system error of [fs], which carries a [code], or an
    [Error] of the program, which carries none. *)
Inductive error : Type :=
| SystemError (code : Fs.errno)
| Error (msg : message).

Definition code (e : error) : option Fs.errno :=
  match e with
  | SystemError c => Some c
  | Error _ => None
  end.

(** The methods of [Logger]. *)
Inductive level : Type := LError | LWarn | LInfo | LSuccess | LDebug.

(** The texts handed to the logger, by the place that emits them. *)
Inductive notice : Type :=
| DryRunWouldCopy (source destination : path)
| Excluding (relativePath : string)
| DryRunWouldCreateDirectory (dirPath : path)
| DryRunWouldRemoveDirectory (dirPath : path)
| ListingRemoteNotImplemented
| RetentionRemoteNotImplemented
| RemovedOldBackup (timestamp : string)
| DryRunWouldRemoveOldBackup (timestamp : string)
| BackingUp (project : string) (projectPath backupPath : path)
| DryRunWouldCopyFiles (files : nat)
| DryRunWouldSkip (paths : nat)
| BackedUp (files : nat) (bytes : N)
| SkippedExcluded (paths : nat)
| SkippedPath (relativePath : string)
| AndMore (paths : nat)
| RestoringBackup (backupPath destination : path)
| RestoredBackup (destination : path)
| DryRunWouldRestore (destination : path).

Record world : Type := World {
  fs : Fs.node;                       (* the file system, from its root *)
  log : list (level * notice);        (* what the logger was handed, in order *)
  cwd : path                          (* process.cwd() *)
}.

Inductive stuck : Type :=
| OutOfFuel               (* the recursion budget of the model is spent *)
| RegExpOutsideFragment.  (* an exclusion pattern with RegExp operators *)

Inductive outcome (A : Type) : Type :=
| Ok (a : A)
| Throw (e : error)
| Stuck (why : stuck).

Arguments Ok {A} a.
Arguments Throw {A} e.
Arguments Stuck {A} why.

Definition M (A : Type) : Type := world -> outcome A * world.

Definition ret {A} (a : A) : M A := fun w => (Ok a, w).

Definition bind {A B} (m : M A) (k : A -> M B) : M B :=
  fun w =>
    match m w with
    | (Ok a, w') => k a w'
    | (Throw e, w') => (Throw e, w')
    | (Stuck r, w') => (Stuck r, w')
    end.

Definition throw {A} (e : error) : M A := fun w => (Throw e, w).

Definition stuck_on {A} (r : stuck) : M A := fun w => (Stuck r, w).

(** [try { m } catch (error) { handler error }] *)
Definition try_catch {A} (m : M A) (handler : error -> M A) : M A :=
  fun w =>
    match m w with
    | (Throw e, w') => handler e w'
    | r => r
    end.

(** The world once the logger was handed one more notice. *)
Definition logged (l : level) (n : notice) (w : world) : world :=
  World (fs w) (log w ++ [(l, n)]) (cwd w).

(** [logger.<level>(notice)] *)
Definition emit (l : level) (n : notice) : M unit :=
  fun w => (Ok tt, logged l n w).

(** A call of [fs] that only reads. *)
Definition read_fs {A} (f : Fs.node -> Fs.errno + A) : M A :=
  fun w =>
    match f (fs w) with
    | inr a => (Ok a, w)
    | inl c => (Throw (SystemError c), w)
    end.

(** A call of [fs] that writes. *)
Definition write_fs (f : Fs.node -> Fs.errno + Fs.node) : M unit :=
  fun w =>
    match f (fs w) with
    | inr root' => (Ok tt, World root' (log w) (cwd w))
    | inl c => (Throw (SystemError c), w)
    end.

Definition get_cwd : M path := fun w => (Ok (cwd w), w).

(** [for (const x of xs) { acc = body x acc }] *)
Fixpoint for_of {A S} (xs : list A) (body : A -> S -> M S) (acc : S) : M S :=
  match xs with
  | [] => ret acc
  | x :: r => bind (body x acc) (for_of r body)
  end.

End Async.

Declare Scope async_scope.
Delimit Scope async_scope with async.
Notation "x <- m ;; k" := (Async.bind m (fun x => k))
  (at level 61, m at next level, right associativity) : async_scope.
Notation "m ;;; k" := (Async.bind m (fun _ => k))
  (at level 61, right associativity) : async_scope.

(* ===================================================================== *)
(** * [class FileSystem] (src/core/fileSystem.ts)                         *)
(* ===================================================================== *)

Module FileSystem.

Import Path Async.
Local Open Scope async_scope.

Record CopyStats : Type := MkCopyStats {
  filesCopied : nat;
  directoriesCreated : nat;
  bytesCopied : N;
  skipped : list string
}.

(** [stats.skipped.push(relativePath)] *)
Definition push_skipped (relativePath : string) (stats : CopyStats) : CopyStats :=
  MkCopyStats (filesCopied stats) (directoriesCreated stats) (bytesCopied stats)
              (skipped stats ++ [relativePath]).

(** [stats.directoriesCreated++] *)
Definition count_directory (stats : CopyStats) : CopyStats :=
  MkCopyStats (filesCopied stats) (S (directoriesCreated stats)) (bytesCopied stats)
              (skipped stats).

(** [stats.filesCopied++] *)
Definition count_file (stats : CopyStats) : CopyStats :=
  MkCopyStats (S (filesCopied stats)) (directoriesCreated stats)
              (bytesCopied stats) (skipped stats).

(** [stats.bytesCopied += size] *)
Definition add_bytes (size : N) (stats : CopyStats) : CopyStats :=
  MkCopyStats (filesCopied stats) (directoriesCreated stats)
              (bytesCopied stats + size)%N (skipped stats).

(** [shouldExclude] as the walk calls it. *)
Definition shouldExclude (relativePath : string) (excludePatterns : list string)
  : M bool :=
  match PathMatcher.shouldExclude relativePath excludePatterns with
  | Some b => ret b
  | None => stuck_on RegExpOutsideFragment
  end.

(** The body of the [for] loop of [copyDirectoryRecursive]; [recurse] is the
    method itself. *)
Definition copyEntry
  (recurse : path -> path -> CopyStats -> M CopyStats)
  (source destination rootSource : path) (excludePatterns : list string)
  (dryRun : bool) (entry : Fs.Dirent) (stats : CopyStats) : M CopyStats :=
  let sourcePath := join source [Fs.name entry] in
  let relativePath := relative rootSource sourcePath in
  let destinationPath := join destination [Fs.name entry] in
  excluded <- shouldExclude relativePath excludePatterns ;;
  if excluded then
    emit LDebug (Excluding relativePath) ;;;
    ret (push_skipped relativePath stats)
  else if Fs.isDirectory entry then
    stats' <- (if negb dryRun
               then write_fs (Fs.mkdir destinationPath) ;;; ret (count_directory stats)
               else ret stats) ;;
    recurse sourcePath destinationPath stats'
  else if Fs.isFile entry then
    if negb dryRun then
      fileStats <- read_fs (Fs.stat sourcePath) ;;
      write_fs (Fs.copyFile sourcePath destinationPath) ;;;
      ret (add_bytes (Fs.node_size fileStats) (count_file stats))
    else ret (count_file stats)
  else ret stats.

(** [fuel] bounds the depth of the recursion. *)
Fixpoint copyDirectoryRecursive (fuel : nat)
  (source destination rootSource : path) (excludePatterns : list string)
  (stats : CopyStats) (dryRun : bool) : M CopyStats :=
  match fuel with
  | O => stuck_on OutOfFuel
  | S fuel' =>
      entries <- read_fs (Fs.readdir source) ;;
      for_of entries
        (copyEntry
           (fun sourcePath destinationPath stats' =>
              copyDirectoryRecursive fuel' sourcePath destinationPath rootSource
                excludePatterns stats' dryRun)
           source destination rootSource excludePatterns dryRun)
        stats
  end.

Definition copyDirectory (fuel : nat) (source destination : path)
  (excludePatterns : list string) (dryRun : bool) : M CopyStats :=
  let stats := MkCopyStats 0 0 0 [] in
  stats <- (if dryRun
            then emit LInfo (DryRunWouldCopy source destination) ;;; ret stats
            else write_fs (Fs.mkdir destination) ;;; ret (count_directory stats)) ;;
  copyDirectoryRecursive fuel source destination source excludePatterns stats dryRun.

Definition ensureDirectoryExists (dirPath : path) (dryRun : bool) : M unit :=
  if dryRun then emit LDebug (DryRunWouldCreateDirectory dirPath)
  else
    try_catch (write_fs (Fs.mkdir dirPath))
      (fun error =>
         match code error with
         | Some Fs.EEXIST => ret tt
         | c => throw (Error (FailedToCreateDirectory dirPath c))
         end).

Definition directoryExists (dirPath : path) : M bool :=
  try_catch
    (stats <- read_fs (Fs.stat dirPath) ;; ret (Fs.node_isDirectory stats))
    (fun _ => ret false).

Definition removeDirectory (dirPath : path) (dryRun : bool) : M unit :=
  if dryRun then emit LInfo (DryRunWouldRemoveDirectory dirPath)
  else write_fs (Fs.rm dirPath).

(** What an entry adds to [totalSize] in the loop of [getDirectorySize];
    [recurse] is the method itself. *)
Definition sizeOfEntry (recurse : path -> M N) (dirPath : path)
  (entry : Fs.Dirent) : M N :=
  let entryPath := join dirPath [Fs.name entry] in
  if Fs.isDirectory entry then recurse entryPath
  else if Fs.isFile entry then
    stats <- read_fs (Fs.stat entryPath) ;; ret (Fs.node_size stats)
  else ret 0%N.

(** The loop of [getDirectorySize] inside its [try]: [totalSize] is a
    variable of the method, so when an entry throws the [catch] leaves the
    loop and the method returns what [totalSize] holds by then. *)
Fixpoint sumEntries (sizeOf : Fs.Dirent -> M N) (entries : list Fs.Dirent)
  (totalSize : N) : M N :=
  match entries with
  | [] => ret totalSize
  | entry :: rest =>
      fun w =>
        match sizeOf entry w with
        | (Ok size, w') => sumEntries sizeOf rest (totalSize + size)%N w'
        | (Throw _, w') => (Ok totalSize, w')
        | (Stuck r, w') => (Stuck r, w')
        end
  end.

(** [fuel] bounds the depth of the recursion. *)
Fixpoint getDirectorySize (fuel : nat) (dirPath : path) : M N :=
  match fuel with
  | O => stuck_on OutOfFuel
  | S fuel' =>
      try_catch
        (entries <- read_fs (Fs.readdir dirPath) ;;
         sumEntries (sizeOfEntry (getDirectorySize fuel') dirPath) entries 0%N)
        (fun _ => ret 0%N)
  end.

End FileSystem.

(* ===================================================================== *)
(** * More of the JavaScript library: arrays and dates                    *)
(* ===================================================================== *)

Module JSArray.

Section Sort.
Context {A : Type}.
(** The comparator of [Array.prototype.sort]: a negative result puts its
    first argument first. *)
Variable compareFn : A -> A -> Z.

(** [x] goes in front of the first element that is not strictly before
    it, so equal elements keep their order. *)
Fixpoint insert (x : A) (l : list A) : list A :=
  match l with
  | [] => [x]
  | y :: r => if (compareFn y x <? 0)%Z then y :: insert x r else x :: y :: r
  end.

(** [Array.prototype.sort(compareFn)]: stable; the stable sorts agree on
    what they return for a consistent comparator. *)
Fixpoint sort (l : list A) : list A :=
  match l with
  | [] => []
  | x :: r => insert x (sort r)
  end.
End Sort.

(** [a.slice(start)] for an integral [start]; a negative one counts from the
    end. *)
Definition slice {A} (start : Z) (a : list A) : list A :=
  if (start <? 0)%Z
  then skipn (Z.to_nat (Z.max 0 (Z.of_nat (length a) + start))) a
  else skipn (Z.to_nat start) a.

(** [a.find(p)] *)
Definition find {A} (p : A -> bool) (a : list A) : option A := List.find p a.

End JSArray.

Module JSDate.

Local Open Scope Z_scope.

Definition msPerDay : Z := 86400000.

(** The civil date of a day number (days since 1970-01-01), proleptic
    Gregorian calendar: year, month (1..12), day of the month (1..31). *)
Definition civil (day : Z) : Z * Z * Z :=
  let z := day + 719468 in
  let era := z / 146097 in
  let doe := z - era * 146097 in
  let yoe := (doe - doe / 1460 + doe / 36524 - doe / 146096) / 365 in
  let doy := doe - (365 * yoe + yoe / 4 - yoe / 100) in
  let mp := (5 * doy + 2) / 153 in
  let d := doy - (153 * mp + 2) / 5 + 1 in
  let m := if mp <? 10 then mp + 3 else mp - 9 in
  let y := yoe + era * 400 + (if m <=? 2 then 1 else 0) in
  (y, m, d).

Definition YearFromTime (t : Z) : Z := fst (fst (civil (t / msPerDay))).
Definition MonthFromTime (t : Z) : Z := snd (fst (civil (t / msPerDay))).
Definition DateFromTime (t : Z) : Z := snd (civil (t / msPerDay)).
Definition HourFromTime (t : Z) : Z := (t / 3600000) mod 24.
Definition MinFromTime (t : Z) : Z := (t / 60000) mod 60.
Definition SecFromTime (t : Z) : Z := (t / 1000) mod 60.
Definition msFromTime (t : Z) : Z := t mod 1000.

Definition digit (d : Z) : ascii := ascii_of_nat (48 + Z.to_nat d).

(** The last [width] decimal digits of [n], zero-padded. *)
Fixpoint pad (width : nat) (n : Z) : string :=
  match width with
  | O => EmptyString
  | S w => (pad w (n / 10) ++ String (digit (n mod 10)) EmptyString)%string
  end.

(** The year of the ISO format: four digits from 0 to 9999, otherwise a sign
    and six digits. *)
Definition iso_year (y : Z) : string :=
  if (0 <=? y) && (y <=? 9999) then pad 4 y
  else ((if (y <? 0)%Z then "-" else "+") ++ pad 6 (Z.abs y))%string.

(** [new Date(t).toISOString()] for a time value [t], milliseconds since the
    epoch: [YYYY-MM-DDTHH:mm:ss.sssZ]. *)
Definition toISOString (t : Z) : string :=
  (iso_year (YearFromTime t) ++ "-" ++ pad 2 (MonthFromTime t) ++ "-" ++
   pad 2 (DateFromTime t) ++ "T" ++ pad 2 (HourFromTime t) ++ ":" ++
   pad 2 (MinFromTime t) ++ ":" ++ pad 2 (SecFromTime t) ++ "." ++
   pad 3 (msFromTime t) ++ "Z")%string.

End JSDate.

(* ===================================================================== *)
(** * [class BackupPlan] (src/core/backupPlan.ts)                         *)
(* ===================================================================== *)

Module BackupPlan.

Import Path Async.
Local Open Scope async_scope.

Record BackupInfo : Type := MkBackupInfo {
  timestamp : string;
  backup_path : path;
  projectName : string
}.

(** [LocalBackupTarget | RemoteBackupTarget] of src/core/config.ts; the
    [ssh] record of a remote target is never read here. *)
Inductive BackupTarget : Type :=
| LocalBackupTarget (name : string) (target_path : cpath)
| RemoteBackupTarget (name : string) (ssh : option string) (target_path : cpath).

Definition is_local (target : BackupTarget) : bool :=
  match target with
  | LocalBackupTarget _ _ => true
  | RemoteBackupTarget _ _ _ => false
  end.

Definition target_path_of (target : BackupTarget) : cpath :=
  match target with
  | LocalBackupTarget _ p => p
  | RemoteBackupTarget _ _ p => p
  end.

Record ProjectConfig : Type := MkProjectConfig {
  project_name : string;
  project_path : cpath;
  exclude : option (list string)
}.

(** [generateBackupTimestamp], [now] being the time value of [new Date()]. *)
Definition generateBackupTimestamp (now : Z) : string :=
  (JS.replace_all ":" "-" (JS.before_first "." (JSDate.toISOString now)) ++ "Z")%string.

Definition getBackupPath (cwd : path) (target : BackupTarget)
  (projectName timestamp : string) (configPath : option cpath) : cpath :=
  match target with
  | LocalBackupTarget _ tpath =>
      let targetPath :=
        if isAbsolute tpath then absolute tpath
        else match configPath with
             | Some c => resolve cwd [dirname c; tpath]
             | None => resolve cwd [from_root cwd; tpath]
             end in
      from_root (join_strings targetPath [projectName; timestamp])
  | RemoteBackupTarget _ _ tpath =>
      let laid := segments tpath ++ flat_map pieces [projectName; timestamp] in
      if isAbsolute tpath then CPath true (normalize_onto [] laid)
      else CPath false (normalize_relative_onto [] laid)
  end.

(** The directory that holds the backups of a project on a local target. *)
Definition projectBackupDir (cwd : path) (tpath : cpath) (projectName : string)
  (configPath : option cpath) : path :=
  if isAbsolute tpath then join_strings (absolute tpath) [projectName]
  else match configPath with
       | Some c => resolve cwd [dirname c; tpath; of_string projectName]
       | None => resolve cwd [from_root cwd; tpath; of_string projectName]
       end.

Section WithLocale.

(** [String.prototype.localeCompare] of the host: negative, zero or
    positive. *)
Variable localeCompare : string -> string -> Z.

Definition newest_first (a b : BackupInfo) : Z :=
  localeCompare (timestamp b) (timestamp a).

Definition listBackups (target : BackupTarget) (projectName : string)
  (configPath : option cpath) : M (list BackupInfo) :=
  match target with
  | RemoteBackupTarget _ _ _ =>
      emit LWarn ListingRemoteNotImplemented ;;; ret []
  | LocalBackupTarget _ tpath =>
      cwd <- get_cwd ;;
      let dir := projectBackupDir cwd tpath projectName configPath in
      try_catch
        (entries <- read_fs (Fs.readdir dir) ;;
         backups <- for_of entries
           (fun entry backups =>
              if Fs.isDirectory entry
              then ret (backups ++
                          [MkBackupInfo (Fs.name entry) (join dir [Fs.name entry])
                                        projectName])
              else ret backups)
           [] ;;
         ret (JSArray.sort newest_first backups))
        (fun error =>
           match code error with
           | Some Fs.ENOENT => ret []
           | c => throw (Error (FailedToList c))
           end)
  end.

Definition applyRetention (target : BackupTarget) (projectName : string)
  (maxBackups : Z) (configPath : option cpath) (dryRun : bool) : M (list path) :=
  match target with
  | RemoteBackupTarget _ _ _ =>
      emit LWarn RetentionRemoteNotImplemented ;;; ret []
  | LocalBackupTarget _ _ =>
      backups <- listBackups target projectName configPath ;;
      if (Z.of_nat (length backups) >? maxBackups)%Z then
        let excess := JSArray.slice maxBackups backups in
        for_of excess
          (fun backup toRemove =>
             let toRemove := toRemove ++ [backup_path backup] in
             if negb dryRun then
               FileSystem.removeDirectory (backup_path backup) false ;;;
               emit LInfo (RemovedOldBackup (timestamp backup)) ;;;
               ret toRemove
             else
               emit LInfo (DryRunWouldRemoveOldBackup (timestamp backup)) ;;;
               ret toRemove)
          []
      else ret []
  end.

End WithLocale.

(** The notices of [createBackup] after the copy. *)
Definition report_copy (dryRun : bool) (stats : FileSystem.CopyStats) : M unit :=
  let skippedPaths := FileSystem.skipped stats in
  if dryRun then
    emit LInfo (DryRunWouldCopyFiles (FileSystem.filesCopied stats)) ;;;
    if (0 <? length skippedPaths)%nat
    then emit LInfo (DryRunWouldSkip (length skippedPaths))
    else ret tt
  else
    emit LSuccess (BackedUp (FileSystem.filesCopied stats) (FileSystem.bytesCopied stats)) ;;;
    if (0 <? length skippedPaths)%nat then
      emit LInfo (SkippedExcluded (length skippedPaths)) ;;;
      for_of (firstn 10 skippedPaths)
        (fun skippedPath _ => emit LDebug (SkippedPath skippedPath)) tt ;;;
      if (10 <? length skippedPaths)%nat
      then emit LDebug (AndMore (length skippedPaths - 10))
      else ret tt
    else ret tt.

Definition createBackup (fuel : nat) (project : ProjectConfig) (target : BackupTarget)
  (timestamp : string) (configPath : option cpath) (dryRun : bool) : M path :=
  if negb (is_local target) then throw (Error RemoteNotImplemented)
  else
    cwd <- get_cwd ;;
    let backupPath :=
      segments (getBackupPath cwd target (project_name project) timestamp configPath) in
    let excludePatterns :=
      match exclude project with Some ps => ps | None => [] end in
    let projectPath :=
      if isAbsolute (project_path project) then absolute (project_path project)
      else match configPath with
           | Some c => resolve cwd [dirname c; project_path project]
           | None => resolve cwd [from_root cwd; project_path project]
           end in
    emit LInfo (BackingUp (project_name project) projectPath backupPath) ;;;
    (if negb dryRun then FileSystem.ensureDirectoryExists backupPath false else ret tt) ;;;
    stats <- FileSystem.copyDirectory fuel projectPath backupPath excludePatterns dryRun ;;
    report_copy dryRun stats ;;;
    ret backupPath.

Definition restoreBackup (fuel : nat) (backupPath destination : path) (dryRun : bool)
  : M unit :=
  exists_ <- FileSystem.directoryExists destination ;;
  if exists_ : bool then throw (Error (DestinationExists destination))
  else
    emit LInfo (RestoringBackup backupPath destination) ;;;
    if negb dryRun then
      FileSystem.ensureDirectoryExists destination false ;;;
      FileSystem.copyDirectory fuel backupPath destination [] false ;;;
      emit LSuccess (RestoredBackup destination)
    else emit LInfo (DryRunWouldRestore destination).

End BackupPlan.

(* ===================================================================== *)
(** * The restore command (src/commands/restore.ts)                       *)
(* ===================================================================== *)

Module Commands.

Import Path Async BackupPlan.
Local Open Scope async_scope.

(** The body of [restoreCommand] once the configuration is loaded: [project]
    and [target] are what [getProjectConfig] and [getBackupTarget] returned,
    [configPath] is [options.configPath || process.cwd()]. *)
Definition restoreCommand (localeCompare : string -> string -> Z) (fuel : nat)
  (project : ProjectConfig) (target : BackupTarget) (backup : string)
  (dest : path) (dryRun : bool) (configPath : cpath) : M unit :=
  backups <- listBackups localeCompare target (project_name project) (Some configPath) ;;
  match JSArray.find (fun b => String.eqb (timestamp b) backup) backups with
  | None => throw (Error (BackupNotFound backup (project_name project)))
  | Some backupInfo => restoreBackup fuel (backup_path backupInfo) dest dryRun
  end.

End Commands.


(* ===================================================================== *)
(** * [class ConfigLoader] (src/core/config.ts)                           *)
(* ===================================================================== *)

Module ConfigLoader.

Import Path Async BackupPlan.

Record RetentionConfig : Type := MkRetentionConfig {
  maxBackupsPerProject : option Z
}.

(** [AppConfig] as [JSON.parse] hands it over.  A field [projects] or
    [backupTargets] that is missing or is no array is the empty list here:
    [validateConfig] treats the three alike.  A string that is missing is the
    empty string, which the tests of the code ([!project.name]) treat alike;
    the empty string as a path is the relative path without segments. *)
Record AppConfig : Type := MkAppConfig {
  projects : list ProjectConfig;
  backupTargets : list BackupTarget;
  retention : option RetentionConfig;
  compression : option bool
}.

(** The messages of the errors that config.ts constructs. *)
Inductive config_message : Type :=
| NoProjectDefined
    (* Config must have at least one project defined *)
| NoBackupTargetDefined
    (* Config must have at least one backup target defined *)
| ProjectWithoutName
    (* Project must have a name *)
| ProjectWithoutPath (name : string)
    (* Project "<name>" must have a path *)
| ProjectPathNotDirectory (p : cpath)
    (* Project path "<p>" is not a directory *)
| ProjectPathMissing (p : cpath)
    (* Project path does not exist: <p> *)
| TargetWithoutName
    (* Backup target must have a name *)
| TargetWithoutPath (name : string)
    (* Backup target "<name>" must have a path *)
| RemoteTargetWithoutPath (name : string)
    (* Remote backup target "<name>" must have a path *)
| RetentionBelowOne
    (* maxBackupsPerProject must be at least 1 *)
| ProjectNotFound (projectName : string)
    (* Project "<projectName>" not found in config *)
| TargetNotFound (targetName : string).
    (* Backup target "<targetName>" not found in config *)

Inductive config_error : Type :=
| ConfigSystemError (code : Fs.errno)
| ConfigError (msg : config_message).

(** The texts that [validateConfig] hands to the logger. *)
Inductive config_notice : Type :=
| TargetPathMissing (p : cpath)
    (* warn: Backup target path does not exist: <p>. It will be created ... *)
| RemoteTargetConfigured (name : string).
    (* debug: Remote target "<name>" configured (implementation stubbed) *)

(** What a check returns or throws, and what it handed to the logger. *)
Definition checked : Type := (config_error + unit) * list (level * config_notice).

(** [!p] for a path string. *)
Definition is_empty (p : cpath) : bool :=
  negb (isAbsolute p) && match segments p with [] => true | _ => false end.

Definition target_name (target : BackupTarget) : string :=
  match target with
  | LocalBackupTarget name _ => name
  | RemoteBackupTarget name _ _ => name
  end.

(** [path.isAbsolute(p) ? p : path.resolve(configDir, p)] *)
Definition against (cwd : path) (configDir p : cpath) : path :=
  if isAbsolute p then absolute p else resolve cwd [configDir; p].

(** The body of the loop of [validateConfig] over the projects. *)
Definition checkProject (cwd : path) (configDir : cpath) (root : Fs.node)
  (project : ProjectConfig) : checked :=
  if String.eqb (project_name project) "" then (inl (ConfigError ProjectWithoutName), [])
  else if is_empty (project_path project)
  then (inl (ConfigError (ProjectWithoutPath (project_name project))), [])
  else
    match Fs.stat (against cwd configDir (project_path project)) root with
    | inr stats =>
        if Fs.node_isDirectory stats then (inr tt, [])
        else (inl (ConfigError (ProjectPathNotDirectory (project_path project))), [])
    | inl Fs.ENOENT => (inl (ConfigError (ProjectPathMissing (project_path project))), [])
    | inl code => (inl (ConfigSystemError code), [])
    end.

(** The body of the loop over the targets; [fs.access] succeeds when
    something stands at the path.  A target is local or remote here, so the
    branch of the code for any other [type] has no counterpart. *)
Definition checkTarget (cwd : path) (configDir : cpath) (root : Fs.node)
  (target : BackupTarget) : checked :=
  if String.eqb (target_name target) "" then (inl (ConfigError TargetWithoutName), [])
  else
    match target with
    | LocalBackupTarget name tpath =>
        if is_empty tpath then (inl (ConfigError (TargetWithoutPath name)), [])
        else
          match Fs.stat (against cwd configDir tpath) root with
          | inr _ => (inr tt, [])
          | inl _ => (inr tt, [(LWarn, TargetPathMissing tpath)])
          end
    | RemoteBackupTarget name _ tpath =>
        if is_empty tpath then (inl (ConfigError (RemoteTargetWithoutPath name)), [])
        else (inr tt, [(LDebug, RemoteTargetConfigured name)])
    end.

(** [for (const x of xs) { check x }], the first error thrown ending it. *)
Fixpoint forEach {A} (check : A -> checked) (xs : list A) : checked :=
  match xs with
  | [] => (inr tt, [])
  | x :: r =>
      match check x with
      | (inr _, said) => let (res, more) := forEach check r in (res, said ++ more)
      | thrown => thrown
      end
  end.

(** [validateConfig(config, configPath)], [configPath] being the path of the
    file the configuration was read from. *)
Definition validateConfig (cwd : path) (root : Fs.node) (config : AppConfig)
  (configPath : cpath) : checked :=
  match projects config with
  | [] => (inl (ConfigError NoProjectDefined), [])
  | _ =>
      match backupTargets config with
      | [] => (inl (ConfigError NoBackupTargetDefined), [])
      | _ =>
          let configDir := dirname configPath in
          match forEach (checkProject cwd configDir root) (projects config) with
          | (inr _, said) =>
              match forEach (checkTarget cwd configDir root) (backupTargets config) with
              | (inr _, more) =>
                  (match retention config with
                   | Some r =>
                       match maxBackupsPerProject r with
                       | Some n =>
                           if (n <? 1)%Z then inl (ConfigError RetentionBelowOne)
                           else inr tt
                       | None => inr tt
                       end
                   | None => inr tt
                   end, said ++ more)
              | (thrown, more) => (thrown, said ++ more)
              end
          | thrown => thrown
          end
      end
  end.

Definition getProjectConfig (config : AppConfig) (projectName : string)
  : config_error + ProjectConfig :=
  match JSArray.find (fun p => String.eqb (project_name p) projectName)
          (projects config) with
  | Some project => inr project
  | None => inl (ConfigError (ProjectNotFound projectName))
  end.

(** [None] for the result is [undefined]: the first element of an empty
    array. *)
Definition getBackupTarget (config : AppConfig) (targetName : option string)
  : config_error + option BackupTarget :=
  let first := hd_error (backupTargets config) in
  match targetName with
  | Some name =>
      if String.eqb name "" then inr first
      else
        match JSArray.find (fun t => String.eqb (target_name t) name)
                (backupTargets config) with
        | Some target => inr (Some target)
        | None => inl (ConfigError (TargetNotFound name))
        end
  | None => inr first
  end.

End ConfigLoader.

(* ===================================================================== *)
(** * The backup command (src/commands/backup.ts)                         *)
(* ===================================================================== *)

Module Cli.

Import Path Async BackupPlan ConfigLoader.

Record BackupOptions : Type := MkBackupOptions {
  opt_project : option string;
  opt_all : option bool;
  opt_target : option string;
  opt_dryRun : option bool;
  opt_configPath : option cpath;
  opt_verbose : option bool
}.

(** What the command throws inside its [try]. *)
Inductive failure : Type :=
| PlanError (e : Async.error)        (* thrown by [BackupPlan] *)
| ConfigFailure (e : config_error)   (* thrown by [ConfigLoader] *)
| NothingSelected
    (* Either --project <name> or --all must be specified *)
| TypeError.
    (* [target.type] of a target that is [undefined] *)

(** The texts that the commands themselves hand to the logger; a size is
    kept as the number of bytes that [formatBytes] is to print. *)
Inductive cli_notice : Type :=
| ProcessingProject (name : string)   (* info, backup *)
| BackupCompleted                     (* success, backup *)
| NoProjectsFound                     (* info, list *)
| BackupsForProject (name : string)   (* info, list *)
| Rule                                (* info, list: the line under the title *)
| NoBackupsFound                      (* info, list *)
| BackupLine (timestamp : string) (size : N)   (* info, list *)
| BackupLineSizeUnknown (timestamp : string)   (* info, list *)
| Total (backups : nat)               (* info, list *)
| Failed (f : failure).               (* error: the message of what was caught *)

(** The state of a command: the world of [BackupPlan], and what the command
    itself handed to the logger, each notice with the number of notices that
    [BackupPlan] had handed over before it. *)
Definition state : Type := world * list (nat * level * cli_notice).

Inductive result (A : Type) : Type :=
| Returned (a : A)
| Thrown (f : failure)
| Halted (why : stuck).

Arguments Returned {A} a.
Arguments Thrown {A} f.
Arguments Halted {A} why.

Definition C (A : Type) : Type := state -> result A * state.

Definition creturn {A} (a : A) : C A := fun st => (Returned a, st).

Definition cbind {A B} (m : C A) (k : A -> C B) : C B :=
  fun st =>
    match m st with
    | (Returned a, st') => k a st'
    | (Thrown f, st') => (Thrown f, st')
    | (Halted r, st') => (Halted r, st')
    end.

Definition cthrow {A} (f : failure) : C A := fun st => (Thrown f, st).

(** A call of [BackupPlan]. *)
Definition plan {A} (m : M A) : C A :=
  fun st =>
    match m (fst st) with
    | (Ok a, w') => (Returned a, (w', snd st))
    | (Throw e, w') => (Thrown (PlanError e), (w', snd st))
    | (Stuck r, w') => (Halted r, (w', snd st))
    end.

(** A call of [ConfigLoader] that reads the configuration only. *)
Definition config_call {A} (r : config_error + A) : C A :=
  match r with
  | inr a => creturn a
  | inl e => cthrow (ConfigFailure e)
  end.

(** [logger.<level>(notice)] of the command. *)
Definition say (l : level) (n : cli_notice) : C unit :=
  fun st => (Returned tt, (fst st, snd st ++ [(length (log (fst st)), l, n)])).

(** [try { m } catch { handler }] *)
Definition ctry_catch {A} (m : C A) (handler : C A) : C A :=
  fun st =>
    match m st with
    | (Thrown _, st') => handler st'
    | r => r
    end.

Fixpoint cfor_of {A} (xs : list A) (body : A -> C unit) : C unit :=
  match xs with
  | [] => creturn tt
  | x :: r => cbind (body x) (fun _ => cfor_of r body)
  end.

(** A flag that is set. *)
Definition flag_set (flag : option bool) : bool :=
  match flag with Some b => b | None => false end.

(** [config.retention?.maxBackupsPerProject || 10] *)
Definition maxBackupsOf (config : AppConfig) : Z :=
  match retention config with
  | Some r =>
      match maxBackupsPerProject r with
      | Some n => if (n =? 0)%Z then 10%Z else n
      | None => 10%Z
      end
  | None => 10%Z
  end.

(** [options.configPath || process.cwd()] *)
Definition configPathOf (options : BackupOptions) (cwd : path) : cpath :=
  match opt_configPath options with
  | Some p => if is_empty p then from_root cwd else p
  | None => from_root cwd
  end.

(** The body of the loop of [backupCommand]; [now] is the time value of the
    [new Date()] of this turn. *)
Definition backupProject (localeCompare : string -> string -> Z) (fuel : nat)
  (options : BackupOptions) (configPath : cpath) (target : option BackupTarget)
  (maxBackups : Z) (now : Z) (project : ProjectConfig) : C unit :=
  cbind (say LInfo (ProcessingProject (project_name project))) (fun _ =>
  let timestamp := generateBackupTimestamp now in
  match target with
  | None => cthrow TypeError
  | Some target =>
      cbind (plan (createBackup fuel project target timestamp (Some configPath)
                     (flag_set (opt_dryRun options)))) (fun _ =>
      if negb (flag_set (opt_dryRun options)) then
        cbind (plan (applyRetention localeCompare target (project_name project)
                       maxBackups (Some configPath) false)) (fun _ => creturn tt)
      else
        cbind (plan (applyRetention localeCompare target (project_name project)
                       maxBackups (Some configPath) true)) (fun _ => creturn tt))
  end).

(** The [try] block of [backupCommand] from the loaded configuration on;
    [clock i] is the time value that the [new Date()] of turn [i] reads. *)
Definition backupCommand_try (localeCompare : string -> string -> Z) (fuel : nat)
  (clock : nat -> Z) (config : AppConfig) (options : BackupOptions) : C unit :=
  cbind (plan get_cwd) (fun cwd =>
  let configPath := configPathOf options cwd in
  cbind
    (if flag_set (opt_all options) then creturn (projects config)
     else match opt_project options with
          | Some name =>
              if String.eqb name "" then creturn []
              else cbind (config_call (getProjectConfig config name))
                         (fun project => creturn [project])
          | None => creturn []
          end) (fun projectsToBackup =>
  if (length projectsToBackup =? 0)%nat then cthrow NothingSelected
  else
    cbind (config_call (getBackupTarget config (opt_target options))) (fun target =>
    let maxBackups := maxBackupsOf config in
    cbind
      (cfor_of (combine (seq 0 (length projectsToBackup)) projectsToBackup)
         (fun turn =>
            backupProject localeCompare fuel options configPath target maxBackups
              (clock (fst turn)) (snd turn))) (fun _ =>
    say LSuccess BackupCompleted)))).

(** How the command ends: it returns, or [process.exit(1)]. *)
Inductive ending : Type := Returns | Exits1.

(** [backupCommand], from the loaded configuration on: what the [try] block
    throws is handed to [logger.error], and the process exits with 1. *)
Definition backupCommand (localeCompare : string -> string -> Z) (fuel : nat)
  (clock : nat -> Z) (config : AppConfig) (options : BackupOptions)
  : state -> (ending + stuck) * state :=
  fun st =>
    match backupCommand_try localeCompare fuel clock config options st with
    | (Returned _, st') => (inl Returns, st')
    | (Thrown f, st') => (inl Exits1, snd (say LError (Failed f) st'))
    | (Halted r, st') => (inr r, st')
    end.

(** ** The list command (src/commands/list.ts) *)

Record ListOptions : Type := MkListOptions {
  list_project : option string;
  list_target : option string;
  list_configPath : option cpath;
  list_verbose : option bool
}.

(** The body of the loop of [listCommand] over the backups of a project. *)
Definition listBackupLine (fuel : nat) (backup : BackupInfo) : C unit :=
  ctry_catch
    (cbind (plan (FileSystem.getDirectorySize fuel (backup_path backup))) (fun size =>
     say LInfo (BackupLine (timestamp backup) size)))
    (say LInfo (BackupLineSizeUnknown (timestamp backup))).

(** The body of the loop over the projects. *)
Definition listProject (localeCompare : string -> string -> Z) (fuel : nat)
  (configPath : cpath) (target : option BackupTarget) (project : ProjectConfig)
  : C unit :=
  cbind (say LInfo (BackupsForProject (project_name project))) (fun _ =>
  cbind (say LInfo Rule) (fun _ =>
  match target with
  | None => cthrow TypeError
  | Some target =>
      cbind (plan (listBackups localeCompare target (project_name project)
                     (Some configPath))) (fun backups =>
      if (length backups =? 0)%nat then say LInfo NoBackupsFound
      else
        cbind (cfor_of backups (listBackupLine fuel)) (fun _ =>
        say LInfo (Total (length backups))))
  end)).

(** The [try] block of [listCommand] from the loaded configuration on. *)
Definition listCommand_try (localeCompare : string -> string -> Z) (fuel : nat)
  (config : AppConfig) (options : ListOptions) : C unit :=
  cbind (plan get_cwd) (fun cwd =>
  let configPath :=
    match list_configPath options with
    | Some p => if is_empty p then from_root cwd else p
    | None => from_root cwd
    end in
  cbind (config_call (getBackupTarget config (list_target options))) (fun target =>
  cbind
    (match list_project options with
     | Some name =>
         if String.eqb name "" then creturn (projects config)
         else cbind (config_call (getProjectConfig config name))
                    (fun project => creturn [project])
     | None => creturn (projects config)
     end) (fun projectsToShow =>
  if (length projectsToShow =? 0)%nat then say LInfo NoProjectsFound
  else cfor_of projectsToShow (listProject localeCompare fuel configPath target)))).

Definition listCommand (localeCompare : string -> string -> Z) (fuel : nat)
  (config : AppConfig) (options : ListOptions)
  : state -> (ending + stuck) * state :=
  fun st =>
    match listCommand_try localeCompare fuel config options st with
    | (Returned _, st') => (inl Returns, st')
    | (Thrown f, st') => (inl Exits1, snd (say LError (Failed f) st'))
    | (Halted r, st') => (inr r, st')
    end.

End Cli.
(* ===================================================================== *)
(** * Vocabulary of the properties                                        *)
(* ===================================================================== *)

Import Path Async BackupPlan FileSystem.

(** ** Backup ids *)

Definition is_digit (c : ascii) : bool :=
  ((48 <=? nat_of_ascii c) && (nat_of_ascii c <=? 57))%nat.

(** [fits shape s]: [s] has the length of [shape], a digit wherever [shape]
    has a [d], and the character of [shape] elsewhere. *)
Fixpoint fits (shape s : string) : bool :=
  match shape, s with
  | EmptyString, EmptyString => true
  | String k shape', String c s' =>
      (if Ascii.eqb k "d" then is_digit c else Ascii.eqb c k) && fits shape' s'
  | _, _ => false
  end.

(** The format [YYYY-MM-DDTHH-mm-ssZ]; the tests of the repository check ids
    against [/^\d{4}-\d{2}-\d{2}T\d{2}-\d{2}-\d{2}Z$/]. *)
Definition is_timestamp (s : string) : bool := fits "dddd-dd-ddTdd-dd-ddZ" s.

(** The id that the fields of a date spell. *)
Definition id_of_fields (year month day hour minute second : Z) : string :=
  (JSDate.pad 4 year ++ "-" ++ JSDate.pad 2 month ++ "-" ++ JSDate.pad 2 day ++ "T" ++
   JSDate.pad 2 hour ++ "-" ++ JSDate.pad 2 minute ++ "-" ++ JSDate.pad 2 second ++
   "Z")%string.

(** A string, character by character. *)
Fixpoint smap (f : ascii -> ascii) (s : string) : string :=
  match s with
  | EmptyString => EmptyString
  | String c s' => String (f c) (smap f s')
  end.

(** [a] is not below [b] in the lexicographic order of the code units. *)
Definition id_ge (a b : string) : Prop := String.leb b a = true.

(** What is assumed of the host's [localeCompare]: on two ids of the format
    it is negative exactly when the first is lexicographically smaller (the
    two differ first at a digit, and collation orders the digits as their
    codes do). *)
Definition locale_agrees (localeCompare : string -> string -> Z) : Prop :=
  forall a b, is_timestamp a = true -> is_timestamp b = true ->
    (localeCompare a b <? 0)%Z = String.ltb a b.

(** A comparison by code units, one host function that qualifies. *)
Definition code_unit_compare (a b : string) : Z :=
  match String.compare a b with
  | Lt => (-1)%Z
  | Eq => 0%Z
  | Gt => 1%Z
  end.

(** ** Listings *)

(** The records that [listBackups] builds from a listing, before the sort. *)
Definition backups_of (dir : path) (project : string) (entries : list Fs.Dirent)
  : list BackupInfo :=
  map (fun e => MkBackupInfo (Fs.name e) (join dir [Fs.name e]) project)
      (filter Fs.isDirectory entries).

(** Every directory of the listing is named by an id of the format. *)
Definition ids_valid (entries : list Fs.Dirent) : Prop :=
  Forall (fun e => Fs.isDirectory e = true -> is_timestamp (Fs.name e) = true) entries.

(** [id] is one of [ids]. *)
Definition id_in (ids : list string) (id : string) : bool :=
  existsb (String.eqb id) ids.

(** ** Retention *)

(** The tree once [rm] removed what stands at [p]; the tree itself where
    [rm] fails. *)
Definition removed (p : path) (root : Fs.node) : Fs.node :=
  match Fs.rm p root with
  | inr root' => root'
  | inl _ => root
  end.

(** The world after [applyRetention] dealt with one excess record. *)
Definition retention_step (dryRun : bool) (w : world) (backup : BackupInfo) : world :=
  if dryRun
  then logged LInfo (DryRunWouldRemoveOldBackup (timestamp backup)) w
  else logged LInfo (RemovedOldBackup (timestamp backup))
         (World (removed (backup_path backup) (fs w)) (log w) (cwd w)).

(** The world after [applyRetention] dealt with the excess records. *)
Definition after_retention (dryRun : bool) (excess : list BackupInfo) (w : world)
  : world :=
  fold_left (retention_step dryRun) excess w.

(** ** The copy *)

(** [p] is [q] or an ancestor of [q]. *)
Fixpoint is_prefix (p q : path) : bool :=
  match p, q with
  | [], _ => true
  | s :: p', t :: q' => String.eqb s t && is_prefix p' q'
  | _ :: _, [] => false
  end.

(** Neither path lies at or beneath the other. *)
Definition separate (p q : path) : Prop :=
  is_prefix p q = false /\ is_prefix q p = false.

(** [stat] from a node that may be missing. *)
Definition stat_opt (q : path) (o : option Fs.node) : Fs.errno + Fs.node :=
  match o with
  | Some n => Fs.stat_from q n
  | None => inl Fs.ENOENT
  end.

(** Two counts that report the same files copied and the same skipped paths. *)
Definition same_report (a b : CopyStats) : Prop :=
  filesCopied a = filesCopied b /\ skipped a = skipped b.

(** Two trees that show the same at and beneath [source]. *)
Definition agree_below (source : path) (a b : Fs.node) : Prop :=
  forall q, is_prefix source q = true -> Fs.stat q a = Fs.stat q b.

(** What lies apart from [dest] is after the writes as it was before. *)
Definition unchanged_outside (dest : path) (before after : Fs.node) : Prop :=
  forall q, separate dest q -> Fs.stat q after = Fs.stat q before.

(** A dry step: it leaves the file system alone and, when it returns, the
    counts of directories and bytes. *)
Definition dry_step (m : CopyStats -> M CopyStats) : Prop :=
  forall stats w,
    fs (snd (m stats w)) = fs w /\
    forall stats', fst (m stats w) = Ok stats' ->
      directoriesCreated stats' = directoriesCreated stats /\
      bytesCopied stats' = bytesCopied stats.

(** A real step and its dry counterpart, the real one run where the source
    shows what it shows to the dry one: when the real step returns, the dry
    step returns the same report and has written nothing; the real step has
    written under [dest] only. *)
Definition coupled (source dest : path) (real dry : CopyStats -> M CopyStats) : Prop :=
  forall sr sd wr wd sr' wr',
    same_report sd sr ->
    agree_below source (fs wr) (fs wd) ->
    real sr wr = (Ok sr', wr') ->
    exists sd' wd',
      dry sd wd = (Ok sd', wd') /\
      same_report sd' sr' /\
      fs wd' = fs wd /\
      directoriesCreated sr <= directoriesCreated sr' /\
      unchanged_outside dest (fs wr) (fs wr').

(** The height of a tree: 0 for a leaf, one more than its highest entry for
    a directory. *)
Fixpoint height (n : Fs.node) : nat :=
  match n with
  | Fs.Dir es =>
      S ((fix heights (l : list (string * Fs.node)) : nat :=
            match l with
            | [] => 0
            | (_, c) :: r => Nat.max (height c) (heights r)
            end) es)
  | _ => 0
  end.

(** The recursion budget that a walk from [source] needs. *)
Definition fuel_enough (fuel : nat) (source : path) (root : Fs.node) : Prop :=
  0 < fuel /\
  match Fs.stat source root with
  | inr n => height n <= fuel
  | inl _ => True
  end.

(** The run did not stop for lack of recursion budget. *)
Definition within_budget {A} (r : outcome A * world) : Prop :=
  fst r <> Stuck OutOfFuel.



(** The tree with the node [n] in the place of what stands at [P]. *)
Definition graft_at (P : path) (n : Fs.node) (o : option Fs.node)
  : Fs.errno + option Fs.node :=
  Fs.alter false (fun _ => inr (Some n)) P o.

(** The same from the root; the tree itself when nothing stands at [P]. *)
Definition graft (P : path) (n : Fs.node) (root : Fs.node) : Fs.node :=
  match graft_at P n (Some root) with
  | inr (Some root') => root'
  | _ => root
  end.

(** The world with other content, [es'], in the directory at [P]. *)
Definition grafted (P : path) (es' : list (string * Fs.node)) (w : world) : world :=
  World (graft P (Fs.Dir es') (fs w)) (log w) (cwd w).

(** A directory stands at [P]. *)
Definition holds_directory (P : path) (root : Fs.node) : Prop :=
  exists es, Fs.stat P root = inr (Fs.Dir es).

(** The result of a run, its world grafted. *)
Definition lift_graft (P : path) (es' : list (string * Fs.node)) {A}
  (r : outcome A * world) : outcome A * world :=
  (fst r, grafted P es' (snd r)).

(** [m] does not see what stands beneath the directory at [P]: run on the
    grafted world it returns what it returns on the world itself, and leaves
    the grafted world of what it leaves; and it leaves the directory a
    directory. *)
Definition blind (P : path) (es' : list (string * Fs.node)) {A} (m : M A) : Prop :=
  forall w, holds_directory P (fs w) ->
    m (grafted P es' w) = lift_graft P es' (m w) /\
    forall a w', m w = (Ok a, w') -> holds_directory P (fs w').


(** ** Vocabulary of the further properties *)

(** No name occurs twice. *)
Fixpoint distinct (names : list string) : bool :=
  match names with
  | [] => true
  | k :: r => negb (existsb (String.eqb k) r) && distinct r
  end.

(** A tree as a file system holds it: the names in a directory differ. *)
Fixpoint well_formed (n : Fs.node) : bool :=
  match n with
  | Fs.Dir es =>
      distinct (map fst es) &&
      (fix all (l : list (string * Fs.node)) : bool :=
         match l with
         | [] => true
         | (_, c) :: r => well_formed c && all r
         end) es
  | _ => true
  end.

(** The bytes of the regular files at and beneath a node. *)
Fixpoint tree_size (n : Fs.node) : N :=
  match n with
  | Fs.File content => N.of_nat (String.length content)
  | Fs.Dir es =>
      (fix sizes (l : list (string * Fs.node)) : N :=
         match l with
         | [] => 0%N
         | (_, c) :: r => (tree_size c + sizes r)%N
         end) es
  | Fs.Special => 0%N
  end.

(** The size of what stands at [p] as [getDirectorySize] is to report it:
    nothing for what is no directory. *)
Definition directory_size (p : path) (root : Fs.node) : N :=
  match Fs.stat p root with
  | inr (Fs.Dir es) => tree_size (Fs.Dir es)
  | _ => 0%N
  end.

(** A rewriting of a place that puts nothing beneath it: [mkdir] and the
    write of a file are such. *)
Definition adds_nothing_below (f : option Fs.node -> Fs.errno + option Fs.node)
  : Prop :=
  forall o o' s x n,
    f o = inr o' ->
    match o' with Some n' => Fs.stat_from (s :: x) n' | None => inl Fs.ENOENT end
      = inr n ->
    match o with Some n0 => Fs.stat_from (s :: x) n0 | None => inl Fs.ENOENT end
      = inr n.

(** A rewriting of a place that leaves a directory found there as it is:
    [mkdir] and the write of a file (which fails on a directory) are such. *)
Definition keeps_directories (f : option Fs.node -> Fs.errno + option Fs.node)
  : Prop :=
  forall es o', f (Some (Fs.Dir es)) = inr o' -> o' = Some (Fs.Dir es).

(** [m] leaves every world in the relation [R] to the world it started
    from, whatever its outcome. *)
Definition preserves (R : world -> world -> Prop) {A} (m : M A) : Prop :=
  forall w, R w (snd (m w)).

(** The world [w'] continues [w]: the working directory is the same, what
    was a directory is one, and a well-formed tree is still well-formed. *)
Definition continues (w w' : world) : Prop :=
  cwd w' = cwd w /\
  (forall d, holds_directory d (fs w) -> holds_directory d (fs w')) /\
  (well_formed (fs w) = true -> well_formed (fs w') = true).

(** No regular file stands at or beneath [dest]. *)
Definition holds_no_file (dest : path) (root : Fs.node) : Prop :=
  forall rel content, Fs.stat (dest ++ rel) root <> inr (Fs.File content).

(** No name on the way from [source] down [rel] is excluded: the walk of
    [copyDirectoryRecursive] reaches the entry at [source ++ rel]. *)
Fixpoint visible_from (rootSource : path) (pats : list string) (source : path)
  (rel : list string) : bool :=
  match rel with
  | [] => true
  | k :: r =>
      match PathMatcher.shouldExclude (relative rootSource (source ++ [k])) pats with
      | Some false => visible_from rootSource pats (source ++ [k]) r
      | _ => false
      end
  end.

(** A name that [path.join] and [path.resolve] leave as it is. *)
Definition plain_name (s : string) : bool :=
  negb (String.eqb s ".") && negb (String.eqb s "..") && negb (String.eqb s "").

(** A real step of the copy from [source] to [dest], seen from the tree
    [root0] that the source showed when the copy began.  When it returns,
    - it wrote at and beneath [dest] only;
    - every regular file of the source that it [covers] and that no
      exclusion hides stands at the same place beneath [dest], with its
      content;
    - a file that stood anywhere before stands there still, provided that,
      if its place is beneath [dest], it held what the source holds at the
      same place;
    - a file that stands anywhere now stood there before, or is the copy of
      a file of the source that it [covers] and that no exclusion hides. *)
Definition mirrors (rootSource : path) (pats : list string) (root0 : Fs.node)
  (source dest : path) (covers : list string -> Prop)
  (m : CopyStats -> M CopyStats) : Prop :=
  forall stats w stats' w',
    agree_below source (fs w) root0 ->
    m stats w = (Ok stats', w') ->
    unchanged_outside dest (fs w) (fs w') /\
    (forall rel content,
        covers rel ->
        visible_from rootSource pats source rel = true ->
        Fs.stat (source ++ rel) root0 = inr (Fs.File content) ->
        Fs.stat (dest ++ rel) (fs w') = inr (Fs.File content)) /\
    (forall q content,
        Fs.stat q (fs w) = inr (Fs.File content) ->
        (forall rel, q = dest ++ rel ->
                     Fs.stat (source ++ rel) root0 = inr (Fs.File content)) ->
        Fs.stat q (fs w') = inr (Fs.File content)) /\
    (forall q content,
        Fs.stat q (fs w') = inr (Fs.File content) ->
        Fs.stat q (fs w) = inr (Fs.File content) \/
        exists rel,
          q = dest ++ rel /\ covers rel /\
          visible_from rootSource pats source rel = true /\
          Fs.stat (source ++ rel) root0 = inr (Fs.File content)).

(** The paths that begin with one of [names]. *)
Definition begins_with (names : list string) (rel : list string) : Prop :=
  match rel with
  | [] => False
  | k :: _ => In k names
  end.

(** The file system and the working directory are the same. *)
Definition untouched (w w' : world) : Prop :=
  fs w' = fs w /\ cwd w' = cwd w.

(** The directory of a project as [createBackup] resolves it. *)
Definition resolved_project_path (cwd0 : path) (project : ProjectConfig)
  (configPath : option cpath) : path :=
  if isAbsolute (project_path project) then absolute (project_path project)
  else match configPath with
       | Some c => resolve cwd0 [dirname c; project_path project]
       | None => resolve cwd0 [from_root cwd0; project_path project]
       end.

(** [project.exclude || []] *)
Definition patterns_of (project : ProjectConfig) : list string :=
  match exclude project with Some ps => ps | None => [] end.

(** ** Patterns *)

(** A pattern whose stars stand alone and whose other characters are not
    syntax characters of regular expressions, the dot apart. *)
Fixpoint single_stars (pattern : string) : bool :=
  match pattern with
  | EmptyString => true
  | String c r =>
      (if Ascii.eqb c "*"
       then match r with
            | String d _ => negb (Ascii.eqb d "*")
            | EmptyString => true
            end
       else negb (JS.syntax_char c) || Ascii.eqb c ".") &&
      single_stars r
  end.

(** A pattern without stars or syntax characters, the dot apart. *)
Fixpoint literal_pattern (pattern : string) : bool :=
  match pattern with
  | EmptyString => true
  | String c r =>
      (negb (JS.syntax_char c) || Ascii.eqb c ".") && literal_pattern r
  end.

(** A string rewritten character by character. *)
Fixpoint expand (f : ascii -> string) (s : string) : string :=
  match s with
  | EmptyString => EmptyString
  | String c r => (f c ++ expand f r)%string
  end.

Definition star_class (c : ascii) : string :=
  if Ascii.eqb c "*" then "[^/]*" else String c EmptyString.

Definition escape_dot (c : ascii) : string :=
  if Ascii.eqb c "." then "\." else String c EmptyString.

(** What [regexPattern] makes of a character of such a pattern. *)
Definition regex_char (c : ascii) : string :=
  if Ascii.eqb c "*" then "[^/]*"
  else if Ascii.eqb c "." then "\." else String c EmptyString.

(** The expression that [new RegExp] is to build from such a pattern. *)
Fixpoint glob_items (pattern : string) : JS.regexp :=
  match pattern with
  | EmptyString => []
  | String c r =>
      (if Ascii.eqb c "*" then JS.Item JS.NotSlash true else JS.Item (JS.Lit c) false)
      :: glob_items r
  end.

(** No character of [s] is [c]. *)
Fixpoint lacks (c : ascii) (s : string) : bool :=
  match s with
  | EmptyString => true
  | String d r => negb (Ascii.eqb d c) && lacks c r
  end.

(** ** Dates *)

(** A date as one number that grows with the date: months fit below 16, days
    of the month below 32. *)
Definition date_code (date : Z * Z * Z) : Z :=
  let '(y, m, d) := date in ((y * 16 + m) * 32 + d)%Z.

(** The days of one era of 400 years, from 0000-03-01. *)
Definition era_days : Z := 146097.
Definition era_start : Z := -719468.

(** The year of the era and the day of the year of a day of the era, as
    [civil] computes them. *)
Definition yoe_of (doe : Z) : Z :=
  ((doe - doe / 1460 + doe / 36524 - doe / 146096) / 365)%Z.

Definition doy_of (doe : Z) : Z :=
  (doe - (365 * yoe_of doe + yoe_of doe / 4 - yoe_of doe / 100))%Z.

(** The date of the day [doy] of the year [yoe] of the era, the years
    beginning in March. *)
Definition date_of_doy (yoe doy : Z) : Z * Z * Z :=
  let mp := ((5 * doy + 2) / 153)%Z in
  let d := (doy - (153 * mp + 2) / 5 + 1)%Z in
  let m := if (mp <? 10)%Z then (mp + 3)%Z else (mp - 9)%Z in
  ((yoe + (if (m <=? 2)%Z then 1 else 0))%Z, m, d).

(** The first and the last day of a year of the era. *)
Definition year_start (yoe : Z) : Z := (365 * yoe + yoe / 4 - yoe / 100)%Z.

Definition year_end (yoe : Z) : Z :=
  if (yoe =? 399)%Z then 146096%Z else (year_start (yoe + 1) - 1)%Z.

(** [civil] finds the year of the first and of the last day of the year,
    and the year has at most 366 days. *)
Definition year_ok (yoe : Z) : bool :=
  ((yoe_of (year_start yoe) =? yoe) && (yoe_of (year_end yoe) =? yoe) &&
   (year_start yoe <=? year_end yoe) && (year_end yoe - year_start yoe <=? 365))%Z.

Fixpoint years_ok (n : nat) (yoe : Z) : bool :=
  match n with
  | O => true
  | S k => if year_ok yoe then years_ok k (yoe + 1)%Z else false
  end.

(** The date of a day of the year is a date, below the first day of the next
    year, and the date of the day after it, if it is of the same year, is
    greater. *)
Definition doy_ok (doy : Z) : bool :=
  let '(y, m, d) := date_of_doy 0 doy in
  ((1 <=? m) && (m <=? 12) && (1 <=? d) && (d <=? 31) &&
   (date_code (y, m, d) <? date_code (1, 3, 1)) &&
   ((doy =? 365) || (date_code (y, m, d) <? date_code (date_of_doy 0 (doy + 1)))))%Z.

Fixpoint doys_ok (n : nat) (doy : Z) : bool :=
  match n with
  | O => true
  | S k => if doy_ok doy then doys_ok k (doy + 1)%Z else false
  end.

(** The order of two dates with their times of day, field by field. *)
Definition compare_fields (a b : Z * Z * Z * Z * Z * Z) : comparison :=
  let '(y1, mo1, d1, h1, mi1, s1) := a in
  let '(y2, mo2, d2, h2, mi2, s2) := b in
  match (y1 ?= y2)%Z with
  | Eq => match (mo1 ?= mo2)%Z with
          | Eq => match (d1 ?= d2)%Z with
                  | Eq => match (h1 ?= h2)%Z with
                          | Eq => match (mi1 ?= mi2)%Z with
                                  | Eq => (s1 ?= s2)%Z
                                  | c => c
                                  end
                          | c => c
                          end
                  | c => c
                  end
          | c => c
          end
  | c => c
  end.

(** The fields of the id of a time value. *)
Definition fields_of (t : Z) : Z * Z * Z * Z * Z * Z :=
  (JSDate.YearFromTime t, JSDate.MonthFromTime t, JSDate.DateFromTime t,
   JSDate.HourFromTime t, JSDate.MinFromTime t, JSDate.SecFromTime t).

(** ** Commands *)

(** A command step that leaves the file system and the working directory as
    they are, whatever its outcome. *)
Definition reads_only {A} (c : Cli.C A) : Prop :=
  forall st, untouched (fst st) (fst (snd (c st))).

(** What [validateConfig] has checked of a project and of a target. *)
Definition project_checked (cwd : path) (configDir : cpath) (root : Fs.node)
  (project : ProjectConfig) : Prop :=
  project_name project <> "" /\
  ConfigLoader.is_empty (project_path project) = false /\
  holds_directory (ConfigLoader.against cwd configDir (project_path project)) root.

Definition target_checked (target : BackupTarget) : Prop :=
  ConfigLoader.target_name target <> "" /\
  ConfigLoader.is_empty (target_path_of target) = false.

(** ** The count of a copy *)

(** What a dry run is to report of the tree [n] that stands at [source]: it
    goes through the entries in their order; an entry that an exclusion
    pattern matches is recorded as skipped, with all beneath it; a regular
    file that is not excluded counts as a file; a directory that is not
    excluded is gone through in its turn.  [None] when a pattern is outside
    the fragment of the matcher. *)
Fixpoint census (rootSource : path) (pats : list string) (n : Fs.node)
  (source : path) (stats : CopyStats) {struct n} : option CopyStats :=
  match n with
  | Fs.Dir es =>
      (fix entries (l : list (string * Fs.node)) (stats : CopyStats)
         : option CopyStats :=
         match l with
         | [] => Some stats
         | (k, c) :: r =>
             let relativePath := relative rootSource (source ++ [k]) in
             match PathMatcher.shouldExclude relativePath pats with
             | None => None
             | Some true => entries r (push_skipped relativePath stats)
             | Some false =>
                 match
                   match c with
                   | Fs.Dir _ => census rootSource pats c (source ++ [k]) stats
                   | Fs.File _ => Some (count_file stats)
                   | Fs.Special => Some stats
                   end
                 with
                 | Some stats' => entries r stats'
                 | None => None
                 end
             end
         end) es stats
  | _ => Some stats
  end.

(** The outcome that stands for a count. *)
Definition counted (c : option CopyStats) : outcome CopyStats :=
  match c with
  | Some stats => Ok stats
  | None => Stuck RegExpOutsideFragment
  end.

(** The regular files of a tree, each by its path from the tree, in the
    order of the entries. *)
Fixpoint files_of (n : Fs.node) : list (list string) :=
  match n with
  | Fs.Dir es =>
      (fix entries (l : list (string * Fs.node)) : list (list string) :=
         match l with
         | [] => []
         | (k, c) :: r =>
             match c with
             | Fs.File _ => [[k]]
             | Fs.Dir _ => map (cons k) (files_of c)
             | Fs.Special => []
             end ++ entries r
         end) es
  | _ => []
  end.

(** The files of the tree at [source] that the walk reaches. *)
Definition visible_files (rootSource : path) (pats : list string) (source : path)
  (n : Fs.node) : list (list string) :=
  filter (visible_from rootSource pats source) (files_of n).

(** A notice of the list command that shows a size, or no size at all. *)
Definition size_known (n : Cli.cli_notice) : Prop :=
  forall timestamp, n <> Cli.BackupLineSizeUnknown timestamp.

(** From [st] to [st'] nothing was written to the file system, and no
    notice was added that gives a size as unknown. *)
Definition listed_only (st st' : Cli.state) : Prop :=
  untouched (fst st) (fst st') /\
  forall entry, In entry (snd st') -> In entry (snd st) \/ size_known (snd entry).

Definition lists_only {A} (c : Cli.C A) : Prop :=
  forall st, listed_only st (snd (c st)).

(** A real step of the copy from [source] to [dest] that, when it returns,
    leaves a directory beneath [dest] at the place of every directory of the
    source that it [covers] and that no exclusion hides. *)
Definition mirrors_directories (rootSource : path) (pats : list string)
  (root0 : Fs.node) (source dest : path) (covers : list string -> Prop)
  (m : CopyStats -> M CopyStats) : Prop :=
  forall stats w stats' w',
    agree_below source (fs w) root0 ->
    m stats w = (Ok stats', w') ->
    forall rel es,
      covers rel ->
      visible_from rootSource pats source rel = true ->
      Fs.stat (source ++ rel) root0 = inr (Fs.Dir es) ->
      holds_directory (dest ++ rel) (fs w').

(** A text without a separator. *)
Fixpoint no_separator (s : string) : bool :=
  match s with
  | EmptyString => true
  | String c r => negb (Ascii.eqb c "/") && no_separator r
  end.

(** A name that an entry of a directory can bear: not empty, neither [.]
    nor [..], and without a separator.  [path.join] appends such a name. *)
Definition entry_name (s : string) : bool := plain_name s && no_separator s.

(** The directory of a local target as [getBackupPath] resolves it. *)
Definition resolved_target_path (cwd0 : path) (tpath : cpath)
  (configPath : option cpath) : path :=
  if isAbsolute tpath then absolute tpath
  else match configPath with
       | Some c => resolve cwd0 [dirname c; tpath]
       | None => resolve cwd0 [from_root cwd0; tpath]
       end.


(** ** Sample data *)

Definition sample_tree : Fs.node :=
  Fs.Dir
    [("proj",
      Fs.Dir [("a.txt", Fs.File "aaa"); ("b.txt", Fs.File "bb");
              ("node_modules", Fs.Dir [("x.json", Fs.File "{}")]);
              ("sub", Fs.Dir [("c.txt", Fs.File "c"); ("link", Fs.Special)])]);
     ("backups", Fs.Dir [])].

Definition sample_world : world := World sample_tree [] ["proj"].

Definition sample_project : ProjectConfig :=
  MkProjectConfig "proj" (CPath true ["proj"]) (Some ["node_modules"]).

Definition sample_remote : BackupTarget :=
  RemoteBackupTarget "offsite" (Some "backup.example.org")
    (CPath true ["srv"; "backups"]).


Definition sample_local : BackupTarget :=
  LocalBackupTarget "disk" (CPath true ["backups"]).

(** Five backups of [proj], an hour apart, and a stray file beside them. *)
Definition sample_backups : Fs.node :=
  Fs.Dir
    [("proj", Fs.Dir [("a.txt", Fs.File "aaa")]);
     ("backups",
      Fs.Dir
        [("proj",
          Fs.Dir [("2025-01-15T12-00-00Z", Fs.Dir [("a.txt", Fs.File "a12")]);
                  ("2025-01-15T10-00-00Z", Fs.Dir [("a.txt", Fs.File "a10")]);
                  ("notes.txt", Fs.File "keep");
                  ("2025-01-15T14-00-00Z", Fs.Dir [("a.txt", Fs.File "a14")]);
                  ("2025-01-15T11-00-00Z", Fs.Dir [("a.txt", Fs.File "a11")]);
                  ("2025-01-15T13-00-00Z", Fs.Dir [("a.txt", Fs.File "a13")])])])].

Definition sample_backup_world : world := World sample_backups [] ["proj"].

Definition sample_listing : list Fs.Dirent :=
  [Fs.MkDirent "2025-01-15T12-00-00Z" Fs.KDir;
   Fs.MkDirent "2025-01-15T10-00-00Z" Fs.KDir;
   Fs.MkDirent "notes.txt" Fs.KFile;
   Fs.MkDirent "2025-01-15T14-00-00Z" Fs.KDir;
   Fs.MkDirent "2025-01-15T11-00-00Z" Fs.KDir;
   Fs.MkDirent "2025-01-15T13-00-00Z" Fs.KDir].


(** A backup of [sample_project] on [sample_local], and its restore. *)
Definition sample_id : string := "2025-01-15T12-00-00Z".

Definition sample_after_backup : world :=
  snd (createBackup 8 sample_project sample_local sample_id None false sample_world).

Definition sample_after_restore : world :=
  snd (restoreBackup 8 ["backups"; "proj"; sample_id] ["restored"] false
         sample_after_backup).

(** A sixth backup beside the five of [sample_backup_world], an hour after
    the last. *)
Definition sample_new_id : string := "2025-01-15T15-00-00Z".

Definition sample_after_sixth : world :=
  snd (createBackup 8 sample_project sample_local sample_new_id None false
         sample_backup_world).

Definition sample_listing_after : list Fs.Dirent :=
  sample_listing ++ [Fs.MkDirent sample_new_id Fs.KDir].

(** A project whose directory does not exist, and the tree once the
    directory of its backup is made. *)
Definition sample_missing_project : ProjectConfig :=
  MkProjectConfig "gone" (CPath true ["missing"]) None.

Definition sample_made : Fs.node :=
  match Fs.mkdir ["backups"; "gone"; sample_id] sample_tree with
  | inr root => root
  | inl _ => sample_tree
  end.

(** A configuration with the sample project and the sample target; the
    options of [backup --all --dry-run]. *)
Definition sample_config : ConfigLoader.AppConfig :=
  ConfigLoader.MkAppConfig [sample_project] [sample_local]
    (Some (ConfigLoader.MkRetentionConfig (Some 3%Z))) None.

Definition sample_dry_options : Cli.BackupOptions :=
  Cli.MkBackupOptions None (Some true) None (Some true) None None.

(** The options of [list] without arguments. *)
Definition sample_list_options : Cli.ListOptions :=
  Cli.MkListOptions None None None None.
(* ===================================================================== *)
(** * Properties                                                          *)
(* ===================================================================== *)

(** ** PathMatcher *)

Lemma shouldExclude_nil relativePath :
  PathMatcher.shouldExclude relativePath [] = Some false.
Proof. reflexivity. Qed.

Lemma matchesPattern_substring path pattern b :
  PathMatcher.matchesPattern path pattern = Some b ->
  JS.includes pattern path = true ->
  b = true.
Proof.
  unfold PathMatcher.matchesPattern.
  destruct (JS.anchored_test _ _) as [r|]; [|discriminate].
  intros [= <-] ->. apply orb_true_r.
Qed.

(** Plain names, single stars, the substring fallback and the normalization
    of separators, on examples. *)
Example matcher_examples :
  PathMatcher.shouldExclude "node_modules" ["node_modules"] = Some true /\
  PathMatcher.shouldExclude "app.log" ["*.log"] = Some true /\
  PathMatcher.shouldExclude "sub/app.log" ["*.log"] = Some false /\
  PathMatcher.shouldExclude "src/a.test.ts" ["src/*.test.ts"] = Some true /\
  PathMatcher.shouldExclude "src/deep/a.test.ts" ["src/*.test.ts"] = Some false /\
  PathMatcher.shouldExclude "catalog/file.txt" ["log"] = Some true /\
  PathMatcher.shouldExclude "sub\app.log" ["sub/*.log"] = Some true /\
  PathMatcher.shouldExclude "axb" ["a.b"] = Some false.
Proof. repeat split; reflexivity. Qed.

(** C1 (the code misses it).  The matcher is meant to read [**] as any number
    of directories, but it escapes every dot after it has turned [**] into
    [.*]: the expression built from [**/*.log] is [\.*/[^/]*\.log], where
    [**] stands for a run of dots.  So [logs/app.log], which the rule of the
    specification excludes under [**/*.log], is not excluded. *)
Theorem double_star_matches_only_dots :
  PathMatcher.regexPattern "**/*.log" = "\.*/[^/]*\.log" /\
  PathMatcher.shouldExclude "logs/app.log" ["**/*.log"] = Some false /\
  PathMatcher.spec_excludes "logs/app.log" ["**/*.log"] = true.
Proof. repeat split; reflexivity. Qed.

(** ** The restore guard *)

Lemma directoryExists_run dirPath w :
  FileSystem.directoryExists dirPath w =
  (Ok (match Fs.stat dirPath (fs w) with
       | inr n => Fs.node_isDirectory n
       | inl _ => false
       end), w).
Proof.
  unfold FileSystem.directoryExists, try_catch, bind, read_fs, ret.
  destruct (Fs.stat dirPath (fs w)); reflexivity.
Qed.

Lemma mkdir_on_file p : forall n content,
  Fs.stat_from p n = inr (Fs.File content) ->
  Fs.alter true Fs.mkdir_at p (Some n) = inl Fs.EEXIST.
Proof.
  induction p as [|s r IH]; intros n content H; simpl in *.
  - injection H as ->. reflexivity.
  - destruct n as [c|es|]; try discriminate.
    destruct (Fs.lookup s es) as [c|]; try discriminate.
    rewrite (IH _ _ H). reflexivity.
Qed.

(** C3.  When the destination exists as a directory, [restoreBackup] throws
    the destination-exists error and hands back the world it was given: no
    write, no notice, the destination as it was; with and without [dryRun]. *)
Theorem restore_guard fuel backupPath destination dryRun w es :
  Fs.stat destination (fs w) = inr (Fs.Dir es) ->
  restoreBackup fuel backupPath destination dryRun w =
  (Throw (Error (DestinationExists destination)), w).
Proof.
  intros Hdir. unfold restoreBackup, bind.
  rewrite directoryExists_run, Hdir. reflexivity.
Qed.

Lemma restore_guard_witness :
  restoreBackup 8 ["proj"] ["backups"] false sample_world =
  (Throw (Error (DestinationExists ["backups"])), sample_world).
Proof. apply (restore_guard 8 ["proj"] ["backups"] false sample_world []). reflexivity. Defined.

(** C9.  When the destination exists as a regular file the existence check
    answers false, so the guard does not fire and the restore goes on: a dry
    run announces the restore and returns; a real run reaches the creation
    of the destination, and it is [mkdir] that rejects there, with the code
    [EEXIST] of the file system, not with the destination-exists error. *)
Theorem restore_onto_regular_file fuel backupPath destination w content :
  Fs.stat destination (fs w) = inr (Fs.File content) ->
  FileSystem.directoryExists destination w = (Ok false, w) /\
  restoreBackup fuel backupPath destination true w =
    (Ok tt, logged LInfo (DryRunWouldRestore destination)
              (logged LInfo (RestoringBackup backupPath destination) w)) /\
  restoreBackup fuel backupPath destination false w =
    (Throw (SystemError Fs.EEXIST),
     logged LInfo (RestoringBackup backupPath destination) w).
Proof.
  intros Hfile.
  assert (Hmk : Fs.mkdir destination (fs w) = inl Fs.EEXIST).
  { unfold Fs.mkdir, Fs.change.
    rewrite (mkdir_on_file _ _ _ Hfile). reflexivity. }
  repeat split.
  - rewrite directoryExists_run, Hfile. reflexivity.
  - unfold restoreBackup, bind.
    rewrite directoryExists_run, Hfile. reflexivity.
  - unfold restoreBackup, bind.
    rewrite directoryExists_run, Hfile. simpl.
    unfold FileSystem.ensureDirectoryExists, FileSystem.copyDirectory,
      try_catch, bind, write_fs.
    cbn [fs logged]. rewrite Hmk. cbn. rewrite Hmk. reflexivity.
Qed.

Lemma restore_onto_regular_file_witness :
  restoreBackup 8 ["proj"] ["proj"; "a.txt"] false sample_world =
  (Throw (SystemError Fs.EEXIST),
   logged LInfo (RestoringBackup ["proj"] ["proj"; "a.txt"]) sample_world).
Proof.
  apply (restore_onto_regular_file 8 ["proj"] ["proj"; "a.txt"] sample_world "aaa").
  reflexivity.
Defined.

(** ** Remote targets *)

(** C8, as amended.  On a remote target [listBackups] warns and returns the
    empty list, and [createBackup] throws the remote-not-implemented error in
    the world it was given.  [restoreBackup] takes no target; the restore
    command fails on a remote target because the listing is empty, with the
    backup-not-found error, after the warning of the listing and without any
    write. *)
Theorem remote_target_outcomes localeCompare fuel name ssh tpath
    project timestamp backup dest configPath dryRun w :
  let target := RemoteBackupTarget name ssh tpath in
  listBackups localeCompare target (project_name project)
      (Some configPath) w =
    (Ok [], logged LWarn ListingRemoteNotImplemented w) /\
  createBackup fuel project target timestamp (Some configPath) dryRun w =
    (Throw (Error RemoteNotImplemented), w) /\
  Commands.restoreCommand localeCompare fuel project target backup dest dryRun
      configPath w =
    (Throw (Error (BackupNotFound backup (project_name project))),
     logged LWarn ListingRemoteNotImplemented w).
Proof. repeat split; reflexivity. Qed.

(** C8, as stated, fails for the restore: on a remote target the error of
    the restore command is not the remote-not-implemented error. *)
Lemma remote_restore_reports_not_found :
  fst (Commands.restoreCommand (fun _ _ => 0%Z) 8 sample_project sample_remote
         "2025-01-15T10-30-00Z" ["restored"] false (CPath true ["proj"])
         sample_world)
  = Throw (Error (BackupNotFound "2025-01-15T10-30-00Z" "proj")) /\
  fst (Commands.restoreCommand (fun _ _ => 0%Z) 8 sample_project sample_remote
         "2025-01-15T10-30-00Z" ["restored"] false (CPath true ["proj"])
         sample_world)
  <> Throw (Error RemoteNotImplemented).
Proof. split; [reflexivity | discriminate]. Qed.
(** ** Backup ids *)

Lemma prefix_single a b s : prefix (String a "") (String b s) = Ascii.eqb b a.
Proof.
  simpl. destruct (ascii_dec a b) as [->|Hne].
  - rewrite Ascii.eqb_refl. destruct s; reflexivity.
  - symmetry. apply Ascii.eqb_neq. congruence.
Qed.

Lemma replace_all_single a b s :
  JS.replace_all (String a "") (String b "") s =
  smap (fun c => if Ascii.eqb c a then b else c) s.
Proof.
  unfold JS.replace_all.
  induction s as [|c s IH]; [reflexivity|].
  cbn [JS.replace_from smap]. rewrite prefix_single.
  cbn [String.length Nat.sub]. rewrite IH.
  destruct (Ascii.eqb c a); reflexivity.
Qed.

Lemma digit_cases n :
  let c := JSDate.digit (n mod 10) in
  is_digit c = true /\ Ascii.eqb c "." = false /\ Ascii.eqb c ":" = false.
Proof.
  assert (H : (0 <= n mod 10 < 10)%Z) by (apply Z.mod_pos_bound; lia).
  assert (Hc : (n mod 10 = 0 \/ n mod 10 = 1 \/ n mod 10 = 2 \/ n mod 10 = 3 \/
                n mod 10 = 4 \/ n mod 10 = 5 \/ n mod 10 = 6 \/ n mod 10 = 7 \/
                n mod 10 = 8 \/ n mod 10 = 9)%Z) by lia.
  repeat destruct Hc as [Hc|Hc]; rewrite Hc; repeat split; reflexivity.
Qed.

Lemma is_digit_digit n : is_digit (JSDate.digit (n mod 10)) = true.
Proof. apply digit_cases. Qed.
Lemma digit_not_dot n : Ascii.eqb (JSDate.digit (n mod 10)) "." = false.
Proof. apply digit_cases. Qed.
Lemma digit_not_colon n : Ascii.eqb (JSDate.digit (n mod 10)) ":" = false.
Proof. apply digit_cases. Qed.


Ltac crunch_id :=
  repeat (progress (rewrite ?digit_not_dot, ?digit_not_colon, ?is_digit_digit;
                    cbn [JSDate.pad String.append JS.before_first smap fits
                         Ascii.eqb Bool.eqb andb])).

Lemma id_fields now :
  (0 <= JSDate.YearFromTime now <= 9999)%Z ->
  BackupPlan.generateBackupTimestamp now =
  id_of_fields (JSDate.YearFromTime now) (JSDate.MonthFromTime now) (JSDate.DateFromTime now)
    (JSDate.HourFromTime now) (JSDate.MinFromTime now) (JSDate.SecFromTime now).
Proof.
  intros Hy.
  unfold BackupPlan.generateBackupTimestamp, JSDate.toISOString, JSDate.iso_year, id_of_fields.
  replace ((0 <=? JSDate.YearFromTime now)%Z && (JSDate.YearFromTime now <=? 9999)%Z) with true
    by (symmetry; apply andb_true_iff; split; apply Z.leb_le; lia).
  rewrite replace_all_single.
  generalize (JSDate.YearFromTime now) (JSDate.MonthFromTime now) (JSDate.DateFromTime now)
    (JSDate.HourFromTime now) (JSDate.MinFromTime now) (JSDate.SecFromTime now) (JSDate.msFromTime now).
  intros y m d h mi s ms.
  crunch_id. reflexivity.
Qed.


Lemma id_of_fields_format y m d h mi s :
  is_timestamp (id_of_fields y m d h mi s) = true /\
  JS.includes ":" (id_of_fields y m d h mi s) = false.
Proof.
  unfold is_timestamp, id_of_fields. split.
  - crunch_id. reflexivity.
  - cbn [JSDate.pad String.append JS.includes].
    rewrite !prefix_single, !digit_not_colon. reflexivity.
Qed.

Lemma fields_ignore_ms now :
  let t := (1000 * (now / 1000))%Z in
  JSDate.YearFromTime t = JSDate.YearFromTime now /\
  JSDate.MonthFromTime t = JSDate.MonthFromTime now /\
  JSDate.DateFromTime t = JSDate.DateFromTime now /\
  JSDate.HourFromTime t = JSDate.HourFromTime now /\
  JSDate.MinFromTime t = JSDate.MinFromTime now /\
  JSDate.SecFromTime t = JSDate.SecFromTime now /\
  JSDate.msFromTime t = 0%Z.
Proof.
  intros t.
  assert (Hdiv : forall k, (0 < k)%Z -> (t / (1000 * k) = now / (1000 * k))%Z).
  { intros k Hk. unfold t.
    rewrite Z.div_mul_cancel_l by lia.
    rewrite <- Z.div_div by lia. reflexivity. }
  unfold JSDate.YearFromTime, JSDate.MonthFromTime, JSDate.DateFromTime,
    JSDate.HourFromTime, JSDate.MinFromTime, JSDate.SecFromTime, JSDate.msFromTime,
    JSDate.msPerDay.
  change 86400000%Z with (1000 * 86400)%Z.
  change 3600000%Z with (1000 * 3600)%Z.
  change 60000%Z with (1000 * 60)%Z.
  rewrite !Hdiv by lia.
  repeat split.
  - unfold t. rewrite Z.mul_comm, Z.div_mul by lia. reflexivity.
  - unfold t. rewrite Z.mul_comm. apply Z.mod_mul. lia.
Qed.

Lemma civil_bounds day :
  let '(y, m, d) := JSDate.civil day in
  (1 <= m <= 12 /\ 1 <= d <= 31)%Z.
Proof.
  unfold JSDate.civil.
  set (z := (day + 719468)%Z).
  set (era := (z / 146097)%Z).
  set (doe := (z - era * 146097)%Z).
  set (yoe := ((doe - doe / 1460 + doe / 36524 - doe / 146096) / 365)%Z).
  set (doy := (doe - (365 * yoe + yoe / 4 - yoe / 100))%Z).
  set (mp := ((5 * doy + 2) / 153)%Z).
  assert (Hdoe : (0 <= doe <= 146096)%Z) by (unfold doe, era; Z.to_euclidean_division_equations; lia).
  assert (Hyoe : (0 <= yoe <= 399)%Z) by (unfold yoe; Z.to_euclidean_division_equations; lia).
  assert (Hdoy : (0 <= doy <= 365)%Z).
  { unfold doy, yoe. clearbody doe. clear - Hdoe. Z.to_euclidean_division_equations. lia. }
  assert (Hmp : (0 <= mp <= 11)%Z) by (unfold mp; Z.to_euclidean_division_equations; lia).
  clearbody doy.
  destruct (mp <? 10)%Z eqn:E; [apply Z.ltb_lt in E | apply Z.ltb_ge in E];
  (split; [lia | unfold mp in *; Z.to_euclidean_division_equations; lia]).
Qed.

Lemma year_range now :
  (-62167219200000 <= now < 253402300800000)%Z ->
  (0 <= JSDate.YearFromTime now <= 9999)%Z.
Proof.
  intros H. unfold JSDate.YearFromTime, JSDate.msPerDay.
  assert (Hday : (-719528 <= now / 86400000 <= 2932896)%Z) by (Z.to_euclidean_division_equations; lia).
  generalize dependent (now / 86400000)%Z. clear. intros day Hday.
  unfold JSDate.civil. cbn [fst].
  set (z := (day + 719468)%Z).
  set (era := (z / 146097)%Z).
  set (doe := (z - era * 146097)%Z).
  set (yoe := ((doe - doe / 1460 + doe / 36524 - doe / 146096) / 365)%Z).
  set (doy := (doe - (365 * yoe + yoe / 4 - yoe / 100))%Z).
  set (mp := ((5 * doy + 2) / 153)%Z).
  assert (Hz : (-60 <= z <= 3652364)%Z) by (unfold z; lia).
  assert (Hera : (-1 <= era <= 24)%Z) by (unfold era; Z.to_euclidean_division_equations; lia).
  assert (Hdoe : (0 <= doe <= 146096)%Z) by (unfold doe, era; Z.to_euclidean_division_equations; lia).
  assert (Hyoe : (0 <= yoe <= 399)%Z) by (unfold yoe; Z.to_euclidean_division_equations; lia).
  assert (Hdoy : (0 <= doy <= 365)%Z).
  { unfold doy, yoe. clearbody doe. clear - Hdoe. Z.to_euclidean_division_equations. lia. }
  assert (Hmp : (0 <= mp <= 11)%Z) by (unfold mp; Z.to_euclidean_division_equations; lia).
  assert (Hlow : (era = -1 -> yoe = 399 /\ 10 <= mp)%Z).
  { intros He. assert (146037 <= doe)%Z by (unfold doe; lia).
    assert (yoe = 399)%Z by (unfold yoe; Z.to_euclidean_division_equations; lia).
    split; [assumption|].
    unfold mp, doy. Z.to_euclidean_division_equations. lia. }
  assert (Hhigh : (era = 24 -> yoe < 399 \/ mp < 10)%Z).
  { intros He. assert (doe <= 146036)%Z by (unfold doe; lia).
    destruct (Z.eq_dec yoe 399) as [Hy|Hy]; [right|left; lia].
    unfold mp, doy. Z.to_euclidean_division_equations. lia. }
  clearbody mp yoe era.
  destruct (mp <? 10)%Z eqn:E; [apply Z.ltb_lt in E | apply Z.ltb_ge in E].
  - assert (Hm : (mp + 3 <=? 2)%Z = false) by (apply Z.leb_gt; lia). rewrite Hm. cbv iota. lia.
  - assert (Hm : (mp - 9 <=? 2)%Z = true) by (apply Z.leb_le; lia). rewrite Hm. cbv iota. lia.
Qed.

(** Whatever the instant, the id holds no colon. *)
Lemma backup_id_no_colon now :
  JS.includes ":" (generateBackupTimestamp now) = false.
Proof.
  unfold generateBackupTimestamp. rewrite replace_all_single.
  generalize (JS.before_first "." (JSDate.toISOString now)). intros s.
  induction s as [|c s IH]; [reflexivity|].
  cbn [smap String.append JS.includes]. rewrite prefix_single.
  fold (String.append (smap (fun c => if Ascii.eqb c ":" then "-"%char else c) s) "Z").
  rewrite IH. rewrite orb_false_r.
  destruct (Ascii.eqb c ":") eqn:E; [reflexivity | exact E].
Qed.

(** C7, as amended.  The generated id holds no colon, whatever the instant.
    For an instant of the years 0000 to 9999 it spells the UTC fields of the
    instant as [YYYY-MM-DDTHH-mm-ssZ]: it has the fixed format, and it is the
    id of the instant cut to the whole second. *)
Theorem backup_id_format now :
  JS.includes ":" (generateBackupTimestamp now) = false /\
  ((-62167219200000 <= now < 253402300800000)%Z ->
   generateBackupTimestamp now =
     id_of_fields (JSDate.YearFromTime now) (JSDate.MonthFromTime now)
       (JSDate.DateFromTime now) (JSDate.HourFromTime now) (JSDate.MinFromTime now)
       (JSDate.SecFromTime now) /\
   is_timestamp (generateBackupTimestamp now) = true /\
   generateBackupTimestamp (1000 * (now / 1000)) = generateBackupTimestamp now).
Proof.
  split; [apply backup_id_no_colon|]. intros Hrange.
  pose proof (year_range now Hrange) as Hy.
  pose proof (fields_ignore_ms now) as (Ey & Emo & Ed & Eh & Emi & Es & _).
  cbv zeta in Ey, Emo, Ed, Eh, Emi, Es.
  rewrite (id_fields now Hy).
  split; [reflexivity|]. split; [apply id_of_fields_format|].
  rewrite id_fields by (rewrite Ey; exact Hy).
  rewrite Ey, Emo, Ed, Eh, Emi, Es. reflexivity.
Qed.

Lemma backup_id_format_witness :
  generateBackupTimestamp 1764917971153 = "2025-12-05T06-59-31Z" /\
  is_timestamp (generateBackupTimestamp 1764917971153) = true.
Proof.
  destruct (backup_id_format 1764917971153) as (_ & Hfmt).
  destruct Hfmt as (Hid & Hok & _); [lia|].
  split; [rewrite Hid; reflexivity | exact Hok].
Defined.

(** C7, as stated, fails outside the four-digit years, where the ISO text
    carries a sign and six digits of year: the first instant of the year
    10000. *)
Lemma backup_id_beyond_year_9999 :
  generateBackupTimestamp 253402300800000 = "+010000-01-01T00-00-00Z" /\
  is_timestamp (generateBackupTimestamp 253402300800000) = false.
Proof. split; reflexivity. Qed.
(** ** Listing the backups *)

Lemma ascii_compare_lt_trans a b c :
  Ascii.compare a b = Lt -> Ascii.compare b c = Lt -> Ascii.compare a c = Lt.
Proof.
  unfold Ascii.compare. rewrite !N.compare_lt_iff. lia.
Qed.

Lemma string_compare_refl s : String.compare s s = Eq.
Proof.
  induction s as [|c s IH]; simpl; [reflexivity|].
  unfold Ascii.compare. rewrite N.compare_refl. exact IH.
Qed.

Lemma string_compare_lt_trans a : forall b c,
  String.compare a b = Lt -> String.compare b c = Lt -> String.compare a c = Lt.
Proof.
  induction a as [|x a IH]; intros [|y b] [|z c]; simpl; try congruence.
  destruct (Ascii.compare x y) eqn:Exy; try discriminate;
  destruct (Ascii.compare y z) eqn:Eyz; try discriminate; intros Hab Hbc.
  - apply Ascii.compare_eq_iff in Exy, Eyz. subst.
    unfold Ascii.compare. rewrite N.compare_refl. eauto.
  - apply Ascii.compare_eq_iff in Exy. subst. rewrite Eyz. reflexivity.
  - apply Ascii.compare_eq_iff in Eyz. subst. rewrite Exy. reflexivity.
  - rewrite (ascii_compare_lt_trans _ _ _ Exy Eyz). reflexivity.
Qed.

Lemma ltb_false_ge a b : String.ltb a b = false -> id_ge a b.
Proof.
  unfold String.ltb, id_ge, String.leb. rewrite (String.compare_antisym b a).
  destruct (String.compare a b); simpl; congruence.
Qed.

Lemma ltb_true_ge a b : String.ltb a b = true -> id_ge b a.
Proof.
  unfold String.ltb, id_ge, String.leb.
  destruct (String.compare a b); simpl; congruence.
Qed.

Lemma id_ge_trans a b c : id_ge a b -> id_ge b c -> id_ge a c.
Proof.
  unfold id_ge, String.leb. intros Hab Hbc.
  destruct (String.compare c a) eqn:Eca; try reflexivity. exfalso.
  (* c > a: then with b <= a ... *)
  rewrite String.compare_antisym in Eca.
  destruct (String.compare a c) eqn:Eac; try discriminate. clear Eca.
  destruct (String.compare b a) eqn:Eba; try discriminate.
  - apply String.compare_eq_iff in Eba. subst b.
    rewrite String.compare_antisym, Eac in Hbc. discriminate.
  - destruct (String.compare c b) eqn:Ecb; try discriminate.
    + apply String.compare_eq_iff in Ecb. subst c.
      rewrite String.compare_antisym, Eba in Eac. discriminate.
    + pose proof (string_compare_lt_trans _ _ _ Ecb Eba) as Hca.
      rewrite String.compare_antisym, Eac in Hca. discriminate.
Qed.

Section SortFacts.
Context {A : Type}.
Variable compareFn : A -> A -> Z.
Variable key : A -> string.
Variable valid : A -> Prop.
(** On valid elements the comparator puts the greater key first. *)
Hypothesis compareFn_key :
  forall a b, valid a -> valid b ->
    (compareFn a b <? 0)%Z = String.ltb (key b) (key a).

Let key_ge (a b : A) : Prop := id_ge (key a) (key b).

Lemma insert_perm x l : Permutation (JSArray.insert compareFn x l) (x :: l).
Proof.
  induction l as [|y r IH]; simpl; [reflexivity|].
  destruct (compareFn y x <? 0)%Z; [|reflexivity].
  rewrite IH. apply perm_swap.
Qed.

Lemma sort_perm l : Permutation (JSArray.sort compareFn l) l.
Proof.
  induction l as [|x r IH]; simpl; [reflexivity|].
  rewrite insert_perm. constructor. exact IH.
Qed.

Lemma insert_sorted x l :
  valid x -> Forall valid l -> StronglySorted key_ge l ->
  StronglySorted key_ge (JSArray.insert compareFn x l).
Proof.
  intros Hx Hl Hs. induction Hs as [|y r Hr IH Hy]; simpl.
  - repeat constructor.
  - inversion Hl as [|? ? Hvy Hvr]; subst.
    rewrite (compareFn_key y x Hvy Hx).
    destruct (String.ltb (key x) (key y)) eqn:E.
    + constructor; [apply IH; assumption|].
      eapply Permutation_Forall.
      * symmetry. apply insert_perm.
      * constructor; [apply ltb_true_ge; exact E | exact Hy].
    + constructor; [constructor; assumption|].
      constructor; [apply ltb_false_ge; exact E|].
      eapply Forall_impl; [|exact Hy]. intros z Hz.
      eapply id_ge_trans; [apply ltb_false_ge; exact E | exact Hz].
Qed.

Lemma sort_valid l : Forall valid l -> Forall valid (JSArray.sort compareFn l).
Proof.
  intros H. eapply Permutation_Forall; [symmetry; apply sort_perm | exact H].
Qed.

Lemma sort_sorted l :
  Forall valid l -> StronglySorted key_ge (JSArray.sort compareFn l).
Proof.
  induction l as [|x r IH]; intros H; simpl; [constructor|].
  inversion H; subst. apply insert_sorted; auto using sort_valid.
Qed.

Lemma insert_filter q x l :
  valid x -> Forall valid l -> StronglySorted key_ge l -> q x = true ->
  filter q (JSArray.insert compareFn x l) = JSArray.insert compareFn x (filter q l).
Proof.
  intros Hx Hl Hs Hq. induction Hs as [|y r Hr IH Hy]; simpl.
  - rewrite Hq. reflexivity.
  - inversion Hl as [|? ? Hvy Hvr]; subst.
    destruct (compareFn y x <? 0)%Z eqn:E; simpl.
    + destruct (q y); simpl; rewrite ?E, IH; auto.
    + rewrite Hq. destruct (q y); simpl; [rewrite E; reflexivity|].
      (* x goes in front of whatever remains of r *)
      f_equal.
      assert (Hfront : Forall (fun z => (compareFn z x <? 0)%Z = false) (filter q r)).
      { apply Forall_forall. intros z Hz. apply filter_In in Hz as [Hz _].
        rewrite Forall_forall in Hy, Hvr.
        rewrite (compareFn_key z x (Hvr z Hz) Hx).
        rewrite (compareFn_key y x Hvy Hx) in E.
        apply ltb_false_ge in E. specialize (Hy z Hz).
        pose proof (id_ge_trans _ _ _ E Hy) as Hxz.
        unfold id_ge, String.leb in Hxz. unfold String.ltb.
        destruct (String.compare (key x) (key z)) eqn:C; try reflexivity.
        rewrite String.compare_antisym, C in Hxz. discriminate. }
      destruct (filter q r) as [|z r']; [reflexivity|].
      inversion Hfront; subst. simpl. rewrite H1. reflexivity.
Qed.

Lemma insert_filter_out q x l :
  q x = false ->
  filter q (JSArray.insert compareFn x l) = filter q l.
Proof.
  intros Hq. induction l as [|y r IH]; simpl.
  - rewrite Hq. reflexivity.
  - destruct (compareFn y x <? 0)%Z; simpl.
    + rewrite IH. reflexivity.
    + rewrite Hq. reflexivity.
Qed.

Lemma sort_filter q l :
  Forall valid l ->
  JSArray.sort compareFn (filter q l) = filter q (JSArray.sort compareFn l).
Proof.
  induction l as [|x r IH]; intros H; simpl; [reflexivity|].
  inversion H; subst.
  destruct (q x) eqn:Hq; simpl.
  - rewrite insert_filter; auto using sort_valid, sort_sorted. rewrite IH; auto.
  - rewrite insert_filter_out; auto.
Qed.
End SortFacts.

Lemma collect_backups dir project entries : forall acc w,
  for_of entries
    (fun entry backups =>
       if Fs.isDirectory entry
       then ret (backups ++ [MkBackupInfo (Fs.name entry) (join dir [Fs.name entry]) project])
       else ret backups) acc w
  = (Ok (acc ++ backups_of dir project entries), w).
Proof.
  unfold backups_of.
  induction entries as [|e r IH]; intros acc w; simpl.
  - rewrite app_nil_r. reflexivity.
  - unfold bind. destruct (Fs.isDirectory e); simpl; rewrite IH.
    + rewrite <- app_assoc. reflexivity.
    + reflexivity.
Qed.

Lemma listBackups_local localeCompare name tpath project configPath w :
  listBackups localeCompare (LocalBackupTarget name tpath) project configPath w =
  match Fs.readdir (projectBackupDir (cwd w) tpath project configPath) (fs w) with
  | inr entries =>
      (Ok (JSArray.sort (newest_first localeCompare)
             (backups_of (projectBackupDir (cwd w) tpath project configPath)
                project entries)), w)
  | inl Fs.ENOENT => (Ok [], w)
  | inl c => (Throw (Error (FailedToList (Some c))), w)
  end.
Proof.
  unfold listBackups, bind, get_cwd, try_catch, read_fs. simpl.
  destruct (Fs.readdir _ (fs w)) as [c|entries].
  - destruct c; reflexivity.
  - rewrite collect_backups. reflexivity.
Qed.

Lemma backups_of_valid dir project entries :
  ids_valid entries ->
  Forall (fun b => is_timestamp (timestamp b) = true) (backups_of dir project entries).
Proof.
  unfold ids_valid, backups_of. intros H.
  apply Forall_forall. intros b Hb.
  apply in_map_iff in Hb as (e & <- & He).
  apply filter_In in He as [He Hd].
  rewrite Forall_forall in H. simpl. auto.
Qed.

Lemma newest_first_key localeCompare :
  locale_agrees localeCompare ->
  forall a b, is_timestamp (timestamp a) = true -> is_timestamp (timestamp b) = true ->
    (newest_first localeCompare a b <? 0)%Z = String.ltb (timestamp b) (timestamp a).
Proof. intros H a b Ha Hb. unfold newest_first. apply H; assumption. Qed.

Lemma readdir_missing dir root :
  Fs.stat dir root = inl Fs.ENOENT -> Fs.readdir dir root = inl Fs.ENOENT.
Proof. unfold Fs.stat, Fs.readdir. intros ->. reflexivity. Qed.


Lemma code_unit_agrees : locale_agrees code_unit_compare.
Proof.
  intros a b _ _. unfold code_unit_compare, String.ltb.
  destruct (String.compare a b); reflexivity.
Qed.

Lemma sample_listing_valid : ids_valid sample_listing.
Proof.
  unfold ids_valid, sample_listing.
  repeat constructor; intros H; solve [reflexivity | discriminate H].
Qed.

(** ** Retention *)

Lemma lookup_put_same s n es : Fs.lookup s (Fs.put s n es) = Some n.
Proof.
  induction es as [|[k m] r IH]; simpl.
  - rewrite String.eqb_refl. reflexivity.
  - destruct (String.eqb k s) eqn:E; simpl; rewrite E; auto.
Qed.

Lemma rm_child dir name : forall root es,
  Fs.stat_from dir root = inr (Fs.Dir es) ->
  exists root',
    Fs.alter false (fun _ => inr None) (dir ++ [name]) (Some root) = inr (Some root') /\
    Fs.stat_from dir root' = inr (Fs.Dir (Fs.remove name es)).
Proof.
  induction dir as [|s r IH]; intros root es H; simpl in *.
  - injection H as ->. eexists. split; reflexivity.
  - destruct root as [c|es0|]; try discriminate.
    destruct (Fs.lookup s es0) as [c|] eqn:El; try discriminate.
    destruct (IH _ _ H) as (c' & Halter & Hstat).
    rewrite Halter. eexists. split; [reflexivity|].
    simpl. rewrite lookup_put_same. exact Hstat.
Qed.

Lemma rm_listed dir name root es :
  Fs.stat_from dir root = inr (Fs.Dir es) ->
  exists root',
    Fs.rm (dir ++ [name]) root = inr root' /\
    Fs.stat_from dir root' = inr (Fs.Dir (Fs.remove name es)).
Proof.
  intros H. destruct (rm_child dir name root es H) as (root' & Ha & Hs).
  exists root'. split; [|exact Hs]. unfold Fs.rm, Fs.change. rewrite Ha. reflexivity.
Qed.

Lemma removed_listed dir name root es :
  Fs.stat_from dir root = inr (Fs.Dir es) ->
  Fs.rm (dir ++ [name]) root = inr (removed (dir ++ [name]) root) /\
  Fs.stat_from dir (removed (dir ++ [name]) root) = inr (Fs.Dir (Fs.remove name es)).
Proof.
  intros H. destruct (rm_listed dir name root es H) as (root' & Hrm & Hs).
  unfold removed. rewrite Hrm. split; [reflexivity | exact Hs].
Qed.

Lemma readdir_rm dir name root entries :
  Fs.readdir dir root = inr entries ->
  Fs.readdir dir (removed (dir ++ [name]) root) =
  inr (filter (fun e => negb (String.eqb (Fs.name e) name)) entries).
Proof.
  unfold Fs.readdir. intros H.
  destruct (Fs.stat_from dir root) as [c|[c|es|]] eqn:Es; try discriminate.
  injection H as <-.
  destruct (removed_listed dir name root es Es) as [_ ->].
  f_equal. unfold Fs.remove. clear.
  induction es as [|[k n] r IH]; simpl; [reflexivity|].
  destruct (String.eqb k name); simpl; rewrite IH; reflexivity.
Qed.

Lemma retention_loop dir dryRun excess : forall acc w,
  holds_directory dir (fs w) ->
  Forall (fun b => backup_path b = join dir [timestamp b]) excess ->
  for_of excess
    (fun backup toRemove =>
       let toRemove := toRemove ++ [backup_path backup] in
       if negb dryRun then
         (FileSystem.removeDirectory (backup_path backup) false ;;;
          emit LInfo (RemovedOldBackup (timestamp backup)) ;;;
          ret toRemove)%async
       else
         (emit LInfo (DryRunWouldRemoveOldBackup (timestamp backup)) ;;;
          ret toRemove)%async)
    acc w
  = (Ok (acc ++ map backup_path excess), after_retention dryRun excess w).
Proof.
  induction excess as [|b r IH]; intros acc w Hdir Hpaths; simpl.
  - rewrite app_nil_r. reflexivity.
  - inversion Hpaths as [|? ? Hb Hr]; subst.
    unfold bind at 1. destruct dryRun; simpl.
    + unfold bind at 1. simpl. rewrite IH by assumption.
      rewrite <- app_assoc. reflexivity.
    + destruct Hdir as [es Hes]. unfold Fs.stat in Hes.
      destruct (removed_listed dir (timestamp b) (fs w) es Hes) as [Hrm Hafter].
      unfold join in Hb.
      unfold bind at 1, FileSystem.removeDirectory, write_fs. rewrite Hb, Hrm. simpl.
      rewrite IH; [rewrite <- app_assoc; reflexivity | | exact Hr].
      exists (Fs.remove (timestamp b) es). exact Hafter.
Qed.

Lemma after_retention_cwd dryRun excess : forall w,
  cwd (after_retention dryRun excess w) = cwd w.
Proof.
  unfold after_retention.
  induction excess as [|b r IH]; intros w; simpl; [reflexivity|].
  rewrite IH. destruct dryRun; reflexivity.
Qed.

Lemma after_retention_dry excess : forall w,
  fs (after_retention true excess w) = fs w.
Proof.
  unfold after_retention.
  induction excess as [|b r IH]; intros w; simpl; [reflexivity|].
  rewrite IH. reflexivity.
Qed.

Lemma after_retention_readdir dir excess : forall w entries,
  Forall (fun b => backup_path b = join dir [timestamp b]) excess ->
  Fs.readdir dir (fs w) = inr entries ->
  Fs.readdir dir (fs (after_retention false excess w)) =
  inr (filter (fun e => negb (id_in (map timestamp excess) (Fs.name e))) entries).
Proof.
  unfold after_retention.
  induction excess as [|b r IH]; intros w entries Hp Hread; simpl.
  - rewrite Hread. f_equal. symmetry. apply forallb_filter_id.
    apply forallb_forall. reflexivity.
  - inversion Hp as [|? ? Hb Hr]; subst.
    rewrite (IH _ (filter (fun e => negb (String.eqb (Fs.name e) (timestamp b))) entries) Hr).
    + f_equal. clear. induction entries as [|e es IHe]; simpl; [reflexivity|].
      destruct (String.eqb (Fs.name e) (timestamp b)) eqn:E; simpl.
      * exact IHe.
      * rewrite IHe. reflexivity.
    + simpl. rewrite Hb. apply readdir_rm. exact Hread.
Qed.

Lemma readdir_holds_directory dir root entries :
  Fs.readdir dir root = inr entries -> holds_directory dir root.
Proof.
  unfold Fs.readdir, holds_directory, Fs.stat.
  destruct (Fs.stat_from dir root) as [c|[c|es|]]; try discriminate. eauto.
Qed.

Lemma backups_of_paths dir project entries :
  Forall (fun b => backup_path b = join dir [timestamp b]) (backups_of dir project entries).
Proof.
  apply Forall_forall. intros b Hb. unfold backups_of in Hb.
  apply in_map_iff in Hb as (e & <- & _). reflexivity.
Qed.

Lemma Forall_perm_skipn {A} (P : A -> Prop) n (sorted l : list A) :
  Permutation sorted l -> Forall P l -> Forall P (skipn n sorted).
Proof.
  intros Hperm Hl. apply Forall_forall. intros x Hx.
  rewrite Forall_forall in Hl. apply Hl.
  eapply Permutation_in; [exact Hperm|].
  rewrite <- (firstn_skipn n sorted). apply in_or_app. right. exact Hx.
Qed.

Lemma sorted_app_ge {A} (R : A -> A -> Prop) l1 : forall l2,
  StronglySorted R (l1 ++ l2) ->
  forall a b, In a l1 -> In b l2 -> R a b.
Proof.
  induction l1 as [|x l1 IH]; intros l2 Hs a b Ha Hb; [destruct Ha|].
  simpl in Hs. inversion Hs as [|? ? Hs' Hx]; subst.
  destruct Ha as [<-|Ha].
  - rewrite Forall_forall in Hx. apply Hx. apply in_or_app. right. exact Hb.
  - eapply IH; eauto.
Qed.

Lemma id_in_spec ids id : id_in ids id = true <-> In id ids.
Proof.
  unfold id_in. rewrite existsb_exists. split.
  - intros (x & Hx & E). apply String.eqb_eq in E. subst. exact Hx.
  - intros H. exists id. split; [exact H | apply String.eqb_refl].
Qed.

Lemma NoDup_app_disjoint {A} (l1 l2 : list A) :
  NoDup (l1 ++ l2) -> forall a, In a l1 -> ~ In a l2.
Proof.
  induction l1 as [|x l1 IH]; intros H a Ha; [destruct Ha|].
  simpl in H. inversion H as [|? ? Hx Hr]; subst.
  destruct Ha as [<-|Ha].
  - intros Hin. apply Hx. apply in_or_app. right. exact Hin.
  - apply IH; assumption.
Qed.

Lemma filter_keeps_front {A} (key : A -> string) l1 l2 :
  NoDup (map key (l1 ++ l2)) ->
  filter (fun b => negb (id_in (map key l2) (key b))) (l1 ++ l2) = l1.
Proof.
  intros Hnd. rewrite filter_app.
  assert (H1 : filter (fun b => negb (id_in (map key l2) (key b))) l1 = l1).
  { apply forallb_filter_id. apply forallb_forall. intros x Hx.
    destruct (id_in (map key l2) (key x)) eqn:E; [|reflexivity]. exfalso.
    apply id_in_spec in E. rewrite map_app in Hnd.
    apply (NoDup_app_disjoint _ _ Hnd (key x)); [apply in_map; exact Hx | exact E]. }
  assert (H2 : filter (fun b => negb (id_in (map key l2) (key b))) l2 = []).
  { clear. generalize (map key l2) (in_map key l2). intros ids Hin.
    induction l2 as [|x r IH]; simpl; [reflexivity|].
    assert (E : id_in ids (key x) = true) by (apply id_in_spec, Hin; left; reflexivity).
    rewrite E. simpl. apply IH. intros y Hy. apply Hin. right. exact Hy. }
  rewrite H1, H2. apply app_nil_r.
Qed.

Lemma backups_of_filter dir project q entries :
  backups_of dir project (filter (fun e => q (Fs.name e)) entries) =
  filter (fun b => q (timestamp b)) (backups_of dir project entries).
Proof.
  unfold backups_of.
  induction entries as [|e r IH]; simpl; [reflexivity|].
  destruct (q (Fs.name e)) eqn:Eq, (Fs.isDirectory e) eqn:Ed; simpl;
    rewrite ?Ed, ?Eq; simpl; rewrite ?IH; reflexivity.
Qed.

Lemma backups_of_ids dir project entries :
  map timestamp (backups_of dir project entries) =
  map Fs.name (filter Fs.isDirectory entries).
Proof. unfold backups_of. rewrite map_map. reflexivity. Qed.

Lemma NoDup_map_filter {A B} (f : A -> B) q l :
  NoDup (map f l) -> NoDup (map f (filter q l)).
Proof.
  induction l as [|x r IH]; simpl; intros H; [constructor|].
  inversion H as [|? ? Hx Hr]; subst.
  destruct (q x); simpl; auto. constructor; auto.
  intros Hin. apply Hx. apply in_map_iff in Hin as (y & E & Hy).
  apply filter_In in Hy as [Hy _]. apply in_map_iff. eauto.
Qed.

Lemma slice_skipn {A} (start : Z) (a : list A) :
  (0 <= start)%Z -> JSArray.slice start a = skipn (Z.to_nat start) a.
Proof.
  intros H. unfold JSArray.slice.
  destruct (start <? 0)%Z eqn:E; [apply Z.ltb_lt in E; lia | reflexivity].
Qed.

Lemma retention_exact_listing localeCompare name tpath project configPath
    maxBackups dryRun w entries :
  locale_agrees localeCompare ->
  let target := LocalBackupTarget name tpath in
  let dir := projectBackupDir (cwd w) tpath project configPath in
  let m := Z.to_nat maxBackups in
  (0 <= maxBackups)%Z ->
  Fs.readdir dir (fs w) = inr entries ->
  NoDup (map Fs.name entries) ->
  ids_valid entries ->
  exists backups w',
    listBackups localeCompare target project configPath w = (Ok backups, w) /\
    applyRetention localeCompare target project maxBackups configPath dryRun w =
      (Ok (map backup_path (skipn m backups)), w') /\
    length (skipn m backups) = length backups - m /\
    (forall k r, In k (firstn m backups) -> In r (skipn m backups) ->
                 id_ge (timestamp k) (timestamp r)) /\
    (length backups <= m -> w' = w) /\
    (if dryRun then fs w' = fs w
     else listBackups localeCompare target project configPath w' =
          (Ok (firstn m backups), w')).
Proof.
  intros Hloc target dir m Hm Hread Hnd Hvalid.
  set (backups := JSArray.sort (newest_first localeCompare) (backups_of dir project entries)).
  assert (Hlist : listBackups localeCompare target project configPath w = (Ok backups, w)).
  { unfold target. rewrite listBackups_local. fold dir. rewrite Hread. reflexivity. }
  assert (Hbv : Forall (fun b => is_timestamp (timestamp b) = true)
                  (backups_of dir project entries))
    by (apply backups_of_valid; exact Hvalid).
  assert (Hsorted : StronglySorted (fun a b => id_ge (timestamp a) (timestamp b)) backups).
  { apply (sort_sorted (newest_first localeCompare) timestamp
             (fun b => is_timestamp (timestamp b) = true)
             (newest_first_key _ Hloc) _ Hbv). }
  assert (Hperm : Permutation backups (backups_of dir project entries))
    by apply sort_perm.
  exists backups, (after_retention dryRun (skipn m backups) w).
  split; [exact Hlist|]. split; [|split; [|split; [|split]]].
  - unfold applyRetention, target. fold target. unfold bind at 1. rewrite Hlist.
    destruct (Z.of_nat (length backups) >? maxBackups)%Z eqn:E.
    + rewrite slice_skipn by exact Hm. fold m. apply (retention_loop dir).
      * eapply readdir_holds_directory, Hread.
      * eapply Forall_perm_skipn; [exact Hperm | apply backups_of_paths].
    + assert (Hle : length backups <= m) by (unfold m; lia).
      rewrite (skipn_all2 _ Hle). reflexivity.
  - rewrite length_skipn. reflexivity.
  - intros k r Hk Hr.
    apply (sorted_app_ge (fun a b => id_ge (timestamp a) (timestamp b))
             (firstn m backups) (skipn m backups)); auto.
    rewrite firstn_skipn. exact Hsorted.
  - intros Hle. rewrite (skipn_all2 _ Hle). reflexivity.
  - destruct dryRun.
    + apply after_retention_dry.
    + unfold target. rewrite listBackups_local. rewrite after_retention_cwd. fold dir.
      assert (Hpaths : Forall (fun b => backup_path b = join dir [timestamp b])
                         (skipn m backups)).
      { eapply Forall_perm_skipn; [exact Hperm | apply backups_of_paths]. }
      rewrite (after_retention_readdir dir _ w entries Hpaths Hread).
      f_equal. f_equal.
      rewrite (backups_of_filter dir project
                 (fun id => negb (id_in (map timestamp (skipn m backups)) id))).
      rewrite (sort_filter (newest_first localeCompare) timestamp
                 (fun b => is_timestamp (timestamp b) = true)
                 (newest_first_key _ Hloc) _ _ Hbv).
      fold backups.
      transitivity
        (filter (fun b => negb (id_in (map timestamp (skipn m backups)) (timestamp b)))
                (firstn m backups ++ skipn m backups));
        [rewrite firstn_skipn; reflexivity|].
      apply filter_keeps_front. rewrite firstn_skipn.
      eapply Permutation_NoDup.
      * apply Permutation_map. symmetry. exact Hperm.
      * rewrite backups_of_ids. apply NoDup_map_filter. exact Hnd.
Qed.

Lemma sample_listing_distinct : NoDup (map Fs.name sample_listing).
Proof.
  unfold sample_listing. simpl.
  repeat constructor; simpl; intuition discriminate.
Qed.
(** ** The copy *)

Lemma lookup_put_other s t n es :
  String.eqb s t = false -> Fs.lookup t (Fs.put s n es) = Fs.lookup t es.
Proof.
  intros Hne. induction es as [|[k m] r IH]; simpl.
  - rewrite Hne. reflexivity.
  - destruct (String.eqb k s) eqn:Eks; simpl.
    + apply String.eqb_eq in Eks. subst k. rewrite Hne. reflexivity.
    + destruct (String.eqb k t); [reflexivity | exact IH].
Qed.

Lemma lookup_remove_other s t es :
  String.eqb s t = false -> Fs.lookup t (Fs.remove s es) = Fs.lookup t es.
Proof.
  intros Hne. unfold Fs.remove. induction es as [|[k m] r IH]; simpl; [reflexivity|].
  destruct (String.eqb k s) eqn:Eks; simpl.
  - apply String.eqb_eq in Eks. subst k. rewrite Hne. exact IH.
  - destruct (String.eqb k t); [reflexivity | exact IH].
Qed.

Lemma lookup_set_other s t o es :
  String.eqb s t = false -> Fs.lookup t (Fs.set_entry s o es) = Fs.lookup t es.
Proof.
  destruct o; simpl; [apply lookup_put_other | apply lookup_remove_other].
Qed.

Lemma separate_cons s t p q :
  separate (s :: p) (t :: q) -> String.eqb s t = false \/ (s = t /\ separate p q).
Proof.
  unfold separate. simpl. intros [H1 H2].
  destruct (String.eqb s t) eqn:E; [right | left; reflexivity].
  apply String.eqb_eq in E. subst t. rewrite String.eqb_refl in H2.
  simpl in *. auto.
Qed.

Lemma stat_opt_cons s q es :
  stat_opt (s :: q) (Some (Fs.Dir es)) = stat_opt q (Fs.lookup s es).
Proof.
  simpl. destruct (Fs.lookup s es); reflexivity.
Qed.

Lemma stat_fresh_chain parents f p : forall q o',
  Fs.alter parents f p None = inr o' ->
  separate p q ->
  stat_opt q o' = inl Fs.ENOENT.
Proof.
  induction p as [|s p IH]; intros q o' Halter Hsep.
  - destruct Hsep as [H _]. discriminate H.
  - destruct q as [|t q]; [destruct Hsep as [_ H]; discriminate H|].
    simpl in Halter. destruct parents; [|discriminate].
    destruct (Fs.alter true f p None) as [e|o1] eqn:E1; [discriminate|].
    injection Halter as <-.
    rewrite stat_opt_cons.
    destruct (separate_cons _ _ _ _ Hsep) as [Hne|[<- Hsep']].
    + rewrite lookup_set_other by exact Hne. reflexivity.
    + destruct o1 as [n1|]; simpl.
      * rewrite String.eqb_refl. eapply IH; eauto.
      * reflexivity.
Qed.

Lemma alter_frame parents f p : forall q o o',
  Fs.alter parents f p o = inr o' ->
  separate p q ->
  stat_opt q o' = stat_opt q o.
Proof.
  induction p as [|s p IH]; intros q o o' Halter Hsep.
  - destruct Hsep as [H _]. discriminate H.
  - destruct q as [|t q]; [destruct Hsep as [_ H]; discriminate H|].
    destruct o as [[c|es|]|]; simpl in Halter; try discriminate.
    + destruct (Fs.alter parents f p (Fs.lookup s es)) as [e|o1] eqn:E1; [discriminate|].
      injection Halter as <-.
      rewrite !stat_opt_cons.
      destruct (separate_cons _ _ _ _ Hsep) as [Hne|[<- Hsep']].
      * rewrite lookup_set_other by exact Hne. reflexivity.
      * rewrite <- (IH q _ _ E1 Hsep').
        destruct o1 as [n1|]; simpl.
        -- rewrite lookup_put_same. reflexivity.
        -- unfold Fs.remove. clear.
           induction es as [|[k m] r IHr]; simpl; [reflexivity|].
           destruct (String.eqb k s) eqn:E; simpl; [exact IHr|].
           rewrite E. exact IHr.
    + apply (stat_fresh_chain parents f (s :: p) (t :: q) o' Halter Hsep).
Qed.

Lemma change_frame parents f p q root root' :
  Fs.change parents f p root = inr root' ->
  separate p q ->
  Fs.stat q root' = Fs.stat q root.
Proof.
  unfold Fs.change, Fs.stat. intros H Hsep.
  destruct (Fs.alter parents f p (Some root)) as [e|[r|]] eqn:E; try discriminate.
  injection H as <-.
  apply (alter_frame parents f p q (Some root) (Some r) E Hsep).
Qed.

Lemma separate_sym p q : separate p q -> separate q p.
Proof. unfold separate. tauto. Qed.

Lemma is_prefix_app p r : is_prefix p (p ++ r) = true.
Proof. induction p as [|s p IH]; simpl; [reflexivity|]. rewrite String.eqb_refl. exact IH. Qed.

Lemma is_prefix_refl p : is_prefix p p = true.
Proof. rewrite <- (app_nil_r p) at 2. apply is_prefix_app. Qed.

Lemma is_prefix_split p : forall q, is_prefix p q = true -> exists r, q = p ++ r.
Proof.
  induction p as [|s p IH]; intros q H.
  - exists q. reflexivity.
  - destruct q as [|t q]; [discriminate|]. simpl in H.
    apply andb_true_iff in H as [E H]. apply String.eqb_eq in E. subst t.
    destruct (IH q H) as [r ->]. exists r. reflexivity.
Qed.

Lemma separate_app_l d x : forall q, separate d q -> separate (d ++ x) q.
Proof.
  induction d as [|s d IH]; intros q Hs.
  - destruct Hs as [H _]. discriminate H.
  - destruct q as [|t q]; [destruct Hs as [_ H]; discriminate H|].
    destruct (separate_cons _ _ _ _ Hs) as [Hne|[<- Hs']].
    + unfold separate. simpl. rewrite Hne.
      rewrite String.eqb_sym, Hne. split; reflexivity.
    + specialize (IH q Hs'). unfold separate in *. simpl.
      rewrite String.eqb_refl. simpl. exact IH.
Qed.

Lemma separate_app_r d q x : separate d q -> separate d (q ++ x).
Proof. intros H. apply separate_sym, separate_app_l, separate_sym, H. Qed.

Lemma separate_below source dest q :
  separate source dest -> is_prefix source q = true -> separate dest q.
Proof.
  intros Hs Hq. destruct (is_prefix_split _ _ Hq) as [r ->].
  apply separate_sym, separate_app_l, Hs.
Qed.

Lemma dry_for_of {A} (xs : list A) (body : A -> CopyStats -> M CopyStats) :
  (forall x, dry_step (body x)) -> dry_step (for_of xs body).
Proof.
  intros Hbody. induction xs as [|x r IH]; intros stats w; simpl.
  - split; [reflexivity|]. intros stats' [= <-]. split; reflexivity.
  - unfold bind. destruct (Hbody x stats w) as [Hfs Hst].
    destruct (body x stats w) as [[s1|e|why] w1]; simpl in *.
    + destruct (IH s1 w1) as [Hfs' Hst']. split; [congruence|].
      intros stats' H. destruct (Hst' stats' H) as [-> ->]. apply Hst. reflexivity.
    + split; [exact Hfs | discriminate].
    + split; [exact Hfs | discriminate].
Qed.

Lemma shouldExclude_run relativePath pats w :
  FileSystem.shouldExclude relativePath pats w =
  match PathMatcher.shouldExclude relativePath pats with
  | Some b => (Ok b, w)
  | None => (Stuck RegExpOutsideFragment, w)
  end.
Proof.
  unfold FileSystem.shouldExclude.
  destruct (PathMatcher.shouldExclude relativePath pats); reflexivity.
Qed.

Lemma dry_copyEntry recurse source destination rootSource pats entry :
  (forall s d, dry_step (recurse s d)) ->
  dry_step (copyEntry recurse source destination rootSource pats true entry).
Proof.
  intros Hrec stats w. unfold copyEntry, bind. rewrite shouldExclude_run.
  destruct (PathMatcher.shouldExclude _ pats) as [[|]|]; simpl.
  - split; [reflexivity|]. intros stats' [= <-]. split; reflexivity.
  - destruct (Fs.isDirectory entry); [apply Hrec|].
    destruct (Fs.isFile entry); simpl.
    + split; [reflexivity|]. intros stats' [= <-]. split; reflexivity.
    + split; [reflexivity|]. intros stats' [= <-]. split; reflexivity.
  - split; [reflexivity | discriminate].
Qed.

Lemma dry_copyDirectoryRecursive fuel : forall source destination rootSource pats,
  dry_step (fun stats =>
              copyDirectoryRecursive fuel source destination rootSource pats stats true).
Proof.
  induction fuel as [|fuel IH]; intros source destination rootSource pats stats w.
  - simpl. split; [reflexivity | discriminate].
  - simpl. unfold bind, read_fs.
    destruct (Fs.readdir source (fs w)) as [e|entries]; simpl.
    + split; [reflexivity | discriminate].
    + apply (dry_for_of entries). intros entry.
      apply dry_copyEntry. intros s d. apply IH.
Qed.

Lemma is_prefix_app_l p x : forall q,
  is_prefix (p ++ x) q = true -> is_prefix p q = true.
Proof.
  induction p as [|s p IH]; intros q H; [reflexivity|].
  destruct q as [|t q]; [discriminate|]. simpl in *.
  apply andb_true_iff in H as [E H]. rewrite E. simpl. apply IH. exact H.
Qed.

Lemma agree_after_writes source dest before after other :
  separate source dest ->
  unchanged_outside dest before after ->
  agree_below source before other ->
  agree_below source after other.
Proof.
  intros Hsep Hframe Hagree q Hq.
  rewrite (Hframe q (separate_below _ _ _ Hsep Hq)). apply Hagree. exact Hq.
Qed.

Lemma unchanged_outside_trans dest a b c :
  unchanged_outside dest a b -> unchanged_outside dest b c ->
  unchanged_outside dest a c.
Proof. intros H1 H2 q Hq. rewrite (H2 q Hq). apply H1. exact Hq. Qed.

Lemma unchanged_outside_below dest x a b :
  unchanged_outside (dest ++ x) a b -> unchanged_outside dest a b.
Proof. intros H q Hq. apply H. apply separate_app_l. exact Hq. Qed.

Lemma unchanged_outside_refl dest a : unchanged_outside dest a a.
Proof. intros q _. reflexivity. Qed.

Lemma coupled_for_of {A} source dest (xs : list A)
    (real dry : A -> CopyStats -> M CopyStats) :
  separate source dest ->
  (forall x, coupled source dest (real x) (dry x)) ->
  coupled source dest (for_of xs real) (for_of xs dry).
Proof.
  intros Hsep Hbody. induction xs as [|x r IH];
    intros sr sd wr wd sr' wr' Hrep Hagree Hrun; simpl in *.
  - injection Hrun as <- <-. exists sd, wd.
    repeat split; try apply Hrep; auto using unchanged_outside_refl.
  - unfold bind in Hrun.
    destruct (real x sr wr) as [[s1|e|why] w1] eqn:E1; try discriminate.
    destruct (Hbody x _ _ _ _ _ _ Hrep Hagree E1)
      as (sd1 & wd1 & Hd1 & Hrep1 & Hfs1 & Hdirs1 & Hframe1).
    assert (Hagree1 : agree_below source (fs w1) (fs wd1)).
    { rewrite Hfs1. eapply agree_after_writes; eauto. }
    destruct (IH _ _ _ _ _ _ Hrep1 Hagree1 Hrun)
      as (sd2 & wd2 & Hd2 & Hrep2 & Hfs2 & Hdirs2 & Hframe2).
    exists sd2, wd2. unfold bind. rewrite Hd1.
    repeat split; try apply Hrep2; auto; try congruence; try lia.
    eapply unchanged_outside_trans; eauto.
Qed.

Lemma mkdir_frame p root root' :
  Fs.mkdir p root = inr root' -> unchanged_outside p root root'.
Proof. intros H q Hq. eapply change_frame; eauto. Qed.

Lemma copyFile_frame src dest root root' :
  Fs.copyFile src dest root = inr root' -> unchanged_outside dest root root'.
Proof.
  unfold Fs.copyFile. intros H q Hq.
  destruct (Fs.stat_from src root) as [e|[content|es|]]; try discriminate.
  eapply change_frame; eauto.
Qed.

Lemma coupled_copyEntry source dest rootSource pats entry
    (real dry : path -> path -> CopyStats -> M CopyStats) :
  separate source dest ->
  coupled (join source [Fs.name entry]) (join dest [Fs.name entry])
          (real (join source [Fs.name entry]) (join dest [Fs.name entry]))
          (dry (join source [Fs.name entry]) (join dest [Fs.name entry])) ->
  coupled source dest
    (copyEntry real source dest rootSource pats false entry)
    (copyEntry dry source dest rootSource pats true entry).
Proof.
  intros Hsep Hrec sr sd wr wd sr' wr' Hrep Hagree Hrun.
  unfold copyEntry, bind in *. rewrite shouldExclude_run in *.
  destruct (PathMatcher.shouldExclude _ pats) as [[|]|]; simpl in *; try discriminate.
  - injection Hrun as <- <-. eexists _, _. split; [reflexivity|].
    destruct Hrep as [Hf Hs]. unfold same_report. simpl.
    repeat split; auto using unchanged_outside_refl; congruence.
  - destruct (Fs.isDirectory entry).
    + unfold write_fs in Hrun.
      destruct (Fs.mkdir (join dest [Fs.name entry]) (fs wr)) as [e|root1] eqn:Emk;
        simpl in Hrun; try discriminate.
      pose proof (mkdir_frame _ _ _ Emk) as Hframe1.
      assert (Hsep' : separate (join source [Fs.name entry]) (join dest [Fs.name entry])).
      { unfold join. apply separate_app_l, separate_app_r, Hsep. }
      assert (Hagree1 : agree_below (join source [Fs.name entry]) root1 (fs wd)).
      { eapply agree_after_writes; [exact Hsep' | exact Hframe1 |].
        intros q Hq. apply Hagree. unfold join in Hq. eapply is_prefix_app_l; eauto. }
      assert (Hrep1 : same_report sd (count_directory sr)) by exact Hrep.
      destruct (Hrec (count_directory sr) sd (World root1 (log wr) (cwd wr)) wd
                  sr' wr' Hrep1 Hagree1 Hrun)
        as (sd' & wd' & Hd & Hrep' & Hfs' & Hdirs & Hframe2).
      exists sd', wd'. repeat split; try apply Hrep'; auto.
      * simpl in Hdirs. lia.
      * apply (unchanged_outside_below dest [Fs.name entry]).
        eapply unchanged_outside_trans; eauto.
    + destruct (Fs.isFile entry); simpl in *.
      * unfold read_fs, write_fs in Hrun.
        destruct (Fs.stat (join source [Fs.name entry]) (fs wr)) as [e|n]; try discriminate.
        simpl in Hrun.
        destruct (Fs.copyFile _ _ (fs wr)) as [e|root1] eqn:Ecp;
          simpl in Hrun; try discriminate.
        injection Hrun as <- <-. eexists _, _. split; [reflexivity|].
        destruct Hrep as [Hf Hs]. unfold same_report. simpl.
        repeat split; auto.
        apply (unchanged_outside_below dest [Fs.name entry]).
        eapply copyFile_frame; eauto.
      * injection Hrun as <- <-. eexists _, _. split; [reflexivity|].
        repeat split; try apply Hrep; auto using unchanged_outside_refl.
Qed.

Lemma coupled_copyDirectoryRecursive fuel : forall source dest rootSource pats,
  separate source dest ->
  coupled source dest
    (fun stats => copyDirectoryRecursive fuel source dest rootSource pats stats false)
    (fun stats => copyDirectoryRecursive fuel source dest rootSource pats stats true).
Proof.
  induction fuel as [|fuel IH]; intros source dest rootSource pats Hsep
    sr sd wr wd sr' wr' Hrep Hagree Hrun; simpl in *; [discriminate|].
  unfold bind, read_fs in *.
  assert (Hread : Fs.readdir source (fs wr) = Fs.readdir source (fs wd)).
  { unfold Fs.readdir. pose proof (Hagree source (is_prefix_refl source)) as H.
    unfold Fs.stat in H. rewrite H. reflexivity. }
  rewrite <- Hread.
  destruct (Fs.readdir source (fs wr)) as [e|entries]; [discriminate|].
  refine (coupled_for_of source dest entries _ _ Hsep _ _ _ _ _ _ _ Hrep Hagree Hrun).
  intros entry. apply coupled_copyEntry; [exact Hsep|].
  apply IH. unfold join. apply separate_app_l, separate_app_r, Hsep.
Qed.

Lemma height_cons k c r :
  height (Fs.Dir ((k, c) :: r)) = S (Nat.max (height c) (pred (height (Fs.Dir r)))).
Proof. reflexivity. Qed.

Lemma height_lookup k c es :
  Fs.lookup k es = Some c -> height c < height (Fs.Dir es).
Proof.
  induction es as [|[k' c'] r IH]; [discriminate|].
  rewrite height_cons. cbn [Fs.lookup].
  destruct (String.eqb k' k).
  - intros [= ->]. lia.
  - intros H. specialize (IH H). lia.
Qed.

Lemma stat_child source k : forall root es,
  Fs.stat_from source root = inr (Fs.Dir es) ->
  Fs.stat_from (source ++ [k]) root =
  match Fs.lookup k es with
  | Some c => inr c
  | None => inl Fs.ENOENT
  end.
Proof.
  induction source as [|s r IH]; intros root es H; simpl in *.
  - injection H as ->. destruct (Fs.lookup k es); reflexivity.
  - destruct root as [c|es0|]; try discriminate.
    destruct (Fs.lookup s es0); try discriminate. apply IH. exact H.
Qed.

Lemma height_with_directory es k sub :
  In (k, Fs.Dir sub) es -> 2 <= height (Fs.Dir es).
Proof.
  induction es as [|[k' c'] r IH]; intros Hin; [destruct Hin|].
  rewrite height_cons.
  destruct Hin as [[= -> ->]|Hin].
  - assert (1 <= height (Fs.Dir sub)) by (destruct sub as [|[? ?] ?]; [simpl | rewrite height_cons]; lia).
    lia.
  - specialize (IH Hin). lia.
Qed.

Lemma fuel_enough_child fuel source root es entry :
  Fs.stat source root = inr (Fs.Dir es) ->
  height (Fs.Dir es) <= S fuel ->
  In entry (map Fs.dirent_of es) ->
  Fs.isDirectory entry = true ->
  fuel_enough fuel (join source [Fs.name entry]) root.
Proof.
  intros Hstat Hh Hin Hdir. apply in_map_iff in Hin as ([k c] & <- & Hin).
  unfold Fs.isDirectory, Fs.dirent_of in *. cbn [Fs.dkind Fs.name fst snd] in *.
  destruct c as [content|sub|]; try discriminate.
  pose proof (height_with_directory _ _ _ Hin) as H2.
  unfold fuel_enough, Fs.stat, join.
  rewrite (stat_child source k root es Hstat). split; [lia|].
  destruct (Fs.lookup k es) as [c|] eqn:El; [|exact I].
  pose proof (height_lookup _ _ _ El). lia.
Qed.

Lemma budget_for_of {A} (xs : list A) (body : A -> CopyStats -> M CopyStats) root :
  (forall x, dry_step (body x)) ->
  (forall x stats w, In x xs -> fs w = root -> within_budget (body x stats w)) ->
  forall stats w, fs w = root -> within_budget (for_of xs body stats w).
Proof.
  intros Hdry. induction xs as [|x r IH]; intros Hbody stats w Hw; simpl.
  - unfold within_budget. simpl. discriminate.
  - unfold bind. pose proof (Hbody x stats w (or_introl eq_refl) Hw) as Hx.
    destruct (Hdry x stats w) as [Hfs _].
    destruct (body x stats w) as [[s1|e|why] w1]; simpl in *.
    + apply IH; [|congruence]. intros y s' w' Hy. apply Hbody. right. exact Hy.
    + unfold within_budget. simpl. discriminate.
    + exact Hx.
Qed.

Lemma budget_copyEntry recurse source destination rootSource pats entry stats w :
  (Fs.isDirectory entry = true ->
   forall stats', within_budget
     (recurse (join source [Fs.name entry]) (join destination [Fs.name entry]) stats' w)) ->
  within_budget (copyEntry recurse source destination rootSource pats true entry stats w).
Proof.
  intros Hrec. unfold copyEntry, bind. rewrite shouldExclude_run.
  destruct (PathMatcher.shouldExclude _ pats) as [[|]|]; simpl;
    try (unfold within_budget; simpl; discriminate).
  destruct (Fs.isDirectory entry); [apply Hrec; reflexivity|].
  destruct (Fs.isFile entry); unfold within_budget; simpl; discriminate.
Qed.

Lemma dry_run_within_budget fuel : forall source destination rootSource pats stats w,
  fuel_enough fuel source (fs w) ->
  within_budget
    (copyDirectoryRecursive fuel source destination rootSource pats stats true w).
Proof.
  induction fuel as [|fuel IH];
    intros source destination rootSource pats stats w [Hpos Hfuel]; [lia|].
  simpl. unfold bind, read_fs, Fs.readdir.
  unfold Fs.stat in Hfuel.
  destruct (Fs.stat_from source (fs w)) as [e|[c|es|]] eqn:Hstat;
    try (unfold within_budget; simpl; discriminate).
  apply (budget_for_of _ _ (fs w)); [| |reflexivity].
  - intros entry. apply dry_copyEntry. intros s d. apply dry_copyDirectoryRecursive.
  - intros entry stats0 w0 Hin Hw. apply budget_copyEntry. intros Hdir stats'.
    apply IH. rewrite Hw. eapply fuel_enough_child; eauto.
Qed.

Lemma budget_real_for_of {A} source dest root0 (xs : list A)
    (real dry : A -> CopyStats -> M CopyStats) :
  separate source dest ->
  (forall x, coupled source dest (real x) (dry x)) ->
  (forall x stats w, In x xs -> agree_below source (fs w) root0 ->
                     within_budget (real x stats w)) ->
  forall stats w, agree_below source (fs w) root0 ->
                  within_budget (for_of xs real stats w).
Proof.
  intros Hsep Hcoupled. induction xs as [|x r IH]; intros Hbody stats w Hagree; simpl.
  - unfold within_budget. simpl. discriminate.
  - unfold bind. pose proof (Hbody x stats w (or_introl eq_refl) Hagree) as Hx.
    destruct (real x stats w) as [[s1|e|why] w1] eqn:E1; simpl in *.
    + destruct (Hcoupled x stats stats w (World root0 [] []) s1 w1
                  (conj eq_refl eq_refl) Hagree E1)
        as (_ & _ & _ & _ & _ & _ & Hframe).
      apply IH.
      * intros y s' w' Hy. apply Hbody. right. exact Hy.
      * eapply agree_after_writes; eauto.
    + unfold within_budget. simpl. discriminate.
    + exact Hx.
Qed.

Lemma budget_real_copyEntry recurse source dest rootSource pats entry root0 stats w :
  separate source dest ->
  agree_below source (fs w) root0 ->
  (Fs.isDirectory entry = true ->
   forall stats' w',
     agree_below (join source [Fs.name entry]) (fs w') root0 ->
     within_budget
       (recurse (join source [Fs.name entry]) (join dest [Fs.name entry]) stats' w')) ->
  within_budget (copyEntry recurse source dest rootSource pats false entry stats w).
Proof.
  intros Hsep Hagree Hrec. unfold copyEntry, bind. rewrite shouldExclude_run.
  destruct (PathMatcher.shouldExclude _ pats) as [[|]|]; simpl;
    try (unfold within_budget; simpl; discriminate).
  destruct (Fs.isDirectory entry).
  - unfold write_fs.
    destruct (Fs.mkdir (join dest [Fs.name entry]) (fs w)) as [e|root1] eqn:Emk; simpl;
      [unfold within_budget; simpl; discriminate|].
    apply Hrec; [reflexivity|]. simpl.
    eapply agree_after_writes.
    + unfold join. apply separate_app_l, separate_app_r, Hsep.
    + eapply mkdir_frame; eauto.
    + intros q Hq. apply Hagree. unfold join in Hq. eapply is_prefix_app_l; eauto.
  - destruct (Fs.isFile entry); simpl.
    + unfold read_fs, write_fs.
      destruct (Fs.stat _ (fs w)); simpl; [unfold within_budget; simpl; discriminate|].
      destruct (Fs.copyFile _ _ (fs w)); simpl; unfold within_budget; simpl; discriminate.
    + unfold within_budget; simpl; discriminate.
Qed.

Lemma real_run_within_budget fuel : forall source dest rootSource pats stats w root0,
  separate source dest ->
  agree_below source (fs w) root0 ->
  fuel_enough fuel source root0 ->
  within_budget
    (copyDirectoryRecursive fuel source dest rootSource pats stats false w).
Proof.
  induction fuel as [|fuel IH];
    intros source dest rootSource pats stats w root0 Hsep Hagree [Hpos Hfuel]; [lia|].
  simpl. unfold bind, read_fs, Fs.readdir.
  pose proof (Hagree source (is_prefix_refl source)) as Hsame. unfold Fs.stat in *.
  rewrite Hsame.
  destruct (Fs.stat_from source root0) as [e|[c|es|]] eqn:Hstat;
    try (unfold within_budget; simpl; discriminate).
  apply (budget_real_for_of source dest root0 _ _
           (copyEntry
              (fun s d stats' =>
                 copyDirectoryRecursive fuel s d rootSource pats stats' true)
              source dest rootSource pats true)); auto.
  - intros entry. apply coupled_copyEntry; [exact Hsep|].
    apply coupled_copyDirectoryRecursive.
    unfold join. apply separate_app_l, separate_app_r, Hsep.
  - intros entry stats0 w0 Hin Hagree0.
    apply (budget_real_copyEntry _ _ _ _ _ _ root0); auto.
    intros Hdir stats' w' Hagree'.
    apply (IH _ _ _ _ _ _ root0); auto.
    + unfold join. apply separate_app_l, separate_app_r, Hsep.
    + eapply fuel_enough_child; eauto.
Qed.


(** C2, as amended.  A dry-run copy leaves the file system as it found it
    and returns zero for the directories created and the bytes copied; with
    a budget that covers the height of the source tree it does not run out
    of budget, and nor does the real copy when source and destination lie
    apart.  When they lie apart and the real copy returns, the dry run
    returns too, with the same count of files copied and the same skipped
    paths; the real copy has counted at least the destination itself among
    the directories created. *)
Theorem simulated_copy fuel source destination pats w :
  let dry := copyDirectory fuel source destination pats true w in
  let real := copyDirectory fuel source destination pats false w in
  fs (snd dry) = fs w /\
  (forall stats, fst dry = Ok stats ->
     directoriesCreated stats = 0 /\ bytesCopied stats = 0%N) /\
  (fuel_enough fuel source (fs w) ->
     within_budget dry /\ (separate source destination -> within_budget real)) /\
  (separate source destination ->
   forall stats_r w_r, real = (Ok stats_r, w_r) ->
     exists stats_d,
       fst dry = Ok stats_d /\
       filesCopied stats_d = filesCopied stats_r /\
       skipped stats_d = skipped stats_r /\
       1 <= directoriesCreated stats_r).
Proof.
  intros dry real. unfold dry, real, copyDirectory, bind. simpl.
  destruct (dry_copyDirectoryRecursive fuel source destination source pats
              (MkCopyStats 0 0 0 [])
              (logged LInfo (DryRunWouldCopy source destination) w)) as [Hfs Hst].
  split; [|split; [|split]].
  - exact Hfs.
  - intros stats H. apply (Hst stats H).
  - intros Hfuel. split.
    + apply dry_run_within_budget. exact Hfuel.
    + intros Hsep. unfold write_fs.
      destruct (Fs.mkdir destination (fs w)) as [e|root1] eqn:Emk; simpl;
        [unfold within_budget; simpl; discriminate|].
      apply (real_run_within_budget fuel _ _ _ _ _ _ (fs w)); auto.
      eapply agree_after_writes; [exact Hsep | eapply mkdir_frame; eauto |].
      intros q _. reflexivity.
  - intros Hsep stats_r w_r. unfold write_fs.
    destruct (Fs.mkdir destination (fs w)) as [e|root1] eqn:Emk; simpl; [discriminate|].
    intros Hrun.
    destruct (coupled_copyDirectoryRecursive fuel source destination source pats Hsep
                (count_directory (MkCopyStats 0 0 0 [])) (MkCopyStats 0 0 0 [])
                (World root1 (log w) (cwd w))
                (logged LInfo (DryRunWouldCopy source destination) w)
                stats_r w_r)
      as (sd & wd & Hd & [Hfiles Hskipped] & _ & Hdirs & _).
    + split; reflexivity.
    + simpl. eapply agree_after_writes; [exact Hsep | eapply mkdir_frame; eauto |].
      intros q _. reflexivity.
    + exact Hrun.
    + exists sd. rewrite Hd. simpl in Hdirs. auto.
Qed.

Lemma sample_paths_apart : separate ["proj"] ["backups"; "x"].
Proof. split; reflexivity. Qed.

Lemma simulated_copy_witness :
  exists stats_d,
    fst (copyDirectory 8 ["proj"] ["backups"; "x"] ["node_modules"] true sample_world)
      = Ok stats_d /\
    filesCopied stats_d = 3 /\ skipped stats_d = ["node_modules"].
Proof.
  destruct (simulated_copy 8 ["proj"] ["backups"; "x"] ["node_modules"] sample_world)
    as (_ & _ & _ & Hreal).
  destruct (Hreal sample_paths_apart _ _ eq_refl) as (stats_d & Hd & Hf & Hs & _).
  exists stats_d. split; [exact Hd|]. split; [rewrite Hf | rewrite Hs]; reflexivity.
Defined.

(** C2, as stated, fails: a dry run and the real copy of the same tree differ
    in the directories they count. *)
Lemma simulated_copy_counts_no_directory :
  fst (copyDirectory 8 ["proj"] ["backups"; "x"] ["node_modules"] true sample_world)
    = Ok (MkCopyStats 3 0 0 ["node_modules"]) /\
  fst (copyDirectory 8 ["proj"] ["backups"; "x"] ["node_modules"] false sample_world)
    = Ok (MkCopyStats 3 2 6 ["node_modules"]).
Proof. split; reflexivity. Qed.



(** ** What lies beneath an excluded directory *)













Section Graft.

Variable P : path.
Variable es' : list (string * Fs.node).





Lemma blind_ret {A} (a : A) : blind P es' (ret a).
Proof. intros w Hd. split; [reflexivity|]. intros a0 w' [= <- <-]. exact Hd. Qed.


Lemma blind_stuck {A} r : blind P es' (@stuck_on A r).
Proof. intros w Hd. split; [reflexivity|]. intros a0 w' H. discriminate H. Qed.



Lemma blind_shouldExclude relativePath pats :
  blind P es' (FileSystem.shouldExclude relativePath pats).
Proof.
  unfold FileSystem.shouldExclude.
  destruct (PathMatcher.shouldExclude relativePath pats);
    [apply blind_ret | apply blind_stuck].
Qed.









Section Walk.

Variables (rootSource : path) (pats : list string) (dryRun : bool).
Hypothesis excluded :
  PathMatcher.shouldExclude (relative rootSource P) pats = Some true.



End Walk.


End Graft.
(** ** Retention, measured on the directory *)

Lemma removed_frame p q root :
  separate p q -> Fs.stat q (removed p root) = Fs.stat q root.
Proof.
  intros Hsep. unfold removed, Fs.rm.
  destruct (Fs.change false (fun _ => inr None) p root) as [e|root'] eqn:E.
  - destruct e; reflexivity.
  - eapply change_frame; eauto.
Qed.

Lemma separate_siblings a b rel : forall dir,
  a <> b -> separate (dir ++ [a]) (dir ++ b :: rel).
Proof.
  intros dir Hne. unfold separate. induction dir as [|s dir IH]; simpl.
  - assert (E1 : String.eqb a b = false) by (apply String.eqb_neq; exact Hne).
    assert (E2 : String.eqb b a = false) by (apply String.eqb_neq; congruence).
    rewrite E1, E2. split; reflexivity.
  - rewrite String.eqb_refl. exact IH.
Qed.

(** What lies apart from every removed backup is after the retention as it
    was before. *)
Lemma after_retention_apart dir dryRun excess q : forall w,
  Forall (fun b => backup_path b = join dir [timestamp b]) excess ->
  (forall b, In b excess -> separate (dir ++ [timestamp b]) q) ->
  Fs.stat q (fs (after_retention dryRun excess w)) = Fs.stat q (fs w).
Proof.
  unfold after_retention.
  induction excess as [|b r IH]; intros w Hpaths Hsep; simpl; [reflexivity|].
  inversion Hpaths as [|? ? Hb Hr]; subst.
  rewrite IH; [|exact Hr | intros b' Hb'; apply Hsep; right; exact Hb'].
  unfold retention_step. destruct dryRun; cbn [fs logged]; [reflexivity|].
  rewrite Hb. apply removed_frame. apply Hsep. left. reflexivity.
Qed.

Lemma lookup_absent id es :
  ~ In id (map Fs.name (map Fs.dirent_of es)) -> Fs.lookup id es = None.
Proof.
  induction es as [|[k n] r IH]; simpl; [reflexivity|]. intros H.
  destruct (String.eqb k id) eqn:E.
  - apply String.eqb_eq in E. exfalso. apply H. left. exact E.
  - apply IH. intros Hin. apply H. right. exact Hin.
Qed.

(** A name that a directory does not list stands for nothing in it. *)
Lemma readdir_absent dir root listing id :
  Fs.readdir dir root = inr listing ->
  ~ In id (map Fs.name listing) ->
  Fs.stat (join dir [id]) root = inl Fs.ENOENT.
Proof.
  unfold Fs.readdir, Fs.stat, join. intros Hread Hid.
  destruct (Fs.stat_from dir root) as [c|[c|es|]] eqn:Es; try discriminate.
  injection Hread as <-.
  rewrite (stat_child _ id _ _ Es), (lookup_absent _ _ Hid). reflexivity.
Qed.

Lemma StronglySorted_map {A B} (f : A -> B) (R : B -> B -> Prop) l :
  StronglySorted (fun a b => R (f a) (f b)) l -> StronglySorted R (map f l).
Proof.
  induction 1 as [|x l Hs IH Hx]; cbn [map]; constructor; [exact IH|].
  apply Forall_forall. intros y Hy. apply in_map_iff in Hy as (z & <- & Hz).
  rewrite Forall_forall in Hx. apply Hx, Hz.
Qed.

(** C4.  On a local target and for [maxBackups = m >= 0].  When the
    directory of the project lists entries with distinct names, its
    directories named by ids of the format, these directories are the
    backups: their ids split into the [kept] and the [removed], which
    together are the ids on disk in non-increasing order, the [kept] being
    the first [m] of them (all when there are fewer) and the [removed] the
    [n - m] that follow.  In either mode [applyRetention] returns the paths
    of the [removed], in that order, and the world as it was when [n <= m].
    A dry run leaves the file system as it was.  After a real run the
    directory lists what it listed but for the [removed], nothing stands
    where a removed backup stood, every kept backup holds what it held,
    and nothing changed outside the directory.  When the directory of the
    project does not exist, nothing is removed. *)
Theorem retention_exact localeCompare name tpath project configPath maxBackups w :
  locale_agrees localeCompare ->
  let target := LocalBackupTarget name tpath in
  let dir := projectBackupDir (cwd w) tpath project configPath in
  let m := Z.to_nat maxBackups in
  (0 <= maxBackups)%Z ->
  (forall entries,
     Fs.readdir dir (fs w) = inr entries ->
     NoDup (map Fs.name entries) ->
     ids_valid entries ->
     let ids := map Fs.name (filter Fs.isDirectory entries) in
     exists kept removed,
       Permutation (kept ++ removed) ids /\
       StronglySorted id_ge (kept ++ removed) /\
       length kept = Nat.min m (length ids) /\
       length removed = length ids - m /\
       forall dryRun, exists w',
         applyRetention localeCompare target project maxBackups configPath dryRun w =
           (Ok (map (fun id => join dir [id]) removed), w') /\
         (length ids <= m -> w' = w) /\
         (if dryRun then fs w' = fs w
          else
            Fs.readdir dir (fs w') =
              inr (filter (fun e => negb (id_in removed (Fs.name e))) entries) /\
            (forall id, In id removed ->
                        Fs.stat (join dir [id]) (fs w') = inl Fs.ENOENT) /\
            (forall id rel, In id kept ->
                            Fs.stat (dir ++ id :: rel) (fs w') =
                            Fs.stat (dir ++ id :: rel) (fs w)) /\
            unchanged_outside dir (fs w) (fs w'))) /\
  (Fs.stat dir (fs w) = inl Fs.ENOENT ->
   forall dryRun,
     applyRetention localeCompare target project maxBackups configPath dryRun w =
       (Ok [], w)).
Proof.
  intros Hloc target dir m Hm. split.
  - intros entries Hread Hnd Hvalid ids.
    set (backups := JSArray.sort (newest_first localeCompare)
                      (backups_of dir project entries)).
    assert (Hlist : listBackups localeCompare target project configPath w
                    = (Ok backups, w)).
    { unfold target. rewrite listBackups_local. fold dir. rewrite Hread. reflexivity. }
    assert (Hbv : Forall (fun b => is_timestamp (timestamp b) = true)
                    (backups_of dir project entries))
      by (apply backups_of_valid; exact Hvalid).
    assert (Hsorted : StronglySorted (fun a b => id_ge (timestamp a) (timestamp b))
                        backups).
    { apply (sort_sorted (newest_first localeCompare) timestamp
               (fun b => is_timestamp (timestamp b) = true)
               (newest_first_key _ Hloc) _ Hbv). }
    assert (Hperm : Permutation backups (backups_of dir project entries))
      by apply sort_perm.
    assert (Hids : Permutation (map timestamp backups) ids).
    { unfold ids. rewrite <- backups_of_ids with (dir := dir) (project := project).
      apply Permutation_map, Hperm. }
    assert (Hlen : length backups = length ids).
    { rewrite <- (Permutation_length Hids). symmetry. apply length_map. }
    assert (Hdistinct : NoDup (map timestamp backups)).
    { eapply Permutation_NoDup; [apply Permutation_sym, Hids|].
      unfold ids. apply NoDup_map_filter. exact Hnd. }
    assert (Hpaths : Forall (fun b => backup_path b = join dir [timestamp b])
                       (skipn m backups)).
    { eapply Forall_perm_skipn; [exact Hperm | apply backups_of_paths]. }
    exists (map timestamp (firstn m backups)), (map timestamp (skipn m backups)).
    rewrite <- map_app, firstn_skipn.
    split; [exact Hids|].
    split; [apply StronglySorted_map, Hsorted|].
    split; [rewrite length_map, length_firstn, Hlen; reflexivity|].
    split; [rewrite length_map, length_skipn, Hlen; reflexivity|].
    intros dryRun. exists (after_retention dryRun (skipn m backups) w).
    split; [|split].
    + unfold applyRetention, target. fold target. unfold bind at 1. rewrite Hlist.
      assert (Hmap : map backup_path (skipn m backups) =
                     map (fun id => join dir [id]) (map timestamp (skipn m backups))).
      { rewrite map_map. apply map_ext_in. intros b Hb.
        rewrite Forall_forall in Hpaths. apply Hpaths, Hb. }
      rewrite <- Hmap.
      destruct (Z.of_nat (length backups) >? maxBackups)%Z eqn:E.
      * rewrite slice_skipn by exact Hm. fold m. apply (retention_loop dir).
        -- eapply readdir_holds_directory, Hread.
        -- exact Hpaths.
      * assert (Hle : length backups <= m) by (unfold m; lia).
        rewrite (skipn_all2 _ Hle). reflexivity.
    + intros Hle. rewrite skipn_all2 by (rewrite Hlen; exact Hle). reflexivity.
    + destruct dryRun; [apply after_retention_dry|].
      split; [|split; [|split]].
      * apply (after_retention_readdir dir _ w entries Hpaths Hread).
      * intros id Hid.
        apply (readdir_absent dir _ _ id
                 (after_retention_readdir dir _ w entries Hpaths Hread)).
        intros Hin. apply in_map_iff in Hin as (e & He & Hin).
        apply filter_In in Hin as [_ Hkeep]. rewrite He in Hkeep.
        apply id_in_spec in Hid. rewrite Hid in Hkeep. discriminate Hkeep.
      * intros id rel Hid.
        apply (after_retention_apart dir false _ _ w Hpaths).
        intros b Hb. apply separate_siblings. intros Heq.
        rewrite <- (firstn_skipn m backups), map_app in Hdistinct.
        apply (NoDup_app_disjoint _ _ Hdistinct id Hid).
        rewrite <- Heq. apply in_map, Hb.
      * intros q Hq. apply (after_retention_apart dir false _ _ w Hpaths).
        intros b _. apply separate_app_l, Hq.
  - intros Hmissing dryRun. unfold applyRetention, target. unfold bind at 1.
    rewrite listBackups_local. fold dir. rewrite (readdir_missing _ _ Hmissing).
    simpl. destruct (0 >? maxBackups)%Z eqn:E; [lia | reflexivity].
Qed.

Lemma retention_exact_witness :
  exists kept removed w',
    Permutation (kept ++ removed)
      (map Fs.name (filter Fs.isDirectory sample_listing)) /\
    length removed = 2 /\
    applyRetention code_unit_compare sample_local "proj" 3 None false
      sample_backup_world
    = (Ok (map (fun id => join ["backups"; "proj"] [id]) removed), w') /\
    Fs.readdir ["backups"; "proj"] (fs w') =
      inr (filter (fun e => negb (id_in removed (Fs.name e))) sample_listing).
Proof.
  destruct (retention_exact code_unit_compare "disk" (CPath true ["backups"]) "proj"
              None 3 sample_backup_world code_unit_agrees)
    as [Hlisting _]; [lia|].
  destruct (Hlisting sample_listing eq_refl sample_listing_distinct
              sample_listing_valid)
    as (kept & removed & Hperm & _ & _ & Hlen & Hrun).
  destruct (Hrun false) as (w' & Hret & _ & Hread & _).
  exists kept, removed, w'. repeat split; assumption.
Defined.

(** The scenario of the specification: five backups, at most three kept. *)
Example retention_scenario :
  let run := applyRetention code_unit_compare sample_local "proj" 3 None false
               sample_backup_world in
  fst run = Ok [["backups"; "proj"; "2025-01-15T11-00-00Z"];
                ["backups"; "proj"; "2025-01-15T10-00-00Z"]] /\
  fst (listBackups code_unit_compare sample_local "proj" None (snd run)) =
    Ok [MkBackupInfo "2025-01-15T14-00-00Z" ["backups"; "proj"; "2025-01-15T14-00-00Z"] "proj";
        MkBackupInfo "2025-01-15T13-00-00Z" ["backups"; "proj"; "2025-01-15T13-00-00Z"] "proj";
        MkBackupInfo "2025-01-15T12-00-00Z" ["backups"; "proj"; "2025-01-15T12-00-00Z"] "proj"].
Proof. split; reflexivity. Qed.
(** *** Directories: ensure, test, remove *)

Lemma put_lookup_id s c es : Fs.lookup s es = Some c -> Fs.put s c es = es.
Proof.
  induction es as [|[k m] r IH]; simpl; [discriminate|].
  destruct (String.eqb k s) eqn:E.
  - intros [= ->]. reflexivity.
  - intros H. rewrite (IH H). reflexivity.
Qed.

(** [mkdir] of a directory that exists changes nothing. *)
Lemma mkdir_existing p : forall n es,
  Fs.stat_from p n = inr (Fs.Dir es) ->
  Fs.alter true Fs.mkdir_at p (Some n) = inr (Some n).
Proof.
  induction p as [|s r IH]; intros n es H; simpl in *.
  - injection H as ->. reflexivity.
  - destruct n as [c|es0|]; try discriminate.
    destruct (Fs.lookup s es0) as [c|] eqn:El; try discriminate.
    rewrite (IH _ _ H). simpl. rewrite (put_lookup_id _ _ _ El). reflexivity.
Qed.

(** After a [mkdir] that succeeded a directory stands at the path. *)
Lemma mkdir_makes_directory p : forall o o',
  Fs.alter true Fs.mkdir_at p o = inr o' ->
  exists es, stat_opt p o' = inr (Fs.Dir es).
Proof.
  induction p as [|s r IH]; intros o o' H; simpl in H.
  - destruct o as [[c|es|]|]; try discriminate; injection H as <-; simpl; eauto.
  - destruct o as [[c|es|]|]; try discriminate.
    + destruct (Fs.alter true Fs.mkdir_at r (Fs.lookup s es)) as [e|o1] eqn:E; [discriminate|].
      injection H as <-. destruct (IH _ _ E) as [es1 H1].
      rewrite stat_opt_cons.
      destruct o1 as [n1|]; [|discriminate]. simpl. rewrite lookup_put_same. eauto.
    + destruct (Fs.alter true Fs.mkdir_at r None) as [e|o1] eqn:E; [discriminate|].
      injection H as <-. destruct (IH _ _ E) as [es1 H1].
      rewrite stat_opt_cons.
      destruct o1 as [n1|]; [|discriminate]. simpl. rewrite String.eqb_refl. eauto.
Qed.

(** [mkdir] answers [EEXIST] only where something that is no directory
    stands at the path. *)
Lemma mkdir_eexist p : forall o,
  Fs.alter true Fs.mkdir_at p o = inl Fs.EEXIST ->
  exists n, stat_opt p o = inr n /\ Fs.node_isDirectory n = false.
Proof.
  induction p as [|s r IH]; intros o H; simpl in H.
  - destruct o as [[c|es|]|]; try discriminate; simpl; eauto.
  - destruct o as [[c|es|]|]; try discriminate.
    + destruct (Fs.alter true Fs.mkdir_at r (Fs.lookup s es)) as [e|o1] eqn:E; [|discriminate].
      injection H as ->. rewrite stat_opt_cons. apply IH. exact E.
    + destruct (Fs.alter true Fs.mkdir_at r None) as [e|o1] eqn:E; [|discriminate].
      injection H as ->. destruct (IH _ E) as (n & Hn & _). discriminate Hn.
Qed.

Theorem ensureDirectoryExists_outcome dirPath w w' :
  ensureDirectoryExists dirPath false w = (Ok tt, w') ->
  (directoryExists dirPath w' = (Ok true, w') /\
   unchanged_outside dirPath (fs w) (fs w') /\ log w' = log w) \/
  (w' = w /\ directoryExists dirPath w = (Ok false, w) /\
   exists n, Fs.stat dirPath (fs w) = inr n).
Proof.
  unfold ensureDirectoryExists, try_catch, write_fs.
  destruct (Fs.mkdir dirPath (fs w)) as [c|root'] eqn:Emk.
  - destruct c; simpl; try discriminate. intros [= <-]. right.
    unfold Fs.mkdir, Fs.change in Emk.
    destruct (Fs.alter true Fs.mkdir_at dirPath (Some (fs w))) as [e|[r|]] eqn:Ea;
      try discriminate.
    injection Emk as ->. destruct (mkdir_eexist _ _ Ea) as (n & Hn & Hdir).
    simpl in Hn. split; [reflexivity|]. split; [|eauto].
    rewrite directoryExists_run. unfold Fs.stat. rewrite Hn, Hdir. reflexivity.
  - intros [= <-]. left. split; [|split; [|reflexivity]].
    + rewrite directoryExists_run. simpl.
      unfold Fs.mkdir, Fs.change in Emk.
      destruct (Fs.alter true Fs.mkdir_at dirPath (Some (fs w))) as [e|[r|]] eqn:Ea;
        try discriminate.
      injection Emk as ->. destruct (mkdir_makes_directory _ _ _ Ea) as [es Hes].
      simpl in Hes. unfold Fs.stat. rewrite Hes. reflexivity.
    + simpl. apply mkdir_frame. exact Emk.
Qed.

Lemma lookup_remove_same s es : Fs.lookup s (Fs.remove s es) = None.
Proof.
  unfold Fs.remove. induction es as [|[k m] r IH]; simpl; [reflexivity|].
  destruct (String.eqb k s) eqn:E; simpl; [exact IH|]. rewrite E. exact IH.
Qed.

(** The removal of what stands at [p] beneath [o], by what [stat] shows
    there: [ENOTDIR] where the path leads through what is no directory,
    [ENOENT] where a directory on the way is missing, and otherwise a tree
    with nothing at [p]. *)
Lemma remove_at p : p <> [] -> forall o,
  (stat_opt p o = inl Fs.ENOTDIR /\
   Fs.alter false (fun _ => inr None) p o = inl Fs.ENOTDIR) \/
  (stat_opt p o = inl Fs.ENOENT /\
   Fs.alter false (fun _ => inr None) p o = inl Fs.ENOENT) \/
  (stat_opt p o <> inl Fs.ENOTDIR /\
   exists n', Fs.alter false (fun _ => inr None) p o = inr (Some n') /\
              stat_opt p (Some n') = inl Fs.ENOENT).
Proof.
  induction p as [|s r IH]; [congruence|]. intros _ o.
  destruct o as [[c|es|]|].
  - left. split; reflexivity.
  - destruct r as [|s2 r2].
    + right. right. split.
      * simpl. destruct (Fs.lookup s es); discriminate.
      * eexists. split; [reflexivity|].
        rewrite stat_opt_cons. cbn [Fs.set_entry]. rewrite lookup_remove_same.
        reflexivity.
    + assert (Hne : s2 :: r2 <> []) by congruence.
      remember (s2 :: r2) as rest eqn:Erest.
      rewrite stat_opt_cons. cbn [Fs.alter].
      destruct (IH Hne (Fs.lookup s es)) as [[Hs Ha]|[[Hs Ha]|(Hs & n' & Ha & Hs')]];
        rewrite Ha.
      * left. split; [exact Hs | reflexivity].
      * right. left. split; [exact Hs | reflexivity].
      * right. right. split; [exact Hs|]. eexists. split; [reflexivity|].
        rewrite stat_opt_cons. cbn [Fs.set_entry]. rewrite lookup_put_same. exact Hs'.
  - left. split; reflexivity.
  - right. left. split; reflexivity.
Qed.

Lemma rm_outcome p root :
  p <> [] ->
  (Fs.stat p root = inl Fs.ENOTDIR /\ Fs.rm p root = inl Fs.ENOTDIR) \/
  (Fs.stat p root <> inl Fs.ENOTDIR /\
   exists root', Fs.rm p root = inr root' /\ Fs.stat p root' = inl Fs.ENOENT).
Proof.
  intros Hp. unfold Fs.rm, Fs.change, Fs.stat.
  destruct (remove_at p Hp (Some root)) as [[Hs Ha]|[[Hs Ha]|(Hs & n' & Ha & Hs')]];
    cbn [stat_opt] in *; rewrite Ha.
  - left. split; [exact Hs | reflexivity].
  - right. split; [rewrite Hs; discriminate|]. exists root. split; [reflexivity | exact Hs].
  - right. split; [exact Hs|]. exists n'. split; [reflexivity | exact Hs'].
Qed.

Lemma rm_frame p q root root' :
  Fs.rm p root = inr root' -> separate p q -> Fs.stat q root' = Fs.stat q root.
Proof.
  intros Hrm Hsep. rewrite <- (removed_frame p q root Hsep).
  unfold removed. rewrite Hrm. reflexivity.
Qed.

(** A real [removeDirectory] throws [ENOTDIR], the world as it was, when
    the path leads through what is no directory; otherwise it returns, and
    then nothing stands at the path and the rest is as it was.  A dry run
    is one notice. *)
Theorem removeDirectory_outcome dirPath w :
  dirPath <> [] ->
  ((Fs.stat dirPath (fs w) = inl Fs.ENOTDIR /\
    removeDirectory dirPath false w = (Throw (SystemError Fs.ENOTDIR), w)) \/
   (Fs.stat dirPath (fs w) <> inl Fs.ENOTDIR /\
    exists w',
      removeDirectory dirPath false w = (Ok tt, w') /\
      Fs.stat dirPath (fs w') = inl Fs.ENOENT /\
      directoryExists dirPath w' = (Ok false, w') /\
      unchanged_outside dirPath (fs w) (fs w') /\ log w' = log w)) /\
  removeDirectory dirPath true w =
    (Ok tt, logged LInfo (DryRunWouldRemoveDirectory dirPath) w).
Proof.
  intros Hp. split; [|reflexivity].
  unfold removeDirectory, write_fs.
  destruct (rm_outcome dirPath (fs w) Hp) as [[Hs Hrm]|(Hs & root' & Hrm & Hgone)];
    rewrite Hrm.
  - left. split; [exact Hs | reflexivity].
  - right. split; [exact Hs|]. eexists. split; [reflexivity|]. cbn [fs log].
    split; [exact Hgone|]. split; [|split; [|reflexivity]].
    + rewrite directoryExists_run. cbn [fs]. rewrite Hgone. reflexivity.
    + intros q Hq. eapply rm_frame; eauto.
Qed.

(** *** [getDirectorySize] *)

Lemma distinct_lookup k c es :
  distinct (map fst es) = true -> In (k, c) es -> Fs.lookup k es = Some c.
Proof.
  induction es as [|[k0 c0] r IH]; simpl; [tauto|].
  intros Hd [Hin|Hin].
  - injection Hin as -> ->. rewrite String.eqb_refl. reflexivity.
  - apply andb_prop in Hd. destruct Hd as [Hk Hr].
    destruct (String.eqb k0 k) eqn:E.
    + apply String.eqb_eq in E. subst k0. exfalso.
      apply negb_true_iff in Hk.
      assert (Hex : existsb (String.eqb k) (map fst r) = true).
      { apply existsb_exists. exists k. split; [|apply String.eqb_refl].
        apply in_map_iff. exists (k, c). auto. }
      congruence.
    + apply IH; assumption.
Qed.

Lemma well_formed_dir es :
  well_formed (Fs.Dir es) = true ->
  distinct (map fst es) = true /\
  forall k c, In (k, c) es -> well_formed c = true.
Proof.
  intros H. cbn [well_formed] in H. apply andb_prop in H. destruct H as [Hd Hall].
  split; [exact Hd|]. clear Hd.
  induction es as [|[k0 c0] r IH]; [intros k c []|].
  apply andb_prop in Hall. destruct Hall as [H0 Hr].
  intros k c [Hin|Hin].
  - injection Hin as _ ->. exact H0.
  - eapply IH; eauto.
Qed.

Lemma lookup_In k c es : Fs.lookup k es = Some c -> In (k, c) es.
Proof.
  induction es as [|[k0 c0] r IH]; simpl; [discriminate|].
  destruct (String.eqb k0 k) eqn:E.
  - apply String.eqb_eq in E. intros [= ->]. left. congruence.
  - intros H. right. auto.
Qed.

Lemma well_formed_stat p : forall root n,
  well_formed root = true -> Fs.stat p root = inr n -> well_formed n = true.
Proof.
  unfold Fs.stat. induction p as [|s r IH]; intros root n Hwf H; simpl in H.
  - injection H as <-. exact Hwf.
  - destruct root as [c|es|]; try discriminate.
    destruct (Fs.lookup s es) as [c|] eqn:El; try discriminate.
    eapply IH; [|exact H].
    destruct (well_formed_dir _ Hwf) as [_ Hall]. eapply Hall, lookup_In, El.
Qed.

Lemma tree_size_cons k c r :
  tree_size (Fs.Dir ((k, c) :: r)) = (tree_size c + tree_size (Fs.Dir r))%N.
Proof. reflexivity. Qed.

Lemma sumEntries_safe sizeOf :
  (forall entry w, snd (sizeOf entry w) = w) ->
  forall entries total w,
    snd (sumEntries sizeOf entries total w) = w /\
    forall e, fst (sumEntries sizeOf entries total w) <> Throw e.
Proof.
  intros Hsize. induction entries as [|entry rest IH]; intros total w; simpl.
  - split; [reflexivity | discriminate].
  - specialize (Hsize entry w).
    destruct (sizeOf entry w) as [[size|e|r] w1]; simpl in Hsize; subst w1.
    + apply IH.
    + split; [reflexivity | discriminate].
    + split; [reflexivity | discriminate].
Qed.

Lemma getDirectorySize_catches fuel : forall dirPath w,
  snd (getDirectorySize fuel dirPath w) = w /\
  forall e, fst (getDirectorySize fuel dirPath w) <> Throw e.
Proof.
  induction fuel as [|fuel IH]; intros dirPath w.
  - simpl. split; [reflexivity | discriminate].
  - cbn [getDirectorySize]. unfold try_catch, bind, read_fs.
    destruct (Fs.readdir dirPath (fs w)) as [c|entries].
    + split; [reflexivity | discriminate].
    + assert (Hs : forall entry w0,
                 snd (sizeOfEntry (getDirectorySize fuel) dirPath entry w0) = w0).
      { intros entry w0. unfold sizeOfEntry.
        destruct (Fs.isDirectory entry); [apply IH|].
        destruct (Fs.isFile entry); [|reflexivity].
        unfold bind, read_fs, ret.
        destruct (Fs.stat (join dirPath [Fs.name entry]) (fs w0)); reflexivity. }
      destruct (sumEntries_safe _ Hs entries 0%N w) as [Hw Hne].
      destruct (sumEntries (sizeOfEntry (getDirectorySize fuel) dirPath) entries 0%N w)
        as [[size|e|r] w1]; simpl in *; subst w1.
      * split; [reflexivity | discriminate].
      * exfalso. apply (Hne e). reflexivity.
      * split; [reflexivity | discriminate].
Qed.

(** [getDirectorySize] throws nothing, whatever stands at the path, and
    leaves the world as it is. *)
Theorem getDirectorySize_safe fuel dirPath w :
  snd (getDirectorySize fuel dirPath w) = w /\
  forall e, fst (getDirectorySize fuel dirPath w) <> Throw e.
Proof. apply getDirectorySize_catches. Qed.

(** On a well-formed tree, with budget for its height, [getDirectorySize]
    returns the bytes of the regular files beneath the directory, and zero
    for a path that holds no directory. *)
Theorem getDirectorySize_total fuel : forall dirPath w,
  well_formed (fs w) = true ->
  fuel_enough fuel dirPath (fs w) ->
  getDirectorySize fuel dirPath w = (Ok (directory_size dirPath (fs w)), w).
Proof.
  induction fuel as [|fuel IH]; intros dirPath w Hwf [Hpos Hfuel]; [lia|].
  cbn [getDirectorySize]. unfold try_catch, bind, read_fs, directory_size, Fs.readdir.
  unfold Fs.stat in *.
  destruct (Fs.stat_from dirPath (fs w)) as [c|[content|es|]] eqn:Est;
    try reflexivity.
  assert (Hwfd : well_formed (Fs.Dir es) = true).
  { eapply well_formed_stat; eauto. }
  destruct (well_formed_dir _ Hwfd) as [Hdist _].
  assert (Hloop : forall es' pre total,
             es = pre ++ es' ->
             sumEntries (sizeOfEntry (getDirectorySize fuel) dirPath)
               (map Fs.dirent_of es') total w =
             (Ok (total + tree_size (Fs.Dir es'))%N, w)).
  { induction es' as [|[k c] r IHr]; intros pre total Hes.
    - simpl. unfold ret. rewrite N.add_0_r. reflexivity.
    - cbn [map sumEntries].
      assert (Hin : In (k, c) es).
      { rewrite Hes. apply in_or_app. right. left. reflexivity. }
      assert (Hl : Fs.lookup k es = Some c) by (apply distinct_lookup; assumption).
      assert (Hst : Fs.stat_from (dirPath ++ [k]) (fs w) = inr c).
      { rewrite (stat_child _ k _ _ Est), Hl. reflexivity. }
      assert (Hone : sizeOfEntry (getDirectorySize fuel) dirPath
                       (Fs.dirent_of (k, c)) w = (Ok (tree_size c), w)).
      { unfold sizeOfEntry, Fs.dirent_of, Fs.isDirectory, Fs.isFile, join.
        cbn [fst snd Fs.name Fs.dkind].
        destruct c as [content|sub|]; cbn [Fs.kind_of].
        - unfold bind, read_fs, ret, Fs.stat. rewrite Hst. reflexivity.
        - rewrite IH.
          + unfold directory_size, Fs.stat. rewrite Hst. reflexivity.
          + exact Hwf.
          + apply (fuel_enough_child fuel dirPath (fs w) es
                     (Fs.dirent_of (k, Fs.Dir sub)) Est Hfuel).
            * apply in_map. exact Hin.
            * reflexivity.
        - reflexivity. }
      rewrite Hone.
      rewrite (IHr (pre ++ [(k, c)]) (total + tree_size c)%N).
      + rewrite tree_size_cons, N.add_assoc. reflexivity.
      + rewrite <- app_assoc. exact Hes. }
  rewrite (Hloop es [] 0%N eq_refl). reflexivity.
Qed.

Lemma getDirectorySize_total_witness :
  getDirectorySize 4 ["proj"] sample_world = (Ok 8%N, sample_world).
Proof.
  apply (getDirectorySize_total 4 ["proj"] sample_world).
  - reflexivity.
  - split; [lia | simpl; lia].
Defined.

Lemma ensureDirectoryExists_outcome_witness :
  directoryExists ["proj"; "a.txt"]
    (snd (ensureDirectoryExists ["proj"; "a.txt"] false sample_world))
  = (Ok false, sample_world).
Proof.
  destruct (ensureDirectoryExists_outcome ["proj"; "a.txt"] sample_world sample_world
              eq_refl) as [(H & _)|(_ & H & _)].
  - discriminate H.
  - exact H.
Defined.

Lemma removeDirectory_outcome_witness :
  removeDirectory ["proj"; "a.txt"; "x"] false sample_world
  = (Throw (SystemError Fs.ENOTDIR), sample_world).
Proof.
  destruct (removeDirectory_outcome ["proj"; "a.txt"; "x"] sample_world)
    as [[[_ H]|[Hne _]] _].
  - discriminate.
  - exact H.
  - exfalso. apply Hne. reflexivity.
Defined.

(** ** What the copy writes *)

Lemma lookup_set_same s o es : Fs.lookup s (Fs.set_entry s o es) = o.
Proof.
  destruct o as [n|]; simpl; [apply lookup_put_same|].
  unfold Fs.remove. induction es as [|[k m] r IH]; simpl; [reflexivity|].
  destruct (String.eqb k s) eqn:E; simpl; [exact IH|]. rewrite E. exact IH.
Qed.

(** A change at [p] by a rewriting that keeps directories leaves every
    directory a directory, and every other node but the one at [p] as it
    is. *)
Lemma alter_keeps parents f p :
  keeps_directories f ->
  forall d o o' n,
    Fs.alter parents f p o = inr o' ->
    stat_opt d o = inr n ->
    match n with
    | Fs.Dir _ => exists es', stat_opt d o' = inr (Fs.Dir es')
    | _ => p <> d -> stat_opt d o' = inr n
    end.
Proof.
  intros Hf. induction p as [|s r IH]; intros d o o' n Ha Hst.
  - simpl in Ha. destruct d as [|t d'].
    + destruct o as [n0|]; [|discriminate]. simpl in Hst. injection Hst as ->.
      destruct n as [c|es|]; try congruence.
      rewrite (Hf _ _ Ha). simpl. eauto.
    + destruct o as [[c|es|]|]; try discriminate.
      rewrite (Hf _ _ Ha). destruct n; eauto.
  - simpl in Ha. destruct o as [[c|es|]|]; try discriminate.
    destruct (Fs.alter parents f r (Fs.lookup s es)) as [e|o1] eqn:E; [discriminate|].
    injection Ha as <-. destruct d as [|t d'].
    + simpl in Hst. injection Hst as <-. simpl. eauto.
    + rewrite stat_opt_cons in Hst. rewrite stat_opt_cons.
      destruct (String.eqb s t) eqn:Est.
      * apply String.eqb_eq in Est. subst t. rewrite lookup_set_same.
        specialize (IH d' _ _ n E Hst). destruct n; auto; intros Hne; apply IH; congruence.
      * rewrite lookup_set_other by exact Est. destruct n; eauto.
Qed.

Lemma mkdir_keeps : keeps_directories Fs.mkdir_at.
Proof. intros es o' [= <-]. reflexivity. Qed.

Lemma write_keeps content : keeps_directories (Fs.write_at content).
Proof. intros es o' H. discriminate H. Qed.

(** What a rewriting at [p] is handed is what stands at [p]. *)
Lemma alter_at parents f p : forall o o' n,
  Fs.alter parents f p o = inr o' ->
  stat_opt p o = inr n ->
  exists o1, f (Some n) = inr o1 /\ stat_opt p o' = stat_opt [] o1.
Proof.
  induction p as [|s r IH]; intros o o' n Ha Hst.
  - simpl in Ha. destruct o as [n0|]; [|discriminate]. simpl in Hst.
    injection Hst as ->. exists o'. split; [exact Ha|]. reflexivity.
  - simpl in Ha. destruct o as [[c|es|]|]; try discriminate.
    destruct (Fs.alter parents f r (Fs.lookup s es)) as [e|o1] eqn:E; [discriminate|].
    injection Ha as <-. rewrite stat_opt_cons in Hst.
    destruct (IH _ _ _ E Hst) as (o2 & Hf & Hs). exists o2. split; [exact Hf|].
    rewrite stat_opt_cons, lookup_set_same. exact Hs.
Qed.

(** After the write of a file that succeeded the file stands at the path. *)
Lemma write_lands content p : forall o o',
  Fs.alter false (Fs.write_at content) p o = inr o' ->
  stat_opt p o' = inr (Fs.File content).
Proof.
  induction p as [|s r IH]; intros o o' Ha; simpl in Ha.
  - destruct o as [[c|es|]|]; try discriminate; injection Ha as <-; reflexivity.
  - destruct o as [[c|es|]|]; try discriminate.
    destruct (Fs.alter false (Fs.write_at content) r (Fs.lookup s es)) as [e|o1] eqn:E;
      [discriminate|].
    injection Ha as <-. rewrite stat_opt_cons, lookup_set_same. eauto.
Qed.

(** A change at [p] by a rewriting that adds nothing beneath its place: a
    file found afterwards anywhere but at [p] stood there before. *)
Lemma alter_reflects parents f p :
  adds_nothing_below f ->
  forall q o o' c,
    Fs.alter parents f p o = inr o' ->
    stat_opt q o' = inr (Fs.File c) ->
    p <> q ->
    stat_opt q o = inr (Fs.File c).
Proof.
  intros Hf. induction p as [|s r IH]; intros q o o' c Ha Hst Hne.
  - simpl in Ha. destruct q as [|t q']; [congruence|].
    apply (Hf o o' t q' _ Ha). exact Hst.
  - simpl in Ha. destruct o as [[c0|es|]|]; try discriminate.
    + destruct (Fs.alter parents f r (Fs.lookup s es)) as [e|o1] eqn:E; [discriminate|].
      injection Ha as <-. destruct q as [|t q']; [discriminate Hst|].
      rewrite stat_opt_cons in Hst. rewrite stat_opt_cons.
      destruct (String.eqb s t) eqn:Est.
      * apply String.eqb_eq in Est. subst t. rewrite lookup_set_same in Hst.
        apply (IH q' _ _ c E Hst). congruence.
      * rewrite lookup_set_other in Hst by exact Est. exact Hst.
    + destruct parents; [|discriminate].
      destruct (Fs.alter true f r None) as [e|o1] eqn:E; [discriminate|].
      injection Ha as <-. destruct q as [|t q']; [discriminate Hst|].
      rewrite stat_opt_cons in Hst.
      destruct (String.eqb s t) eqn:Est.
      * apply String.eqb_eq in Est. subst t. rewrite lookup_set_same in Hst.
        apply (IH q' _ _ c E Hst). congruence.
      * rewrite lookup_set_other in Hst by exact Est. discriminate Hst.
Qed.

Lemma mkdir_adds_nothing : adds_nothing_below Fs.mkdir_at.
Proof.
  intros [[c|es|]|] o' s x n H; try discriminate; injection H as <-; auto.
Qed.

Lemma write_adds_nothing content : adds_nothing_below (Fs.write_at content).
Proof.
  intros [[c|es|]|] o' s x n H; try discriminate; injection H as <-;
    intros H; discriminate H.
Qed.

Lemma stat_app p : forall q root,
  Fs.stat_from (p ++ q) root =
  match Fs.stat_from p root with
  | inr n => Fs.stat_from q n
  | inl e => inl e
  end.
Proof.
  induction p as [|s r IH]; intros q root; simpl; [reflexivity|].
  destruct root as [c|es|]; try reflexivity.
  destruct (Fs.lookup s es); [apply IH | reflexivity].
Qed.

Lemma mkdir_keeps_file p q root root' c :
  Fs.mkdir p root = inr root' ->
  Fs.stat q root = inr (Fs.File c) -> Fs.stat q root' = inr (Fs.File c).
Proof.
  unfold Fs.mkdir, Fs.change, Fs.stat. intros H Hq.
  destruct (Fs.alter true Fs.mkdir_at p (Some root)) as [e|[r|]] eqn:E; try discriminate.
  injection H as <-.
  destruct (list_eq_dec string_dec p q) as [->|Hne].
  - destruct (alter_at _ _ _ _ _ _ E Hq) as (o1 & Hf & _). discriminate Hf.
  - apply (alter_keeps true Fs.mkdir_at p mkdir_keeps q (Some root) (Some r) _ E Hq Hne).
Qed.

Lemma write_keeps_file content p q root root' c :
  Fs.change false (Fs.write_at content) p root = inr root' ->
  Fs.stat q root = inr (Fs.File c) -> p <> q -> Fs.stat q root' = inr (Fs.File c).
Proof.
  unfold Fs.change, Fs.stat. intros H Hq Hne.
  destruct (Fs.alter false (Fs.write_at content) p (Some root)) as [e|[r|]] eqn:E;
    try discriminate.
  injection H as <-.
  apply (alter_keeps false _ p (write_keeps content) q (Some root) (Some r) _ E Hq Hne).
Qed.

Lemma write_lands_change content p root root' :
  Fs.change false (Fs.write_at content) p root = inr root' ->
  Fs.stat p root' = inr (Fs.File content).
Proof.
  unfold Fs.change, Fs.stat. intros H.
  destruct (Fs.alter false (Fs.write_at content) p (Some root)) as [e|[r|]] eqn:E;
    try discriminate.
  injection H as <-. apply (write_lands content p (Some root) (Some r) E).
Qed.

Lemma mkdir_reflects_file p q root root' c :
  Fs.mkdir p root = inr root' ->
  Fs.stat q root' = inr (Fs.File c) -> Fs.stat q root = inr (Fs.File c).
Proof.
  unfold Fs.mkdir, Fs.change, Fs.stat. intros H Hq.
  destruct (Fs.alter true Fs.mkdir_at p (Some root)) as [e|[r|]] eqn:E; try discriminate.
  injection H as <-.
  destruct (list_eq_dec string_dec p q) as [->|Hne].
  - destruct (mkdir_makes_directory _ _ _ E) as [es Hes]. simpl in Hes. congruence.
  - apply (alter_reflects true Fs.mkdir_at p mkdir_adds_nothing q (Some root) (Some r) c
             E Hq Hne).
Qed.

Lemma write_reflects_file content p q root root' c :
  Fs.change false (Fs.write_at content) p root = inr root' ->
  Fs.stat q root' = inr (Fs.File c) -> p <> q -> Fs.stat q root = inr (Fs.File c).
Proof.
  unfold Fs.change, Fs.stat. intros H Hq Hne.
  destruct (Fs.alter false (Fs.write_at content) p (Some root)) as [e|[r|]] eqn:E;
    try discriminate.
  injection H as <-.
  apply (alter_reflects false _ p (write_adds_nothing content) q (Some root) (Some r) c
           E Hq Hne).
Qed.

Lemma separate_children source dest k :
  separate source dest -> separate (source ++ [k]) (dest ++ [k]).
Proof. intros H. apply separate_app_l, separate_app_r, H. Qed.

Lemma agree_below_child source k a b :
  agree_below source a b -> agree_below (source ++ [k]) a b.
Proof. intros H q Hq. apply H. eapply is_prefix_app_l, Hq. Qed.

Section Mirror.

Variables (rootSource : path) (pats : list string) (root0 : Fs.node).
Hypothesis wf0 : well_formed root0 = true.

Lemma mirror_copyEntry recurse source dest entry es :
  separate source dest ->
  Fs.stat source root0 = inr (Fs.Dir es) ->
  In entry (map Fs.dirent_of es) ->
  mirrors rootSource pats root0
    (source ++ [Fs.name entry]) (dest ++ [Fs.name entry]) (fun _ => True)
    (recurse (source ++ [Fs.name entry]) (dest ++ [Fs.name entry])) ->
  mirrors rootSource pats root0 source dest (begins_with [Fs.name entry])
    (copyEntry recurse source dest rootSource pats false entry).
Proof.
  intros Hsep Hsrc Hin IH stats w stats' w' Hagree Hrun.
  cut (unchanged_outside dest (fs w) (fs w') /\
       (forall rest c,
           visible_from rootSource pats source (Fs.name entry :: rest) = true ->
           Fs.stat (source ++ Fs.name entry :: rest) root0 = inr (Fs.File c) ->
           Fs.stat (dest ++ Fs.name entry :: rest) (fs w') = inr (Fs.File c)) /\
       (forall q c,
           Fs.stat q (fs w) = inr (Fs.File c) ->
           (forall rel, q = dest ++ rel ->
                        Fs.stat (source ++ rel) root0 = inr (Fs.File c)) ->
           Fs.stat q (fs w') = inr (Fs.File c)) /\
       (forall q c,
           Fs.stat q (fs w') = inr (Fs.File c) ->
           Fs.stat q (fs w) = inr (Fs.File c) \/
           exists rest,
             q = dest ++ Fs.name entry :: rest /\
             visible_from rootSource pats source (Fs.name entry :: rest) = true /\
             Fs.stat (source ++ Fs.name entry :: rest) root0 = inr (Fs.File c))).
  { intros (H1 & H2 & H3 & H4). split; [exact H1|]. split; [|split; [exact H3|]].
    - intros [|k rest] c Hcov; [destruct Hcov|].
      destruct Hcov as [<-|[]]. apply H2.
    - intros q c Hq. destruct (H4 q c Hq) as [Hold|(rest & Hq' & Hvis & Hc)];
        [left; exact Hold|].
      right. exists (Fs.name entry :: rest). repeat split; try assumption.
      left. reflexivity. }
  apply in_map_iff in Hin. destruct Hin as ([k n] & <- & Hin).
  cbn [Fs.dirent_of Fs.name fst snd] in *.
  assert (Hwfd : well_formed (Fs.Dir es) = true) by (eapply well_formed_stat; eauto).
  destruct (well_formed_dir _ Hwfd) as [Hdist _].
  assert (Hl : Fs.lookup k es = Some n) by (apply distinct_lookup; assumption).
  assert (Hst0 : Fs.stat (source ++ [k]) root0 = inr n).
  { unfold Fs.stat in *. rewrite (stat_child _ k _ _ Hsrc), Hl. reflexivity. }
  assert (Hdeep : forall rest, Fs.stat (source ++ k :: rest) root0 = Fs.stat_from rest n).
  { intros rest. change (k :: rest) with ([k] ++ rest). rewrite app_assoc.
    unfold Fs.stat in *. rewrite stat_app, Hst0. reflexivity. }
  assert (Hstw : Fs.stat (source ++ [k]) (fs w) = inr n).
  { rewrite Hagree; [exact Hst0 | apply is_prefix_app]. }
  unfold copyEntry, bind in Hrun. rewrite shouldExclude_run in Hrun.
  cbn [visible_from]. unfold join, Fs.dirent_of in *.
  cbn [Fs.name Fs.dkind fst snd] in *.
  destruct (PathMatcher.shouldExclude (relative rootSource (source ++ [k])) pats)
    as [[|]|] eqn:Eex; try discriminate.
  - (* excluded *)
    unfold emit, ret in Hrun. injection Hrun as <- <-. cbn [fs logged].
    split; [intros q Hq; reflexivity|]. split; [discriminate|].
    split; [intros q c Hq _; exact Hq | intros q c Hq; left; exact Hq].
  - unfold Fs.isDirectory, Fs.isFile in Hrun. cbn [Fs.dkind negb] in Hrun.
    destruct n as [c0|sub|]; cbn [Fs.kind_of] in Hrun.
    + (* a regular file *)
      unfold read_fs, write_fs, ret in Hrun. rewrite Hstw in Hrun.
      unfold Fs.copyFile in Hrun. unfold Fs.stat in Hstw. rewrite Hstw in Hrun.
      destruct (Fs.change false (Fs.write_at c0) (dest ++ [k]) (fs w)) as [e|root1] eqn:Ec;
        [discriminate|].
      injection Hrun as <- <-. cbn [fs].
      split; [|split; [|split]].
      * apply unchanged_outside_below with (x := [k]).
        intros q Hq. eapply change_frame; eauto.
      * intros rest c _ Hc. rewrite Hdeep in Hc.
        destruct rest as [|k2 rest]; [|discriminate].
        simpl in Hc. injection Hc as <-. eapply write_lands_change, Ec.
      * intros q c Hq Hsame.
        destruct (list_eq_dec string_dec (dest ++ [k]) q) as [<-|Hne].
        -- specialize (Hsame [k] eq_refl). rewrite Hst0 in Hsame.
           injection Hsame as <-. eapply write_lands_change, Ec.
        -- eapply write_keeps_file; eauto.
      * intros q c Hq.
        destruct (list_eq_dec string_dec (dest ++ [k]) q) as [<-|Hne].
        -- right. exists []. split; [reflexivity|]. split; [reflexivity|].
           rewrite (write_lands_change _ _ _ _ Ec) in Hq. injection Hq as <-.
           exact Hst0.
        -- left. eapply write_reflects_file; eauto.
    + (* a directory *)
      unfold write_fs, ret in Hrun.
      destruct (Fs.mkdir (dest ++ [k]) (fs w)) as [e|root1] eqn:Emk; [discriminate|].
      assert (Hag1 : agree_below (source ++ [k]) root1 root0).
      { apply (agree_after_writes _ (dest ++ [k]) (fs w)).
        - apply separate_children, Hsep.
        - apply mkdir_frame, Emk.
        - apply agree_below_child, Hagree. }
      destruct (IH _ (World root1 (log w) (cwd w)) _ _ Hag1 Hrun)
        as (Hout & HA & HB & HD).
      cbn [fs] in *.
      split; [|split; [|split]].
      * apply unchanged_outside_below with (x := [k]).
        eapply unchanged_outside_trans; [apply mkdir_frame, Emk | exact Hout].
      * intros rest c Hvis Hc.
        change (k :: rest) with ([k] ++ rest). rewrite app_assoc.
        apply HA; [exact I | exact Hvis|]. rewrite <- app_assoc. exact Hc.
      * intros q c Hq Hsame. apply HB.
        -- eapply mkdir_keeps_file; eauto.
        -- intros rel ->. rewrite <- app_assoc. apply Hsame.
           rewrite <- app_assoc. reflexivity.
      * intros q c Hq. destruct (HD q c Hq) as [Hold|(rel & -> & _ & Hvis & Hc)].
        -- left. eapply mkdir_reflects_file; eauto.
        -- right. exists rel. rewrite <- !app_assoc in *. auto.
    + (* neither *)
      unfold ret in Hrun. injection Hrun as <- <-.
      split; [intros q Hq; reflexivity|].
      split; [|split; [intros q c Hq _; exact Hq | intros q c Hq; left; exact Hq]].
      intros rest c _ Hc. rewrite Hdeep in Hc. destruct rest; discriminate.
Qed.

Lemma mirror_for_of recurse source dest es :
  separate source dest ->
  Fs.stat source root0 = inr (Fs.Dir es) ->
  (forall k,
      mirrors rootSource pats root0 (source ++ [k]) (dest ++ [k]) (fun _ => True)
        (recurse (source ++ [k]) (dest ++ [k]))) ->
  forall xs,
    incl xs (map Fs.dirent_of es) ->
    mirrors rootSource pats root0 source dest (begins_with (map Fs.name xs))
      (for_of xs (copyEntry recurse source dest rootSource pats false)).
Proof.
  intros Hsep Hsrc IH. induction xs as [|entry rest IHx]; intros Hincl.
  - intros stats w stats' w' Hagree Hrun. simpl in Hrun. unfold ret in Hrun.
    injection Hrun as <- <-.
    split; [intros q Hq; reflexivity|].
    split; [|split; [intros q c Hq _; exact Hq | intros q c Hq; left; exact Hq]].
    intros [|k r] c Hcov; destruct Hcov.
  - intros stats w stats' w' Hagree Hrun. cbn [for_of] in Hrun. unfold bind in Hrun.
    destruct (copyEntry recurse source dest rootSource pats false entry stats w)
      as [[stats1|e|r] w1] eqn:Eone; try discriminate.
    assert (Hin : In entry (map Fs.dirent_of es)) by (apply Hincl; left; reflexivity).
    destruct (mirror_copyEntry recurse source dest entry es Hsep Hsrc Hin
                (IH (Fs.name entry)) stats w stats1 w1 Hagree Eone)
      as (Hout1 & HA1 & HB1 & HD1).
    assert (Hagree1 : agree_below source (fs w1) root0).
    { eapply agree_after_writes; eauto. }
    assert (Hincl' : incl rest (map Fs.dirent_of es)).
    { intros x Hx. apply Hincl. right. exact Hx. }
    destruct (IHx Hincl' stats1 w1 stats' w' Hagree1 Hrun) as (Hout2 & HA2 & HB2 & HD2).
    split; [|split; [|split]].
    + eapply unchanged_outside_trans; eauto.
    + intros [|k r] c Hcov Hvis Hc; [destruct Hcov|].
      cbn [begins_with map] in Hcov.
      destruct (string_dec (Fs.name entry) k) as [<-|Hne].
      * apply HB2.
        -- apply HA1; [left; reflexivity | exact Hvis | exact Hc].
        -- intros rel Heq. apply app_inv_head in Heq. subst rel. exact Hc.
      * apply HA2; [|exact Hvis | exact Hc].
        destruct Hcov as [Heq|Hin']; [congruence | exact Hin'].
    + intros q c Hq Hsame. apply HB2; [|exact Hsame]. apply HB1; assumption.
    + intros q c Hq.
      destruct (HD2 q c Hq) as [Hmid|(rel & -> & Hcov & Hvis & Hc)].
      * destruct (HD1 q c Hmid) as [Hold|(rel & -> & Hcov & Hvis & Hc)];
          [left; exact Hold|].
        right. exists rel. repeat split; try assumption.
        destruct rel as [|k r]; [destruct Hcov|].
        destruct Hcov as [<-|[]]. left. reflexivity.
      * right. exists rel. repeat split; try assumption.
        destruct rel as [|k r]; [destruct Hcov|]. right. exact Hcov.
Qed.

Lemma mirror_copyDirectoryRecursive fuel : forall source dest,
  separate source dest ->
  mirrors rootSource pats root0 source dest (fun _ => True)
    (fun stats => copyDirectoryRecursive fuel source dest rootSource pats stats false).
Proof.
  induction fuel as [|fuel IH]; intros source dest Hsep stats w stats' w' Hagree Hrun.
  - discriminate Hrun.
  - cbn [copyDirectoryRecursive] in Hrun. unfold bind, read_fs in Hrun.
    assert (Hrd : Fs.readdir source (fs w) = Fs.readdir source root0).
    { unfold Fs.readdir. unfold agree_below, Fs.stat in Hagree.
      rewrite (Hagree source (is_prefix_refl source)). reflexivity. }
    rewrite Hrd in Hrun. unfold Fs.readdir in Hrun.
    destruct (Fs.stat_from source root0) as [e|[c0|es|]] eqn:Esrc; try discriminate.
    pose proof (mirror_for_of
                  (fun sourcePath destinationPath stats0 =>
                     copyDirectoryRecursive fuel sourcePath destinationPath
                       rootSource pats stats0 false)
                  source dest es Hsep Esrc
                  (fun k => IH (source ++ [k]) (dest ++ [k]) (separate_children _ _ k Hsep))
                  (map Fs.dirent_of es) (incl_refl _) stats w stats' w' Hagree Hrun)
      as (Hout & HA & HB & HD).
    split; [exact Hout|]. split; [|split; [exact HB|]].
    + intros rel c _ Hvis Hc. apply HA; [|exact Hvis | exact Hc].
      destruct rel as [|k r].
      * rewrite app_nil_r in Hc. unfold Fs.stat in Hc. congruence.
      * cbn [begins_with]. change (k :: r) with ([k] ++ r) in Hc.
        rewrite app_assoc in Hc. unfold Fs.stat in Hc. rewrite stat_app in Hc.
        rewrite (stat_child _ k _ _ Esrc) in Hc.
        destruct (Fs.lookup k es) as [n|] eqn:El; [|discriminate].
        apply lookup_In in El. rewrite map_map. apply in_map_iff.
        exists (k, n). split; [reflexivity | exact El].
    + intros q c Hq. destruct (HD q c Hq) as [Hold|(rel & -> & _ & Hvis & Hc)];
        [left; exact Hold|].
      right. exists rel. auto.
Qed.

End Mirror.

Lemma mirror_copyDirectory fuel source dest pats root0 :
  well_formed root0 = true ->
  separate source dest ->
  mirrors source pats root0 source dest (fun _ => True)
    (fun _ => copyDirectory fuel source dest pats false).
Proof.
  intros Hwf Hsep stats0 w stats w' Hagree Hrun.
  unfold copyDirectory, bind, write_fs in Hrun. cbn [negb] in Hrun.
  destruct (Fs.mkdir dest (fs w)) as [e|root1] eqn:Emk; [discriminate|].
  unfold ret in Hrun.
  assert (Hag : agree_below source root1 root0).
  { eapply (agree_after_writes source dest (fs w)); eauto. apply mkdir_frame, Emk. }
  destruct (mirror_copyDirectoryRecursive source pats root0 Hwf fuel source dest Hsep
              _ (World root1 (log w) (cwd w)) _ _ Hag Hrun) as (Hout & HA & HB & HD).
  cbn [fs] in *. split; [|split; [exact HA | split]].
  - eapply unchanged_outside_trans; [apply mkdir_frame, Emk | exact Hout].
  - intros q c Hq Hsame. apply HB; [|exact Hsame]. eapply mkdir_keeps_file; eauto.
  - intros q c Hq. destruct (HD q c Hq) as [Hold|Hnew]; [left | right; exact Hnew].
    eapply mkdir_reflects_file; eauto.
Qed.

(** A real copy that returns has put every regular file of the source that
    no exclusion hides at the same place beneath the destination, with its
    content, and has written nowhere else. *)
Theorem copy_mirrors_files fuel source dest pats w stats w' :
  well_formed (fs w) = true ->
  separate source dest ->
  copyDirectory fuel source dest pats false w = (Ok stats, w') ->
  (forall rel content,
      visible_from source pats source rel = true ->
      Fs.stat (source ++ rel) (fs w) = inr (Fs.File content) ->
      Fs.stat (dest ++ rel) (fs w') = inr (Fs.File content)) /\
  unchanged_outside dest (fs w) (fs w').
Proof.
  intros Hwf Hsep Hrun.
  destruct (mirror_copyDirectory fuel source dest pats (fs w) Hwf Hsep stats w stats w'
              (fun q _ => eq_refl) Hrun) as (Hout & HA & _ & _).
  split; [|exact Hout]. intros rel c Hvis Hc. apply HA; auto.
Qed.

(** Into a destination that holds no file (one that does not exist, or a
    tree of empty directories), a real copy that returns puts the regular
    files of the source that no exclusion hides, each at its place and with
    its content, and no other file. *)
Theorem copy_is_exact fuel source dest pats w stats w' :
  well_formed (fs w) = true ->
  separate source dest ->
  holds_no_file dest (fs w) ->
  copyDirectory fuel source dest pats false w = (Ok stats, w') ->
  forall rel content,
    Fs.stat (dest ++ rel) (fs w') = inr (Fs.File content) <->
    visible_from source pats source rel = true /\
    Fs.stat (source ++ rel) (fs w) = inr (Fs.File content).
Proof.
  intros Hwf Hsep Hfresh Hrun.
  destruct (mirror_copyDirectory fuel source dest pats (fs w) Hwf Hsep stats w stats w'
              (fun q _ => eq_refl) Hrun) as (_ & HA & _ & HD).
  intros rel c. split.
  - intros Hq. destruct (HD _ _ Hq) as [Hold|(rel' & Heq & _ & Hvis & Hc)].
    + exfalso. exact (Hfresh _ _ Hold).
    + apply app_inv_head in Heq. subst rel'. auto.
  - intros [Hvis Hc]. apply HA; auto.
Qed.

Lemma missing_holds_no_file dest root code :
  Fs.stat dest root = inl code -> holds_no_file dest root.
Proof.
  intros H rel c Hc. unfold Fs.stat in *. rewrite stat_app, H in Hc. discriminate Hc.
Qed.

Lemma copy_mirrors_files_witness :
  Fs.stat (["backups"; "x"] ++ ["sub"; "c.txt"])
    (fs (snd (copyDirectory 8 ["proj"] ["backups"; "x"] ["node_modules"] false
                sample_world)))
  = inr (Fs.File "c").
Proof.
  refine (proj1 (copy_mirrors_files 8 ["proj"] ["backups"; "x"] ["node_modules"]
                   sample_world (MkCopyStats 3 2 6 ["node_modules"]) _
                   eq_refl sample_paths_apart eq_refl)
            ["sub"; "c.txt"] "c" eq_refl eq_refl).
Defined.

Lemma copy_is_exact_witness :
  Fs.stat (["backups"; "x"] ++ ["a.txt"])
    (fs (snd (copyDirectory 8 ["proj"] ["backups"; "x"] ["node_modules"] false
                sample_world)))
  = inr (Fs.File "aaa").
Proof.
  apply (copy_is_exact 8 ["proj"] ["backups"; "x"] ["node_modules"]
           sample_world (MkCopyStats 3 2 6 ["node_modules"]) _
           eq_refl sample_paths_apart
           (missing_holds_no_file ["backups"; "x"] sample_tree Fs.ENOENT eq_refl)
           eq_refl).
  split; reflexivity.
Defined.

(** *** Well-formed trees stay well-formed *)

Lemma well_formed_dir_intro es :
  distinct (map fst es) = true ->
  (forall k c, In (k, c) es -> well_formed c = true) ->
  well_formed (Fs.Dir es) = true.
Proof.
  intros Hd Hall. cbn [well_formed]. rewrite Hd. simpl.
  induction es as [|[k0 c0] r IH]; [reflexivity|].
  rewrite (Hall k0 c0 (or_introl eq_refl)). simpl. apply IH.
  - simpl in Hd. apply andb_prop in Hd. apply Hd.
  - intros k c Hin. apply (Hall k c). right. exact Hin.
Qed.

Lemma existsb_eqb_In k names : existsb (String.eqb k) names = true <-> In k names.
Proof.
  rewrite existsb_exists. split.
  - intros (x & Hx & E). apply String.eqb_eq in E. subst. exact Hx.
  - intros H. exists k. split; [exact H | apply String.eqb_refl].
Qed.

Lemma put_In s n es k c :
  In (k, c) (Fs.put s n es) -> (k = s /\ c = n) \/ In (k, c) es.
Proof.
  induction es as [|[k0 c0] r IH]; simpl.
  - intros [[= <- <-]|[]]. left. auto.
  - destruct (String.eqb k0 s) eqn:E.
    + apply String.eqb_eq in E. subst k0. intros [[= <- <-]|H]; auto.
    + intros [H|H]; [right; left; exact H|].
      destruct (IH H) as [H1|H1]; auto.
Qed.

Lemma put_names s n es k :
  In k (map fst (Fs.put s n es)) -> k = s \/ In k (map fst es).
Proof.
  intros H. apply in_map_iff in H. destruct H as ([k1 c1] & <- & H).
  destruct (put_In _ _ _ _ _ H) as [[-> _]|H1]; [left; reflexivity|].
  right. apply in_map_iff. exists (k1, c1). auto.
Qed.

Lemma put_distinct s n es :
  distinct (map fst es) = true -> distinct (map fst (Fs.put s n es)) = true.
Proof.
  induction es as [|[k0 c0] r IH]; simpl; [reflexivity|].
  intros H. apply andb_prop in H. destruct H as [Hk Hr].
  destruct (String.eqb k0 s) eqn:E; simpl.
  - rewrite Hk, Hr. reflexivity.
  - rewrite (IH Hr), andb_true_r. apply negb_true_iff.
    apply negb_true_iff in Hk.
    destruct (existsb (String.eqb k0) (map fst (Fs.put s n r))) eqn:Ex; [|reflexivity].
    apply existsb_eqb_In in Ex. destruct (put_names _ _ _ _ Ex) as [->|Hin].
    + rewrite String.eqb_refl in E. discriminate E.
    + apply existsb_eqb_In in Hin. congruence.
Qed.

Lemma remove_distinct s es :
  distinct (map fst es) = true -> distinct (map fst (Fs.remove s es)) = true.
Proof.
  unfold Fs.remove. induction es as [|[k0 c0] r IH]; simpl; [reflexivity|].
  intros H. apply andb_prop in H. destruct H as [Hk Hr].
  destruct (negb (String.eqb k0 s)); simpl; [|apply IH, Hr].
  rewrite (IH Hr), andb_true_r. apply negb_true_iff. apply negb_true_iff in Hk.
  destruct (existsb (String.eqb k0)
              (map fst (filter (fun e => negb (String.eqb (fst e) s)) r))) eqn:Ex;
    [|reflexivity].
  apply existsb_eqb_In in Ex. apply in_map_iff in Ex.
  destruct Ex as (x & Hx & Hin). apply filter_In in Hin. destruct Hin as [Hin _].
  assert (Hin' : In k0 (map fst r)) by (apply in_map_iff; eauto).
  apply existsb_eqb_In in Hin'. congruence.
Qed.

Lemma set_entry_well_formed s o es :
  well_formed (Fs.Dir es) = true ->
  match o with Some n => well_formed n = true | None => True end ->
  well_formed (Fs.Dir (Fs.set_entry s o es)) = true.
Proof.
  intros Hwf Ho. destruct (well_formed_dir _ Hwf) as [Hd Hall].
  destruct o as [n|]; simpl.
  - apply well_formed_dir_intro; [apply put_distinct, Hd|].
    intros k c Hin. destruct (put_In _ _ _ _ _ Hin) as [[_ ->]|Hin']; eauto.
  - apply well_formed_dir_intro; [apply remove_distinct, Hd|].
    intros k c Hin. apply filter_In in Hin. destruct Hin as [Hin _]. eauto.
Qed.

Lemma alter_well_formed parents f p :
  (forall o o', f o = inr o' ->
     match o with Some n => well_formed n = true | None => True end ->
     match o' with Some n => well_formed n = true | None => True end) ->
  forall o o',
    Fs.alter parents f p o = inr o' ->
    match o with Some n => well_formed n = true | None => True end ->
    match o' with Some n => well_formed n = true | None => True end.
Proof.
  intros Hf. induction p as [|s r IH]; intros o o' Ha Hwf; simpl in Ha.
  - eapply Hf; eauto.
  - destruct o as [[c|es|]|]; try discriminate.
    + destruct (Fs.alter parents f r (Fs.lookup s es)) as [e|o1] eqn:E; [discriminate|].
      injection Ha as <-. apply set_entry_well_formed; [exact Hwf|].
      apply (IH _ _ E). destruct (Fs.lookup s es) as [n|] eqn:El; [|exact I].
      destruct (well_formed_dir _ Hwf) as [_ Hall]. eapply Hall, lookup_In, El.
    + destruct parents; [|discriminate].
      destruct (Fs.alter true f r None) as [e|o1] eqn:E; [discriminate|].
      injection Ha as <-. apply set_entry_well_formed; [reflexivity|].
      apply (IH _ _ E). exact I.
Qed.

Lemma mkdir_well_formed p root root' :
  Fs.mkdir p root = inr root' -> well_formed root = true -> well_formed root' = true.
Proof.
  unfold Fs.mkdir, Fs.change. intros H Hwf.
  destruct (Fs.alter true Fs.mkdir_at p (Some root)) as [e|[r|]] eqn:E; try discriminate.
  injection H as <-.
  refine (alter_well_formed true Fs.mkdir_at p _ (Some root) (Some r) E Hwf).
  intros [[c|es|]|] o' H; try discriminate; injection H as <-; auto.
Qed.

Lemma copyFile_well_formed s d root root' :
  Fs.copyFile s d root = inr root' -> well_formed root = true -> well_formed root' = true.
Proof.
  unfold Fs.copyFile, Fs.change. intros H Hwf.
  destruct (Fs.stat_from s root) as [e|[content|es|]]; try discriminate.
  destruct (Fs.alter false (Fs.write_at content) d (Some root)) as [e|[r|]] eqn:E;
    try discriminate.
  injection H as <-.
  refine (alter_well_formed false _ d _ (Some root) (Some r) E Hwf).
  intros [[c|es|]|] o' H; try discriminate; injection H as <-; auto.
Qed.

(** *** Directories stay directories *)

Lemma change_keeps_directories parents f p root root' :
  keeps_directories f ->
  Fs.change parents f p root = inr root' ->
  forall d, holds_directory d root -> holds_directory d root'.
Proof.
  unfold Fs.change, holds_directory, Fs.stat. intros Hf H d [es Hd].
  destruct (Fs.alter parents f p (Some root)) as [e|[r|]] eqn:E; try discriminate.
  injection H as <-.
  apply (alter_keeps parents f p Hf d (Some root) (Some r) (Fs.Dir es) E Hd).
Qed.

(** ** What a run leaves of the world *)

Section Preserve.

Variable R : world -> world -> Prop.
Hypothesis R_refl : forall w, R w w.
Hypothesis R_trans : forall a b c, R a b -> R b c -> R a c.

Lemma preserves_ret {A} (a : A) : preserves R (ret a).
Proof. intros w. apply R_refl. Qed.

Lemma preserves_throw {A} e : preserves R (@throw A e).
Proof. intros w. apply R_refl. Qed.

Lemma preserves_stuck {A} r : preserves R (@stuck_on A r).
Proof. intros w. apply R_refl. Qed.

Lemma preserves_read {A} (f : Fs.node -> Fs.errno + A) : preserves R (read_fs f).
Proof. intros w. unfold read_fs. destruct (f (fs w)); apply R_refl. Qed.

Lemma preserves_get_cwd : preserves R get_cwd.
Proof. intros w. apply R_refl. Qed.

Lemma preserves_bind {A B} (m : M A) (k : A -> M B) :
  preserves R m -> (forall a, preserves R (k a)) -> preserves R (bind m k).
Proof.
  intros Hm Hk w. unfold bind. specialize (Hm w).
  destruct (m w) as [[a|e|r] w1]; simpl in *; try exact Hm.
  eapply R_trans; [exact Hm | apply Hk].
Qed.

Lemma preserves_try_catch {A} (m : M A) handler :
  preserves R m -> (forall e, preserves R (handler e)) -> preserves R (try_catch m handler).
Proof.
  intros Hm Hh w. unfold try_catch. specialize (Hm w).
  destruct (m w) as [[a|e|r] w1]; simpl in *; try exact Hm.
  eapply R_trans; [exact Hm | apply Hh].
Qed.

Lemma preserves_for_of {A S} (xs : list A) (body : A -> S -> M S) :
  (forall x acc, preserves R (body x acc)) ->
  forall acc, preserves R (for_of xs body acc).
Proof.
  intros Hb. induction xs as [|x r IH]; intros acc; simpl.
  - apply preserves_ret.
  - apply preserves_bind; [apply Hb | exact IH].
Qed.

Lemma preserves_shouldExclude relativePath pats :
  preserves R (FileSystem.shouldExclude relativePath pats).
Proof.
  unfold FileSystem.shouldExclude.
  destruct (PathMatcher.shouldExclude relativePath pats);
    [apply preserves_ret | apply preserves_stuck].
Qed.

Hypothesis R_emit : forall l n, preserves R (emit l n).

Section Walk.

Variable dryRun : bool.
Hypothesis R_mkdir : dryRun = false -> forall p, preserves R (write_fs (Fs.mkdir p)).
Hypothesis R_copyFile :
  dryRun = false -> forall s d, preserves R (write_fs (Fs.copyFile s d)).

Lemma preserves_copyEntry recurse source dest rootSource pats entry stats :
  (forall s d stats', preserves R (recurse s d stats')) ->
  preserves R (copyEntry recurse source dest rootSource pats dryRun entry stats).
Proof.
  intros Hrec. unfold copyEntry.
  apply preserves_bind; [apply preserves_shouldExclude|]. intros excluded.
  destruct excluded.
  { apply preserves_bind; [apply R_emit | intros _; apply preserves_ret]. }
  destruct (Fs.isDirectory entry).
  { apply preserves_bind; [|intros stats'; apply Hrec].
    destruct dryRun eqn:Ed; cbn [negb]; [apply preserves_ret|].
    apply preserves_bind; [apply R_mkdir; reflexivity | intros _; apply preserves_ret]. }
  destruct (Fs.isFile entry); [|apply preserves_ret].
  destruct dryRun eqn:Ed; cbn [negb]; [apply preserves_ret|].
  apply preserves_bind; [apply preserves_read|]. intros fileStats.
  apply preserves_bind; [apply R_copyFile; reflexivity | intros _; apply preserves_ret].
Qed.

Lemma preserves_copyDirectoryRecursive fuel :
  forall source dest rootSource pats stats,
    preserves R (copyDirectoryRecursive fuel source dest rootSource pats stats dryRun).
Proof.
  induction fuel as [|fuel IH]; intros source dest rootSource pats stats.
  - apply preserves_stuck.
  - cbn [copyDirectoryRecursive].
    apply preserves_bind; [apply preserves_read|]. intros entries.
    apply preserves_for_of. intros entry acc.
    apply preserves_copyEntry. intros s d stats'. apply IH.
Qed.

Lemma preserves_copyDirectory fuel source dest pats :
  preserves R (copyDirectory fuel source dest pats dryRun).
Proof.
  unfold copyDirectory. apply preserves_bind.
  - destruct dryRun eqn:Ed.
    + apply preserves_bind; [apply R_emit | intros _; apply preserves_ret].
    + apply preserves_bind; [apply R_mkdir; reflexivity | intros _; apply preserves_ret].
  - intros stats. apply preserves_copyDirectoryRecursive.
Qed.

End Walk.

Lemma preserves_report_copy dryRun stats : preserves R (report_copy dryRun stats).
Proof.
  unfold report_copy. destruct dryRun.
  - apply preserves_bind; [apply R_emit|]. intros _.
    destruct (0 <? length (skipped stats))%nat; [apply R_emit | apply preserves_ret].
  - apply preserves_bind; [apply R_emit|]. intros _.
    destruct (0 <? length (skipped stats))%nat; [|apply preserves_ret].
    apply preserves_bind; [apply R_emit|]. intros _.
    apply preserves_bind.
    + apply preserves_for_of. intros x acc. apply R_emit.
    + intros _. destruct (10 <? length (skipped stats))%nat;
        [apply R_emit | apply preserves_ret].
Qed.

Lemma preserves_directoryExists p : preserves R (directoryExists p).
Proof.
  unfold directoryExists. apply preserves_try_catch.
  - apply preserves_bind; [apply preserves_read | intros n; apply preserves_ret].
  - intros e. apply preserves_ret.
Qed.

Lemma preserves_listBackups localeCompare target project configPath :
  preserves R (listBackups localeCompare target project configPath).
Proof.
  unfold listBackups. destruct target as [name tpath|name ssh tpath].
  - apply preserves_bind; [apply preserves_get_cwd|]. intros c.
    apply preserves_try_catch.
    + apply preserves_bind; [apply preserves_read|]. intros entries.
      apply preserves_bind; [|intros b; apply preserves_ret].
      apply preserves_for_of. intros entry acc.
      destruct (Fs.isDirectory entry); apply preserves_ret.
    + intros e. destruct (code e) as [[]|]; try apply preserves_throw.
      apply preserves_ret.
  - apply preserves_bind; [apply R_emit | intros _; apply preserves_ret].
Qed.

End Preserve.

Lemma untouched_refl w : untouched w w.
Proof. split; reflexivity. Qed.

Lemma untouched_trans a b c : untouched a b -> untouched b c -> untouched a c.
Proof. intros [H1 H2] [H3 H4]. split; congruence. Qed.

Lemma untouched_emit l n : preserves untouched (emit l n).
Proof. intros w. split; reflexivity. Qed.

Lemma untouched_copyDirectory_dry fuel source dest pats :
  preserves untouched (copyDirectory fuel source dest pats true).
Proof.
  apply preserves_copyDirectory;
    [exact untouched_refl | exact untouched_trans | exact untouched_emit
    | discriminate | discriminate].
Qed.

Lemma untouched_listBackups localeCompare target project configPath :
  preserves untouched (listBackups localeCompare target project configPath).
Proof.
  apply preserves_listBackups;
    [exact untouched_refl | exact untouched_trans | exact untouched_emit].
Qed.

Lemma untouched_createBackup_dry fuel project target timestamp configPath :
  preserves untouched (createBackup fuel project target timestamp configPath true).
Proof.
  unfold createBackup. destruct (is_local target); cbn [negb].
  - apply preserves_bind; [exact untouched_trans | apply preserves_get_cwd, untouched_refl|].
    intros c.
    apply preserves_bind; [exact untouched_trans | apply untouched_emit|]. intros _.
    apply preserves_bind; [exact untouched_trans | apply preserves_ret, untouched_refl|].
    intros _.
    apply preserves_bind; [exact untouched_trans | apply untouched_copyDirectory_dry|].
    intros stats.
    apply preserves_bind; [exact untouched_trans | |].
    + apply preserves_report_copy;
        [exact untouched_refl | exact untouched_trans | exact untouched_emit].
    + intros _. apply preserves_ret, untouched_refl.
  - apply preserves_throw, untouched_refl.
Qed.

Lemma untouched_restoreBackup_dry fuel backupPath destination :
  preserves untouched (restoreBackup fuel backupPath destination true).
Proof.
  unfold restoreBackup.
  apply preserves_bind; [exact untouched_trans | |].
  - apply preserves_directoryExists; [exact untouched_refl | exact untouched_trans].
  - intros [|]; [apply preserves_throw, untouched_refl|]. cbn [negb].
    apply preserves_bind; [exact untouched_trans | apply untouched_emit|]. intros _.
    apply untouched_emit.
Qed.

Lemma untouched_applyRetention_dry localeCompare target project maxBackups configPath :
  preserves untouched
    (applyRetention localeCompare target project maxBackups configPath true).
Proof.
  unfold applyRetention. destruct target as [name tpath|name ssh tpath].
  - apply preserves_bind; [exact untouched_trans | apply untouched_listBackups|].
    intros backups.
    destruct (Z.of_nat (length backups) >? maxBackups)%Z;
      [|apply preserves_ret, untouched_refl].
    apply preserves_for_of; [exact untouched_refl | exact untouched_trans|].
    intros backup acc. cbn [negb].
    apply preserves_bind; [exact untouched_trans | apply untouched_emit|]. intros _.
    apply preserves_ret, untouched_refl.
  - apply preserves_bind; [exact untouched_trans | apply untouched_emit|]. intros _.
    apply preserves_ret, untouched_refl.
Qed.

(** A dry run of [createBackup], of [restoreBackup] or of [applyRetention],
    and any run of [listBackups], leaves the file system as it is, whatever
    its arguments and its outcome. *)
Theorem dry_run_writes_nothing localeCompare fuel project target timestamp
    configPath backupPath destination maxBackups w :
  fs (snd (createBackup fuel project target timestamp configPath true w)) = fs w /\
  fs (snd (restoreBackup fuel backupPath destination true w)) = fs w /\
  fs (snd (applyRetention localeCompare target (project_name project) maxBackups
             configPath true w)) = fs w /\
  fs (snd (listBackups localeCompare target (project_name project) configPath w)) = fs w.
Proof.
  split; [apply untouched_createBackup_dry|].
  split; [apply untouched_restoreBackup_dry|].
  split; [apply untouched_applyRetention_dry | apply untouched_listBackups].
Qed.

Lemma continues_refl w : continues w w.
Proof. split; [reflexivity|]. split; auto. Qed.

Lemma continues_trans a b c : continues a b -> continues b c -> continues a c.
Proof.
  intros (H1 & H2 & H3) (H4 & H5 & H6). split; [congruence|]. split; auto.
Qed.

Lemma continues_emit l n : preserves continues (emit l n).
Proof. intros w. split; [reflexivity|]. split; auto. Qed.

Lemma continues_mkdir p : preserves continues (write_fs (Fs.mkdir p)).
Proof.
  intros w. unfold write_fs.
  destruct (Fs.mkdir p (fs w)) as [e|root'] eqn:E; [apply continues_refl|].
  split; [reflexivity|]. split; simpl.
  - eapply change_keeps_directories; [apply mkdir_keeps | exact E].
  - eapply mkdir_well_formed; eauto.
Qed.

Lemma continues_copyFile s d : preserves continues (write_fs (Fs.copyFile s d)).
Proof.
  intros w. unfold write_fs.
  destruct (Fs.copyFile s d (fs w)) as [e|root'] eqn:E; [apply continues_refl|].
  split; [reflexivity|]. split; simpl.
  - unfold Fs.copyFile in E.
    destruct (Fs.stat_from s (fs w)) as [e|[content|es|]]; try discriminate.
    eapply change_keeps_directories; [apply write_keeps | exact E].
  - eapply copyFile_well_formed; eauto.
Qed.

Lemma continues_copyDirectory fuel source dest pats dryRun :
  preserves continues (copyDirectory fuel source dest pats dryRun).
Proof.
  apply preserves_copyDirectory;
    [exact continues_refl | exact continues_trans | exact continues_emit
    | intros _; exact continues_mkdir | intros _; exact continues_copyFile].
Qed.

Lemma continues_ensureDirectoryExists p dryRun :
  preserves continues (ensureDirectoryExists p dryRun).
Proof.
  unfold ensureDirectoryExists. destruct dryRun; [apply continues_emit|].
  apply preserves_try_catch; [exact continues_trans | apply continues_mkdir|].
  intros e. destruct (code e) as [[]|];
    try (apply preserves_throw, continues_refl). apply preserves_ret, continues_refl.
Qed.

Lemma continues_report_copy dryRun stats : preserves continues (report_copy dryRun stats).
Proof.
  apply preserves_report_copy;
    [exact continues_refl | exact continues_trans | exact continues_emit].
Qed.

(** *** Where backups are written and where they are listed *)

Lemma normalize_onto_plain name : forall segs acc,
  plain_name name = true ->
  normalize_onto acc (segs ++ [name]) = normalize_onto acc segs ++ [name].
Proof.
  intros segs acc Hp. unfold plain_name in Hp.
  apply andb_prop in Hp. destruct Hp as [Hp H3]. apply andb_prop in Hp.
  destruct Hp as [H1 H2]. apply negb_true_iff in H1, H2, H3.
  revert acc. induction segs as [|s r IH]; intros acc; simpl.
  - rewrite H1, H2, H3. reflexivity.
  - destruct (String.eqb s "."); [apply IH|].
    destruct (String.eqb s ".."); [apply IH|].
    destruct (String.eqb s ""); apply IH.
Qed.

Lemma pieces_entry s : no_separator s = true -> pieces s = [s].
Proof.
  induction s as [|c r IH]; [reflexivity|]. cbn [no_separator pieces]. intros H.
  apply andb_prop in H. destruct H as [Hc Hr]. apply negb_true_iff in Hc.
  rewrite Hc, (IH Hr). reflexivity.
Qed.

Lemma entry_name_relative s : no_separator s = true -> prefix "/" s = false.
Proof.
  destruct s as [|c r]; [reflexivity|]. cbn [no_separator prefix]. intros H.
  apply andb_prop in H. destruct H as [Hc _]. apply negb_true_iff in Hc.
  destruct (Ascii.ascii_dec "/" c) as [<-|Hne]; [|reflexivity].
  rewrite Ascii.eqb_refl in Hc. discriminate Hc.
Qed.

Lemma entry_name_parts s :
  entry_name s = true -> plain_name s = true /\ no_separator s = true.
Proof. unfold entry_name. intros H. apply andb_prop in H. exact H. Qed.

(** [path.join] appends the name of an entry. *)
Lemma join_strings_entry dir s :
  entry_name s = true -> join_strings dir [s] = join dir [s].
Proof.
  intros H. destruct (entry_name_parts s H) as [Hp Hs].
  unfold join_strings, join. cbn [flat_map]. rewrite (pieces_entry s Hs), app_nil_r.
  change [s] with ([] ++ [s]) at 1.
  rewrite (normalize_onto_plain s [] (rev dir) Hp). cbn [normalize_onto app].
  rewrite rev_involutive. reflexivity.
Qed.

(** The directory that [listBackups] reads is the directory of the target
    extended by the name of the project. *)
Lemma projectBackupDir_entry cwd0 tpath project configPath :
  entry_name project = true ->
  projectBackupDir cwd0 tpath project configPath =
  resolved_target_path cwd0 tpath configPath ++ [project].
Proof.
  intros H. destruct (entry_name_parts project H) as [Hp Hs].
  unfold projectBackupDir, resolved_target_path, resolve.
  destruct (isAbsolute tpath).
  - apply (join_strings_entry (absolute tpath) project H).
  - destruct configPath as [c|];
      cbn [segments from_root fold_left of_string isAbsolute];
      rewrite (entry_name_relative project Hs), (pieces_entry project Hs);
      apply (normalize_onto_plain project _ _ Hp).
Qed.

(** The path that [getBackupPath] gives is the directory of the target
    extended by the name of the project and the id. *)
Lemma getBackupPath_entry cwd0 name tpath project ts configPath :
  entry_name project = true ->
  entry_name ts = true ->
  segments (getBackupPath cwd0 (LocalBackupTarget name tpath) project ts configPath) =
  resolved_target_path cwd0 tpath configPath ++ [project; ts].
Proof.
  intros Hproject Hts.
  destruct (entry_name_parts project Hproject) as [Hp Hs].
  destruct (entry_name_parts ts Hts) as [Hp' Hs'].
  unfold getBackupPath. fold (resolved_target_path cwd0 tpath configPath).
  cbn [segments from_root]. unfold join_strings. cbn [flat_map].
  rewrite (pieces_entry project Hs), (pieces_entry ts Hs'), app_nil_r.
  rewrite (normalize_onto_plain ts [project] _ Hp').
  change [project] with ([] ++ [project]) at 1.
  rewrite (normalize_onto_plain project [] _ Hp). cbn [normalize_onto].
  rewrite rev_involutive, <- app_assoc. reflexivity.
Qed.

(** The directory that [listBackups] reads, extended by an id, is the path
    that [getBackupPath] gives for the id. *)
Lemma backup_path_in_project_dir cwd0 name tpath project ts configPath :
  entry_name project = true ->
  entry_name ts = true ->
  segments (getBackupPath cwd0 (LocalBackupTarget name tpath) project ts configPath) =
  join (projectBackupDir cwd0 tpath project configPath) [ts].
Proof.
  intros Hproject Hts.
  rewrite (getBackupPath_entry _ _ _ _ _ _ Hproject Hts),
          (projectBackupDir_entry _ _ _ _ Hproject).
  unfold join. rewrite <- app_assoc. reflexivity.
Qed.

(** For other texts [path.join] normalizes: an id [..] leads to the
    directory of the target, an id with a separator to a directory further
    down, and the project [.] has the directory of the target for its own;
    the path of a remote target that is relative stays relative. *)
Example getBackupPath_normalizes :
  segments (getBackupPath ["proj"] sample_local "proj" ".." None) = ["backups"] /\
  segments (getBackupPath ["proj"] sample_local "proj" "a/b" None)
    = ["backups"; "proj"; "a"; "b"] /\
  projectBackupDir ["proj"] (CPath true ["backups"]) "." None = ["backups"] /\
  getBackupPath ["proj"] (RemoteBackupTarget "offsite" None (CPath false [".."; "srv"]))
    "proj" sample_id None
    = CPath false [".."; "srv"; "proj"; sample_id].
Proof. repeat split; reflexivity. Qed.

(** The steps of a real [createBackup] that returned. *)
Lemma createBackup_real fuel project name tpath ts configPath w bp w' :
  createBackup fuel project (LocalBackupTarget name tpath) ts configPath false w
    = (Ok bp, w') ->
  bp = segments (getBackupPath (cwd w) (LocalBackupTarget name tpath)
                   (project_name project) ts configPath) /\
  exists w1 stats w2,
    ensureDirectoryExists bp false
      (logged LInfo
         (BackingUp (project_name project)
            (resolved_project_path (cwd w) project configPath) bp) w) = (Ok tt, w1) /\
    copyDirectory fuel (resolved_project_path (cwd w) project configPath) bp
      (patterns_of project) false w1 = (Ok stats, w2) /\
    untouched w2 w'.
Proof.
  unfold createBackup. cbn [is_local negb]. unfold bind at 1. unfold get_cwd.
  fold (resolved_project_path (cwd w) project configPath). fold (patterns_of project).
  set (backupPath := segments (getBackupPath (cwd w) (LocalBackupTarget name tpath)
                                 (project_name project) ts configPath)).
  unfold bind at 1. unfold emit at 1. unfold bind at 1.
  destruct (ensureDirectoryExists backupPath false _) as [[[]|e|r] w1] eqn:E1;
    try discriminate.
  unfold bind at 1.
  destruct (copyDirectory fuel _ backupPath (patterns_of project) false w1)
    as [[stats|e|r] w2] eqn:E2; try discriminate.
  unfold bind. 
  pose proof (preserves_report_copy untouched untouched_refl untouched_trans
                untouched_emit false stats w2) as Hrep.
  destruct (report_copy false stats w2) as [[[]|e|r] w3]; try discriminate.
  unfold ret. intros [= <- <-]. split; [reflexivity|].
  exists w1, stats, w2. auto.
Qed.

Lemma copyDirectory_makes_destination fuel source dest pats w stats w' :
  copyDirectory fuel source dest pats false w = (Ok stats, w') ->
  holds_directory dest (fs w') /\ cwd w' = cwd w /\
  exists root1, Fs.mkdir dest (fs w) = inr root1.
Proof.
  intros Hrun. unfold copyDirectory, bind, write_fs in Hrun. cbn [negb] in Hrun.
  destruct (Fs.mkdir dest (fs w)) as [e|root1] eqn:Emk; [discriminate|].
  unfold ret in Hrun.
  pose proof (preserves_copyDirectoryRecursive continues continues_refl continues_trans
                continues_emit false (fun _ => continues_mkdir)
                (fun _ => continues_copyFile) fuel source dest source pats
                (count_directory (MkCopyStats 0 0 0 [])) (World root1 (log w) (cwd w)))
    as (Hcwd & Hdirs & _).
  rewrite Hrun in Hcwd, Hdirs. cbn [snd fs cwd] in *.
  split; [|split; [exact Hcwd | eauto]].
  apply Hdirs. unfold Fs.mkdir, Fs.change in Emk.
  destruct (Fs.alter true Fs.mkdir_at dest (Some (fs w))) as [e|[r|]] eqn:E;
    try discriminate.
  injection Emk as <-. destruct (mkdir_makes_directory _ _ _ E) as [es Hes].
  exists es. exact Hes.
Qed.

(** A real [createBackup] that returned has left a directory at the path it
    returned, which is the directory of the project's backups extended by the
    id. *)
Lemma createBackup_makes_directory fuel project name tpath ts configPath w bp w' :
  entry_name (project_name project) = true ->
  entry_name ts = true ->
  createBackup fuel project (LocalBackupTarget name tpath) ts configPath false w
    = (Ok bp, w') ->
  cwd w' = cwd w /\
  bp = join (projectBackupDir (cwd w) tpath (project_name project) configPath) [ts] /\
  holds_directory bp (fs w').
Proof.
  intros Hplain Hts Hrun.
  destruct (createBackup_real _ _ _ _ _ _ _ _ _ Hrun)
    as (Hbp & w1 & stats & w2 & E1 & E2 & Hfs & Hcwd).
  destruct (copyDirectory_makes_destination _ _ _ _ _ _ _ E2) as (Hdir & Hcwd2 & _).
  pose proof (continues_ensureDirectoryExists bp false
                (logged LInfo
                   (BackingUp (project_name project)
                      (resolved_project_path (cwd w) project configPath) bp) w))
    as (Hcwd1 & _).
  rewrite E1 in Hcwd1. cbn [snd cwd logged] in Hcwd1.
  split; [congruence|]. split.
  - rewrite Hbp. apply backup_path_in_project_dir; assumption.
  - rewrite Hfs. exact Hdir.
Qed.

(** A directory that stands in [dir] is in the listing of [dir], as a
    directory. *)
Lemma directory_is_listed dir k root :
  holds_directory (dir ++ [k]) root ->
  exists entries,
    Fs.readdir dir root = inr entries /\ In (Fs.MkDirent k Fs.KDir) entries.
Proof.
  intros [sub Hdir]. unfold Fs.stat in Hdir. rewrite stat_app in Hdir.
  unfold Fs.readdir.
  destruct (Fs.stat_from dir root) as [e|[c|es|]]; try discriminate.
  simpl in Hdir. destruct (Fs.lookup k es) as [n|] eqn:El; [|discriminate].
  injection Hdir as ->. eexists. split; [reflexivity|].
  change (Fs.MkDirent k Fs.KDir) with (Fs.dirent_of (k, Fs.Dir sub)).
  apply in_map, lookup_In, El.
Qed.

Lemma listed_directory_is_backup localeCompare dir project entries k :
  In (Fs.MkDirent k Fs.KDir) entries ->
  In (MkBackupInfo k (join dir [k]) project)
     (JSArray.sort (newest_first localeCompare) (backups_of dir project entries)).
Proof.
  intros Hin. eapply Permutation_in; [apply Permutation_sym, sort_perm|].
  unfold backups_of. apply in_map_iff.
  exists (Fs.MkDirent k Fs.KDir). split; [reflexivity|].
  apply filter_In. split; [exact Hin | reflexivity].
Qed.

(** A backup that [createBackup] made is among those that [listBackups]
    returns afterwards, under its id and with the path that [createBackup]
    returned, when the name of the project and the id are names that an
    entry of a directory can bear. *)
Theorem created_backup_is_listed localeCompare fuel project name tpath ts
    configPath w bp w' :
  entry_name (project_name project) = true ->
  entry_name ts = true ->
  createBackup fuel project (LocalBackupTarget name tpath) ts configPath false w
    = (Ok bp, w') ->
  exists backups,
    listBackups localeCompare (LocalBackupTarget name tpath) (project_name project)
      configPath w' = (Ok backups, w') /\
    In (MkBackupInfo ts bp (project_name project)) backups.
Proof.
  intros Hplain Hts Hrun.
  destruct (createBackup_makes_directory _ _ _ _ _ _ _ _ _ Hplain Hts Hrun)
    as (Hcwd & -> & Hdir).
  destruct (directory_is_listed _ _ _ Hdir) as (entries & Hread & Hin).
  rewrite listBackups_local, Hcwd, Hread.
  eexists. split; [reflexivity|]. apply listed_directory_is_backup, Hin.
Qed.

(** *** Backup and restore *)

Lemma visible_nil rootSource rel : forall source,
  visible_from rootSource [] source rel = true.
Proof.
  induction rel as [|k r IH]; intros source; simpl; [reflexivity|]. apply IH.
Qed.

Lemma ensure_step p w w1 :
  ensureDirectoryExists p false w = (Ok tt, w1) ->
  fs w1 = fs w \/ Fs.mkdir p (fs w) = inr (fs w1).
Proof.
  unfold ensureDirectoryExists, try_catch, write_fs.
  destruct (Fs.mkdir p (fs w)) as [c|root1].
  - destruct c; simpl; try discriminate. intros [= <-]. left. reflexivity.
  - intros [= <-]. right. reflexivity.
Qed.

Lemma mkdir_holds_no_file p dest root root' :
  Fs.mkdir p root = inr root' -> holds_no_file dest root -> holds_no_file dest root'.
Proof.
  intros Hmk H rel c Hc. apply (H rel c). eapply mkdir_reflects_file; eauto.
Qed.

Lemma mkdir_agree source dest root root' :
  separate source dest -> Fs.mkdir dest root = inr root' ->
  forall rel, Fs.stat (source ++ rel) root' = Fs.stat (source ++ rel) root.
Proof.
  intros Hsep Hmk rel. apply (mkdir_frame _ _ _ Hmk).
  apply separate_sym, separate_app_l, Hsep.
Qed.

(** Made ready by [ensureDirectoryExists], a destination that held no file
    receives from [copyDirectory] the files of the source that no exclusion
    hides, and no other. *)
Lemma ensured_copy_is_exact fuel source dest pats w w1 stats w2 :
  well_formed (fs w) = true ->
  separate source dest ->
  holds_no_file dest (fs w) ->
  ensureDirectoryExists dest false w = (Ok tt, w1) ->
  copyDirectory fuel source dest pats false w1 = (Ok stats, w2) ->
  well_formed (fs w2) = true /\
  forall rel content,
    Fs.stat (dest ++ rel) (fs w2) = inr (Fs.File content) <->
    visible_from source pats source rel = true /\
    Fs.stat (source ++ rel) (fs w) = inr (Fs.File content).
Proof.
  intros Hwf Hsep Hfresh E1 E2.
  assert (H1 : well_formed (fs w1) = true /\ holds_no_file dest (fs w1) /\
               agree_below source (fs w1) (fs w)).
  { destruct (ensure_step _ _ _ E1) as [Hsame|Hmk].
    - rewrite Hsame. split; [exact Hwf|]. split; [exact Hfresh|]. intros q _. reflexivity.
    - split; [eapply mkdir_well_formed; eauto|].
      split; [eapply mkdir_holds_no_file; eauto|].
      eapply (agree_after_writes source dest (fs w)); eauto.
      + apply mkdir_frame, Hmk.
      + intros q _. reflexivity. }
  destruct H1 as (Hwf1 & Hfresh1 & Hag).
  split.
  - pose proof (continues_copyDirectory fuel source dest pats false w1) as (_ & _ & H).
    rewrite E2 in H. apply H, Hwf1.
  - destruct (mirror_copyDirectory fuel source dest pats (fs w) Hwf Hsep stats w1 stats w2
                Hag E2) as (_ & HA & _ & HD).
    intros rel c. split.
    + intros Hq. destruct (HD _ _ Hq) as [Hold|(rel' & Heq & _ & Hvis & Hc)].
      * exfalso. exact (Hfresh1 _ _ Hold).
      * apply app_inv_head in Heq. subst rel'. auto.
    + intros [Hvis Hc]. apply HA; auto.
Qed.

(** The steps of a real [restoreBackup] that returned: nothing stood at the
    destination. *)
Lemma restoreBackup_real fuel backupPath dest w w' :
  restoreBackup fuel backupPath dest false w = (Ok tt, w') ->
  exists code w1 stats w2,
    Fs.stat dest (fs w) = inl code /\
    ensureDirectoryExists dest false
      (logged LInfo (RestoringBackup backupPath dest) w) = (Ok tt, w1) /\
    copyDirectory fuel backupPath dest [] false w1 = (Ok stats, w2) /\
    w' = logged LSuccess (RestoredBackup dest) w2.
Proof.
  intros Hrun. unfold restoreBackup in Hrun. unfold bind at 1 in Hrun.
  rewrite directoryExists_run in Hrun.
  destruct (Fs.stat dest (fs w)) as [code|n] eqn:Ed.
  - cbn [negb] in Hrun. unfold bind at 1 in Hrun. unfold emit at 1 in Hrun.
    unfold bind at 1 in Hrun.
    destruct (ensureDirectoryExists dest false _) as [[[]|e|r] w1] eqn:E1;
      try discriminate.
    unfold bind at 1 in Hrun.
    destruct (copyDirectory fuel backupPath dest [] false w1) as [[stats|e|r] w2] eqn:E2;
      try discriminate.
    unfold emit in Hrun. injection Hrun as <-.
    exists code, w1, stats, w2. auto.
  - destruct (Fs.node_isDirectory n) eqn:En; [discriminate|].
    cbn [negb] in Hrun. unfold bind at 1 in Hrun. unfold emit at 1 in Hrun.
    unfold bind at 1 in Hrun.
    destruct (ensureDirectoryExists dest false _) as [[[]|e|r] w1] eqn:E1;
      try discriminate.
    unfold bind at 1 in Hrun.
    destruct (copyDirectory fuel backupPath dest [] false w1) as [[stats|e|r] w2] eqn:E2;
      try discriminate.
    exfalso.
    destruct (copyDirectory_makes_destination _ _ _ _ _ _ _ E2) as (_ & _ & root1 & Hmk).
    assert (Hfs : Fs.stat dest (fs w1) = inr n).
    { destruct (ensure_step _ _ _ E1) as [Hsame|Hmk1].
      - rewrite Hsame. exact Ed.
      - cbn [fs logged] in Hmk1. exfalso.
        unfold Fs.mkdir, Fs.change in Hmk1.
        destruct (Fs.alter true Fs.mkdir_at dest (Some (fs w))) as [e|[r|]] eqn:E;
          try discriminate.
        destruct (alter_at _ _ _ _ _ _ E Ed) as (o1 & Hf & _).
        destruct n; discriminate. }
    unfold Fs.mkdir, Fs.change in Hmk.
    destruct (Fs.alter true Fs.mkdir_at dest (Some (fs w1))) as [e|[r|]] eqn:E;
      try discriminate.
    destruct (alter_at _ _ _ _ _ _ E Hfs) as (o1 & Hf & _).
    destruct n; discriminate.
Qed.

(** A real [restoreBackup] that returns has put at the destination the
    regular files of the backup, each at its place and with its content,
    and no other file. *)
Theorem restore_is_exact fuel backupPath dest w w' :
  well_formed (fs w) = true ->
  separate backupPath dest ->
  restoreBackup fuel backupPath dest false w = (Ok tt, w') ->
  forall rel content,
    Fs.stat (dest ++ rel) (fs w') = inr (Fs.File content) <->
    Fs.stat (backupPath ++ rel) (fs w) = inr (Fs.File content).
Proof.
  intros Hwf Hsep Hrun.
  destruct (restoreBackup_real _ _ _ _ _ Hrun) as (code & w1 & stats & w2 & Ed & E1 & E2 & ->).
  destruct (ensured_copy_is_exact fuel backupPath dest []
              (logged LInfo (RestoringBackup backupPath dest) w) w1 stats w2 Hwf Hsep
              (missing_holds_no_file _ _ _ Ed) E1 E2) as [_ H].
  intros rel c. cbn [fs logged] in *. rewrite H, visible_nil. tauto.
Qed.

(** Backup, then restore: when both return, the regular files at the
    destination of the restore are those of the project that no exclusion
    pattern hides, each at its place and with its content.  The backup is
    made where no file stood, apart from the project; the restore goes
    apart from the backup. *)
Theorem backup_restore_round_trip fuel project name tpath ts configPath dest
    w bp w1 w2 :
  well_formed (fs w) = true ->
  separate (resolved_project_path (cwd w) project configPath) bp ->
  separate bp dest ->
  holds_no_file bp (fs w) ->
  createBackup fuel project (LocalBackupTarget name tpath) ts configPath false w
    = (Ok bp, w1) ->
  restoreBackup fuel bp dest false w1 = (Ok tt, w2) ->
  forall rel content,
    Fs.stat (dest ++ rel) (fs w2) = inr (Fs.File content) <->
    visible_from (resolved_project_path (cwd w) project configPath)
      (patterns_of project)
      (resolved_project_path (cwd w) project configPath) rel = true /\
    Fs.stat (resolved_project_path (cwd w) project configPath ++ rel) (fs w)
      = inr (Fs.File content).
Proof.
  intros Hwf Hsep1 Hsep2 Hfresh Hbackup Hrestore.
  destruct (createBackup_real _ _ _ _ _ _ _ _ _ Hbackup)
    as (_ & w0 & stats & w0' & E1 & E2 & Hfs & _).
  destruct (ensured_copy_is_exact fuel _ bp (patterns_of project)
              (logged LInfo
                 (BackingUp (project_name project)
                    (resolved_project_path (cwd w) project configPath) bp) w)
              w0 stats w0' Hwf Hsep1 Hfresh E1 E2) as [Hwf1 Hexact].
  rewrite <- Hfs in Hwf1.
  destruct (restoreBackup_real _ _ _ _ _ Hrestore)
    as (code & w3 & stats3 & w4 & Ed & E3 & E4 & ->).
  destruct (ensured_copy_is_exact fuel bp dest []
              (logged LInfo (RestoringBackup bp dest) w1) w3 stats3 w4 Hwf1 Hsep2
              (missing_holds_no_file _ _ _ Ed) E3 E4) as [_ H].
  intros rel c. cbn [fs logged] in *. rewrite H, visible_nil, Hfs.
  rewrite Hexact. tauto.
Qed.

Lemma created_backup_is_listed_witness :
  exists backups,
    listBackups code_unit_compare sample_local "proj" None sample_after_backup
      = (Ok backups, sample_after_backup) /\
    In (MkBackupInfo sample_id ["backups"; "proj"; sample_id] "proj") backups.
Proof.
  apply (created_backup_is_listed code_unit_compare 8 sample_project "disk"
           (CPath true ["backups"]) sample_id None sample_world).
  - reflexivity.
  - reflexivity.
  - reflexivity.
Defined.

Lemma restore_is_exact_witness :
  Fs.stat (["restored"] ++ ["a.txt"]) (fs sample_after_restore) = inr (Fs.File "aaa").
Proof.
  apply (restore_is_exact 8 ["backups"; "proj"; sample_id] ["restored"]
           sample_after_backup sample_after_restore).
  - reflexivity.
  - split; reflexivity.
  - reflexivity.
  - reflexivity.
Defined.

Lemma backup_restore_round_trip_witness :
  Fs.stat (["restored"] ++ ["sub"; "c.txt"]) (fs sample_after_restore)
    = inr (Fs.File "c").
Proof.
  apply (backup_restore_round_trip 8 sample_project "disk" (CPath true ["backups"])
           sample_id None ["restored"] sample_world
           ["backups"; "proj"; sample_id] sample_after_backup sample_after_restore
           eq_refl (conj eq_refl eq_refl) (conj eq_refl eq_refl)
           (missing_holds_no_file ["backups"; "proj"; sample_id] sample_tree
              Fs.ENOENT eq_refl)
           eq_refl eq_refl).
  split; reflexivity.
Defined.

(** The scenario: what the exclusion pattern hid from the backup does not
    come back with the restore. *)
Example round_trip_scenario :
  Fs.stat ["restored"; "a.txt"] (fs sample_after_restore) = inr (Fs.File "aaa") /\
  Fs.stat ["restored"; "sub"; "c.txt"] (fs sample_after_restore) = inr (Fs.File "c") /\
  Fs.stat ["restored"; "node_modules"] (fs sample_after_restore) = inl Fs.ENOENT /\
  Fs.stat ["restored"; "sub"; "link"] (fs sample_after_restore) = inl Fs.ENOENT.
Proof. repeat split; reflexivity. Qed.

(** *** A backup that fails *)

Lemma mkdir_twice p root root1 :
  Fs.mkdir p root = inr root1 -> Fs.mkdir p root1 = inr root1.
Proof.
  unfold Fs.mkdir, Fs.change. intros H.
  destruct (Fs.alter true Fs.mkdir_at p (Some root)) as [e|[r|]] eqn:E; try discriminate.
  injection H as <-. destruct (mkdir_makes_directory _ _ _ E) as [es Hes].
  simpl in Hes. rewrite (mkdir_existing _ _ _ Hes). reflexivity.
Qed.

(** When the directory of the project cannot be read (it is missing, or is
    no directory), a real [createBackup] throws the error of [readdir], but
    only after it has made the directory of the backup: the directory stays,
    empty as it was made, and [listBackups] reports it as a backup; the name
    of the project and the id being names that an entry of a directory can
    bear. *)
Theorem failed_backup_leaves_directory localeCompare fuel project name tpath ts
    configPath w code root1 :
  let target := LocalBackupTarget name tpath in
  let bp := segments (getBackupPath (cwd w) target (project_name project) ts
                        configPath) in
  let pp := resolved_project_path (cwd w) project configPath in
  0 < fuel ->
  entry_name (project_name project) = true ->
  entry_name ts = true ->
  separate pp bp ->
  Fs.readdir pp (fs w) = inl code ->
  Fs.mkdir bp (fs w) = inr root1 ->
  exists w',
    createBackup fuel project target ts configPath false w
      = (Throw (SystemError code), w') /\
    fs w' = root1 /\
    exists backups,
      listBackups localeCompare target (project_name project) configPath w'
        = (Ok backups, w') /\
      In (MkBackupInfo ts bp (project_name project)) backups.
Proof.
  intros target bp pp Hfuel Hplain Hts Hsep Hread Hmk.
  assert (Hread1 : Fs.readdir pp root1 = inl code).
  { unfold Fs.readdir in *. pose proof (mkdir_frame _ _ _ Hmk pp (separate_sym _ _ Hsep)) as H.
    unfold Fs.stat in H. rewrite H. exact Hread. }
  exists (World root1 (log w ++ [(LInfo, BackingUp (project_name project) pp bp)]) (cwd w)).
  split; [|split; [reflexivity|]].
  - unfold createBackup, target. cbn [is_local negb]. unfold bind at 1. unfold get_cwd.
    fold target. fold bp. fold (resolved_project_path (cwd w) project configPath).
    fold pp. fold (patterns_of project).
    unfold bind at 1. unfold emit at 1. unfold bind at 1.
    unfold ensureDirectoryExists, try_catch, write_fs at 1. cbn [fs logged log cwd].
    rewrite Hmk. unfold bind at 1. unfold copyDirectory, bind at 1.
    unfold bind at 1. unfold write_fs. cbn [fs log cwd negb].
    rewrite (mkdir_twice _ _ _ Hmk). unfold ret at 1.
    destruct fuel as [|fuel]; [lia|]. cbn [copyDirectoryRecursive].
    unfold bind at 1. unfold read_fs. cbn [fs]. rewrite Hread1. reflexivity.
  - assert (Hdir : holds_directory bp root1).
    { unfold Fs.mkdir, Fs.change in Hmk.
      destruct (Fs.alter true Fs.mkdir_at bp (Some (fs w))) as [e|[r|]] eqn:E;
        try discriminate.
      injection Hmk as <-. destruct (mkdir_makes_directory _ _ _ E) as [es Hes].
      exists es. exact Hes. }
    unfold bp in Hdir. unfold target in Hdir.
    rewrite (backup_path_in_project_dir _ _ _ _ _ _ Hplain Hts) in Hdir.
    destruct (directory_is_listed _ _ _ Hdir) as (entries & Hrd & Hin).
    unfold target. rewrite listBackups_local. cbn [fs cwd]. rewrite Hrd.
    eexists. split; [reflexivity|].
    unfold bp, target. rewrite (backup_path_in_project_dir _ _ _ _ _ _ Hplain Hts).
    apply listed_directory_is_backup, Hin.
Qed.

Lemma failed_backup_leaves_directory_witness :
  exists w',
    createBackup 8 sample_missing_project sample_local sample_id None false sample_world
      = (Throw (SystemError Fs.ENOENT), w') /\
    fs w' = sample_made /\
    exists backups,
      listBackups code_unit_compare sample_local "gone" None w' = (Ok backups, w') /\
      In (MkBackupInfo sample_id ["backups"; "gone"; sample_id] "gone") backups.
Proof.
  apply (failed_backup_leaves_directory code_unit_compare 8 sample_missing_project
           "disk" (CPath true ["backups"]) sample_id None sample_world Fs.ENOENT
           sample_made).
  - lia.
  - reflexivity.
  - reflexivity.
  - split; reflexivity.
  - reflexivity.
  - reflexivity.
Defined.

(** ** Retention, further *)

Lemma backups_of_In dir project entries b :
  In b (backups_of dir project entries) <->
  exists e, In e entries /\ Fs.isDirectory e = true /\
            b = MkBackupInfo (Fs.name e) (join dir [Fs.name e]) project.
Proof.
  unfold backups_of. rewrite in_map_iff. split.
  - intros (e & <- & He). apply filter_In in He. destruct He. eauto.
  - intros (e & He & Hd & ->). exists e. split; [reflexivity|].
    apply filter_In. auto.
Qed.

Lemma skipn_In {A} n (a : list A) x : In x (skipn n a) -> In x a.
Proof.
  intros H. rewrite <- (firstn_skipn n a). apply in_or_app. right. exact H.
Qed.

Lemma slice_In {A} (start : Z) (a : list A) x : In x (JSArray.slice start a) -> In x a.
Proof. unfold JSArray.slice. destruct (start <? 0)%Z; apply skipn_In. Qed.

Lemma retention_frame localeCompare name tpath project configPath maxBackups dryRun w :
  unchanged_outside (projectBackupDir (cwd w) tpath project configPath) (fs w)
    (fs (snd (applyRetention localeCompare (LocalBackupTarget name tpath) project
                maxBackups configPath dryRun w))).
Proof.
  unfold applyRetention. unfold bind at 1. rewrite listBackups_local.
  set (dir := projectBackupDir (cwd w) tpath project configPath).
  destruct (Fs.readdir dir (fs w)) as [c|entries] eqn:Hread.
  { destruct c; try (intros q _; reflexivity).
    destruct (Z.of_nat _ >? maxBackups)%Z; [|intros q _; reflexivity].
    unfold JSArray.slice. destruct (maxBackups <? 0)%Z; rewrite skipn_nil;
      intros q _; reflexivity. }
  destruct (Z.of_nat _ >? maxBackups)%Z; [|intros q _; reflexivity].
  assert (Hpaths : Forall (fun b => backup_path b = join dir [timestamp b])
                     (JSArray.slice maxBackups
                        (JSArray.sort (newest_first localeCompare)
                           (backups_of dir project entries)))).
  { apply Forall_forall. intros b Hb. apply slice_In in Hb.
    eapply Permutation_in in Hb; [|apply sort_perm].
    unfold backups_of in Hb. apply in_map_iff in Hb. destruct Hb as (e & <- & _).
    reflexivity. }
  rewrite (retention_loop dir);
    [|eapply readdir_holds_directory, Hread | exact Hpaths].
  cbn [snd]. intros q Hq. apply (after_retention_apart dir dryRun _ q w Hpaths).
  intros b _. apply separate_app_l, Hq.
Qed.

(** [applyRetention] changes nothing outside the directory in which
    [listBackups] looks for the backups of the project, whatever its
    arguments and whatever the directory holds.  When the name of the
    project is a name that an entry of a directory can bear, the backups of
    every project of another such name, on the same target, are as they
    were. *)
Theorem retention_stays_in_project_dir localeCompare name tpath project configPath
    maxBackups dryRun w :
  let w' := snd (applyRetention localeCompare (LocalBackupTarget name tpath) project
                   maxBackups configPath dryRun w) in
  unchanged_outside (projectBackupDir (cwd w) tpath project configPath) (fs w) (fs w') /\
  (entry_name project = true ->
   forall other rel,
     entry_name other = true -> other <> project ->
     Fs.stat (projectBackupDir (cwd w) tpath other configPath ++ rel) (fs w') =
     Fs.stat (projectBackupDir (cwd w) tpath other configPath ++ rel) (fs w)).
Proof.
  cbv zeta. split; [apply retention_frame|].
  intros Hproject other rel Hother Hne.
  apply retention_frame.
  rewrite (projectBackupDir_entry _ _ _ _ Hproject),
          (projectBackupDir_entry _ _ _ _ Hother), <- app_assoc.
  apply separate_siblings. congruence.
Qed.

Lemma retention_stays_in_project_dir_witness :
  Fs.stat (["backups"; "other"] ++ ["2025-01-15T10-00-00Z"])
    (fs (snd (applyRetention code_unit_compare sample_local "proj" 3 None false
                sample_backup_world))) =
  Fs.stat (["backups"; "other"] ++ ["2025-01-15T10-00-00Z"]) (fs sample_backup_world).
Proof.
  apply (proj2 (retention_stays_in_project_dir code_unit_compare "disk"
                  (CPath true ["backups"]) "proj" None 3 false sample_backup_world)
           eq_refl "other" ["2025-01-15T10-00-00Z"] eq_refl).
  discriminate.
Defined.

(** Retention applied a second time finds nothing to remove and changes
    nothing. *)
Theorem retention_idempotent localeCompare name tpath project configPath
    maxBackups dryRun w entries :
  locale_agrees localeCompare ->
  (0 <= maxBackups)%Z ->
  Fs.readdir (projectBackupDir (cwd w) tpath project configPath) (fs w) = inr entries ->
  NoDup (map Fs.name entries) ->
  ids_valid entries ->
  let target := LocalBackupTarget name tpath in
  let w' := snd (applyRetention localeCompare target project maxBackups configPath
                   false w) in
  applyRetention localeCompare target project maxBackups configPath dryRun w'
    = (Ok [], w').
Proof.
  intros Hloc Hm Hread Hnd Hvalid target w'.
  destruct (retention_exact_listing localeCompare name tpath project configPath
              maxBackups false w entries Hloc Hm Hread Hnd Hvalid)
    as (backups & w1 & _ & Hrun & _ & _ & _ & Hafter).
  assert (Hw : w' = w1) by (unfold w', target; rewrite Hrun; reflexivity).
  rewrite Hw. unfold applyRetention, target. unfold bind at 1. rewrite Hafter.
  assert (Hlen : (Z.of_nat (length (firstn (Z.to_nat maxBackups) backups)) >? maxBackups)%Z
                 = false).
  { rewrite length_firstn, Z.gtb_ltb. apply Z.ltb_ge. lia. }
  rewrite Hlen. reflexivity.
Qed.

Lemma retention_idempotent_witness :
  let w' := snd (applyRetention code_unit_compare sample_local "proj" 3 None false
                   sample_backup_world) in
  applyRetention code_unit_compare sample_local "proj" 3 None false w' = (Ok [], w').
Proof.
  apply (retention_idempotent code_unit_compare "disk" (CPath true ["backups"]) "proj"
           None 3 false sample_backup_world sample_listing code_unit_agrees).
  - lia.
  - reflexivity.
  - exact sample_listing_distinct.
  - exact sample_listing_valid.
Defined.

Lemma id_ge_antisym a b : id_ge a b -> id_ge b a -> a = b.
Proof.
  unfold id_ge, String.leb. intros H1 H2.
  destruct (String.compare b a) eqn:E.
  - symmetry. apply String.compare_eq_iff, E.
  - rewrite String.compare_antisym, E in H2. discriminate H2.
  - discriminate H1.
Qed.

Lemma backups_of_distinct dir project entries :
  NoDup (map Fs.name entries) ->
  NoDup (map timestamp (backups_of dir project entries)).
Proof.
  intros Hnd. unfold backups_of. rewrite map_map. cbn [timestamp].
  induction entries as [|e r IH]; simpl; [constructor|].
  inversion Hnd as [|? ? Hnotin Hr]; subst.
  destruct (Fs.isDirectory e); [|apply IH, Hr].
  simpl. constructor; [|apply IH, Hr].
  intros Hin. apply Hnotin. apply in_map_iff in Hin. destruct Hin as (x & Hx & Hin).
  apply filter_In in Hin. apply in_map_iff. exists x. tauto.
Qed.

(** The backup just made outlives the retention that follows it, when the
    limit is at least one and no backup in the directory has a greater id:
    it is not among the removed, and it is listed afterwards.  The name of
    the project and the id are names that an entry of a directory can
    bear. *)
Theorem newest_backup_survives_retention localeCompare fuel project name tpath ts
    configPath maxBackups w bp w1 entries :
  locale_agrees localeCompare ->
  entry_name (project_name project) = true ->
  entry_name ts = true ->
  (1 <= maxBackups)%Z ->
  createBackup fuel project (LocalBackupTarget name tpath) ts configPath false w
    = (Ok bp, w1) ->
  Fs.readdir (projectBackupDir (cwd w1) tpath (project_name project) configPath)
    (fs w1) = inr entries ->
  NoDup (map Fs.name entries) ->
  ids_valid entries ->
  (forall e, In e entries -> Fs.isDirectory e = true -> id_ge ts (Fs.name e)) ->
  exists removed w2 backups,
    applyRetention localeCompare (LocalBackupTarget name tpath) (project_name project)
      maxBackups configPath false w1 = (Ok removed, w2) /\
    ~ In bp removed /\
    listBackups localeCompare (LocalBackupTarget name tpath) (project_name project)
      configPath w2 = (Ok backups, w2) /\
    In (MkBackupInfo ts bp (project_name project)) backups.
Proof.
  intros Hloc Hplain Hts Hmax Hrun Hread Hnd Hvalid Hnewest.
  destruct (createBackup_makes_directory _ _ _ _ _ _ _ _ _ Hplain Hts Hrun)
    as (Hcwd & Hbp & Hdir).
  rewrite <- Hcwd in Hbp.
  set (dir := projectBackupDir (cwd w1) tpath (project_name project) configPath) in *.
  subst bp.
  destruct (directory_is_listed _ _ _ Hdir) as (entries' & Hread' & Hin).
  rewrite Hread in Hread'. injection Hread' as <-.
  destruct (retention_exact_listing localeCompare name tpath (project_name project)
              configPath maxBackups false w1 entries Hloc ltac:(lia) Hread Hnd Hvalid)
    as (backups & w2 & Hlist & Hret & _ & Hsplit & _ & Hafter).
  fold dir in Hlist, Hret, Hafter.
  set (m := Z.to_nat maxBackups) in *.
  set (mine := MkBackupInfo ts (join dir [ts]) (project_name project)).
  assert (Hmine : In mine backups).
  { pose proof Hlist as Hl. rewrite listBackups_local in Hl. fold dir in Hl.
    rewrite Hread in Hl. injection Hl as <-.
    apply listed_directory_is_backup, Hin. }
  assert (Hperm : Permutation backups (backups_of dir (project_name project) entries)).
  { pose proof Hlist as Hl. rewrite listBackups_local in Hl. fold dir in Hl.
    rewrite Hread in Hl. injection Hl as <-. apply sort_perm. }
  assert (Hdistinct : NoDup (map timestamp backups)).
  { eapply Permutation_NoDup;
      [apply Permutation_map, Permutation_sym, Hperm | apply backups_of_distinct, Hnd]. }
  assert (Hge : forall b, In b backups -> id_ge ts (timestamp b)).
  { intros b Hb. eapply Permutation_in in Hb; [|exact Hperm].
    apply backups_of_In in Hb. destruct Hb as (e & He & Hd & ->). cbn [timestamp].
    apply Hnewest; assumption. }
  assert (Hfront : In mine (firstn m backups)).
  { rewrite <- (firstn_skipn m backups) in Hmine, Hdistinct.
    apply in_app_or in Hmine. destruct Hmine as [H|Hback]; [exact H|]. exfalso.
    destruct (firstn m backups) as [|k front] eqn:Ef.
    - assert (Hm : 1 <= m) by (unfold m; lia).
      destruct m as [|m']; [lia|].
      destruct backups as [|b0 rest]; [destruct Hback | discriminate Ef].
    - assert (Hk : In k backups).
      { rewrite <- (firstn_skipn m backups), Ef. left. reflexivity. }
      assert (Heq : timestamp k = ts).
      { apply id_ge_antisym.
        - apply (Hsplit k mine); [left; reflexivity | exact Hback].
        - apply Hge, Hk. }
      rewrite map_app in Hdistinct. cbn [map app] in Hdistinct.
      rewrite Heq in Hdistinct.
      inversion Hdistinct as [|? ? Hnotin _]. apply Hnotin.
      apply in_or_app. right. apply in_map_iff. exists mine.
      split; [reflexivity | exact Hback]. }
  exists (map backup_path (skipn m backups)), w2, (firstn m backups).
  split; [exact Hret|]. split; [|split; [exact Hafter | exact Hfront]].
  intros Hrem. apply in_map_iff in Hrem. destruct Hrem as (r & Hpath & Hr).
  assert (Hrin : In r backups).
  { rewrite <- (firstn_skipn m backups). apply in_or_app. right. exact Hr. }
  eapply Permutation_in in Hrin; [|exact Hperm].
  apply backups_of_In in Hrin. destruct Hrin as (e & He & Hd & ->).
  cbn [backup_path] in Hpath. unfold join in Hpath.
  apply app_inv_head in Hpath. injection Hpath as Hname.
  rewrite <- (firstn_skipn m backups) in Hdistinct. rewrite map_app in Hdistinct.
  apply (NoDup_app_disjoint _ _ Hdistinct ts).
  - apply in_map_iff. exists mine. split; [reflexivity | exact Hfront].
  - apply in_map_iff. eexists. split; [|exact Hr]. cbn [timestamp]. exact Hname.
Qed.

Lemma sample_listing_after_distinct : NoDup (map Fs.name sample_listing_after).
Proof.
  unfold sample_listing_after, sample_listing. simpl.
  repeat constructor; simpl; intuition discriminate.
Qed.

Lemma sample_listing_after_valid : ids_valid sample_listing_after.
Proof.
  unfold ids_valid, sample_listing_after, sample_listing. simpl.
  repeat constructor; intros H; solve [reflexivity | discriminate H].
Qed.

Lemma sample_new_id_newest e :
  In e sample_listing_after -> Fs.isDirectory e = true -> id_ge sample_new_id (Fs.name e).
Proof.
  unfold sample_listing_after, sample_listing. simpl.
  intros H Hd. repeat (destruct H as [<-|H]; [try reflexivity; discriminate Hd|]).
  destruct H.
Qed.

Lemma newest_backup_survives_retention_witness :
  exists removed w2 backups,
    applyRetention code_unit_compare sample_local "proj" 3 None false sample_after_sixth
      = (Ok removed, w2) /\
    ~ In ["backups"; "proj"; sample_new_id] removed /\
    listBackups code_unit_compare sample_local "proj" None w2 = (Ok backups, w2) /\
    In (MkBackupInfo sample_new_id ["backups"; "proj"; sample_new_id] "proj") backups.
Proof.
  apply (newest_backup_survives_retention code_unit_compare 8 sample_project "disk"
           (CPath true ["backups"]) sample_new_id None 3 sample_backup_world
           ["backups"; "proj"; sample_new_id] sample_after_sixth sample_listing_after
           code_unit_agrees).
  - reflexivity.
  - reflexivity.
  - lia.
  - reflexivity.
  - reflexivity.
  - exact sample_listing_after_distinct.
  - exact sample_listing_after_valid.
  - exact sample_new_id_newest.
Defined.
(** ** The restore command, by id *)

(** On a local target the restore command is decided by what [readdir]
    shows of the directory in which [listBackups] looks for the backups of
    the project.  When the directory lists a directory named by the id, the
    command restores from that directory; when it lists none of that name,
    and when the directory does not exist, the command fails with the
    backup-not-found error; when the directory cannot be read for another
    reason (a file stands there, or on the way to it), it fails with the
    failed-to-list error.  In the three cases of failure the world is as it
    was. *)
Theorem restoreCommand_by_id localeCompare fuel project name tpath backup dest
    dryRun configPath w :
  let dir := projectBackupDir (cwd w) tpath (project_name project) (Some configPath) in
  Commands.restoreCommand localeCompare fuel project (LocalBackupTarget name tpath)
    backup dest dryRun configPath w =
  match Fs.readdir dir (fs w) with
  | inr entries =>
      if existsb (fun e => Fs.isDirectory e && String.eqb (Fs.name e) backup) entries
      then restoreBackup fuel (join dir [backup]) dest dryRun w
      else (Throw (Error (BackupNotFound backup (project_name project))), w)
  | inl Fs.ENOENT => (Throw (Error (BackupNotFound backup (project_name project))), w)
  | inl c => (Throw (Error (FailedToList (Some c))), w)
  end.
Proof.
  cbv zeta. unfold Commands.restoreCommand. unfold bind at 1.
  rewrite listBackups_local.
  set (dir := projectBackupDir (cwd w) tpath (project_name project) (Some configPath)).
  destruct (Fs.readdir dir (fs w)) as [c|entries] eqn:Hread.
  { destruct c; reflexivity. }
  set (backups := JSArray.sort (newest_first localeCompare)
                    (backups_of dir (project_name project) entries)).
  assert (Hin : forall b, In b backups <->
                          In b (backups_of dir (project_name project) entries)).
  { intros b. split; intros H.
    - eapply Permutation_in; [apply sort_perm | exact H].
    - eapply Permutation_in; [apply Permutation_sym, sort_perm | exact H]. }
  unfold JSArray.find.
  destruct (find (fun b => String.eqb (timestamp b) backup) backups) as [b|] eqn:Ef.
  - apply find_some in Ef. destruct Ef as [Hb Hts].
    apply Hin, backups_of_In in Hb. destruct Hb as (e & He & Hd & ->).
    cbn [timestamp backup_path] in *. apply String.eqb_eq in Hts.
    assert (Hex : existsb (fun e => Fs.isDirectory e && String.eqb (Fs.name e) backup)
                    entries = true).
    { apply existsb_exists. exists e. split; [exact He|].
      rewrite Hd, Hts, String.eqb_refl. reflexivity. }
    rewrite Hex, Hts. reflexivity.
  - destruct (existsb _ entries) eqn:Hex; [|reflexivity]. exfalso.
    apply existsb_exists in Hex. destruct Hex as (e & He & Hde).
    apply andb_prop in Hde. destruct Hde as [Hd Hn].
    assert (Hb : In (MkBackupInfo (Fs.name e) (join dir [Fs.name e])
                       (project_name project)) backups).
    { apply Hin, backups_of_In. eauto. }
    apply (find_none _ _ Ef) in Hb. cbn [timestamp] in Hb. congruence.
Qed.

(** The three failures on the sample: an id that is not listed, a project
    without a directory of backups, and a file where that directory should
    be. *)
Example restoreCommand_failures :
  let run project :=
    fst (Commands.restoreCommand code_unit_compare 8
           (MkProjectConfig project (CPath true ["proj"]) None) sample_local
           "2025-01-15T09-00-00Z" ["restored"] false (CPath true ["proj"; "config.json"])
           sample_backup_world) in
  run "proj" = Throw (Error (BackupNotFound "2025-01-15T09-00-00Z" "proj")) /\
  run "none" = Throw (Error (BackupNotFound "2025-01-15T09-00-00Z" "none")) /\
  run "proj/notes.txt" = Throw (Error (FailedToList (Some Fs.ENOTDIR))).
Proof. repeat split; reflexivity. Qed.

(** ** The matcher on patterns with single stars *)

Lemma prefix_cons a n c s :
  prefix (String a n) (String c s) = if Ascii.eqb a c then prefix n s else false.
Proof.
  simpl. destruct (ascii_dec a c) as [->|Hne].
  - rewrite Ascii.eqb_refl. reflexivity.
  - apply Ascii.eqb_neq in Hne. rewrite Hne. reflexivity.
Qed.

(** A needle whose first character does not occur is not replaced. *)
Lemma replace_absent a n repl s :
  lacks a s = true -> JS.replace_all (String a n) repl s = s.
Proof.
  unfold JS.replace_all. induction s as [|c r IH]; [reflexivity|].
  intros H. cbn [lacks] in H. apply andb_prop in H. destruct H as [Hc Hr].
  cbn [JS.replace_from]. rewrite prefix_cons.
  apply negb_true_iff in Hc. rewrite Ascii.eqb_sym in Hc. rewrite Hc.
  rewrite (IH Hr). reflexivity.
Qed.

Lemma replace_double_star s :
  single_stars s = true -> JS.replace_all "**" "{{DOUBLE_STAR}}" s = s.
Proof.
  unfold JS.replace_all. induction s as [|c r IH]; [reflexivity|].
  intros H. cbn [single_stars] in H. apply andb_prop in H. destruct H as [Hc Hr].
  cbn [JS.replace_from]. rewrite (IH Hr).
  assert (Hp : prefix "**" (String c r) = false).
  { rewrite prefix_cons. destruct (Ascii.eqb "*" c) eqn:E; [|reflexivity].
    rewrite Ascii.eqb_sym in E. rewrite E in Hc.
    destruct r as [|d r']; [reflexivity|]. rewrite prefix_cons.
    apply negb_true_iff in Hc. rewrite Ascii.eqb_sym in Hc. rewrite Hc. reflexivity. }
  rewrite Hp. reflexivity.
Qed.

(** The replacement of a one-character needle goes character by character. *)
Lemma replace_char a repl s :
  JS.replace_all (String a EmptyString) repl s =
  expand (fun c => if Ascii.eqb c a then repl else String c EmptyString) s.
Proof.
  unfold JS.replace_all. induction s as [|c r IH]; [reflexivity|].
  cbn [JS.replace_from expand String.length Nat.sub]. rewrite prefix_cons, IH.
  rewrite (Ascii.eqb_sym a c). destruct (Ascii.eqb c a); [|reflexivity].
  destruct r; reflexivity.
Qed.

Lemma lacks_app c a b : lacks c (a ++ b)%string = lacks c a && lacks c b.
Proof.
  induction a as [|d r IH]; [reflexivity|]. cbn [String.append lacks].
  rewrite IH, andb_assoc. reflexivity.
Qed.

Lemma string_app_assoc a b c : ((a ++ b) ++ c)%string = (a ++ (b ++ c))%string.
Proof. induction a as [|d r IH]; simpl; [reflexivity|]. rewrite IH. reflexivity. Qed.

Lemma expand_app f a b : expand f (a ++ b)%string = (expand f a ++ expand f b)%string.
Proof.
  induction a as [|d r IH]; [reflexivity|]. cbn [String.append expand].
  rewrite IH. symmetry. apply string_app_assoc.
Qed.

Lemma syntax_char_cases c :
  JS.syntax_char c = false ->
  Ascii.eqb c "\" = false /\ Ascii.eqb c "[" = false /\ Ascii.eqb c "*" = false /\
  Ascii.eqb c "{" = false /\ Ascii.eqb c "." = false.
Proof.
  unfold JS.syntax_char. cbn [existsb]. intros H.
  repeat (apply orb_false_iff in H; destruct H as [? H]). auto.
Qed.

(** The text of [regexPattern] for a pattern with single stars. *)
Lemma regexPattern_single_stars pattern :
  single_stars pattern = true ->
  PathMatcher.regexPattern pattern = expand regex_char pattern.
Proof.
  intros H. unfold PathMatcher.regexPattern.
  rewrite (replace_double_star _ H), (replace_char "*" "[^/]*").
  fold star_class.
  assert (Hl : lacks "{" (expand star_class pattern) = true).
  { clear -H. induction pattern as [|c r IH]; [reflexivity|].
    cbn [single_stars] in H. apply andb_prop in H. destruct H as [Hc Hr].
    cbn [expand]. rewrite lacks_app, (IH Hr), andb_true_r. unfold star_class.
    destruct (Ascii.eqb c "*") eqn:E; [reflexivity|].
    cbn [lacks]. rewrite andb_true_r. apply negb_true_iff.
    apply orb_prop in Hc. destruct Hc as [Hc|Hc].
    - apply negb_true_iff, syntax_char_cases in Hc. tauto.
    - apply Ascii.eqb_eq in Hc. subst c. reflexivity. }
  rewrite (replace_absent "{" _ _ _ Hl), (replace_char "." "\.").
  fold escape_dot.
  clear. induction pattern as [|c r IH]; [reflexivity|].
  cbn [expand]. rewrite expand_app, IH. f_equal.
  unfold star_class, regex_char, escape_dot.
  destruct (Ascii.eqb c "*") eqn:E; [reflexivity|].
  cbn [expand]. destruct (Ascii.eqb c "."); reflexivity.
Qed.

Lemma RegExp_single_stars pattern :
  single_stars pattern = true ->
  JS.RegExp (expand regex_char pattern) = Some (glob_items pattern).
Proof.
  unfold JS.RegExp.
  assert (Htok : forall s, single_stars s = true ->
            JS.tokens (expand regex_char s) =
            Some (flat_map (fun c => if Ascii.eqb c "*"
                                     then [JS.TAtom JS.NotSlash; JS.TStar]
                                     else [JS.TAtom (JS.Lit c)])
                    (list_ascii_of_string s))).
  { induction s as [|c r IH]; [reflexivity|]. intros H.
    cbn [single_stars] in H. apply andb_prop in H. destruct H as [Hc Hr].
    specialize (IH Hr). cbn [expand list_ascii_of_string flat_map].
    unfold regex_char at 1. destruct (Ascii.eqb c "*") eqn:E.
    - change (JS.tokens ("[^/]*" ++ expand regex_char r)%string)
        with (option_map (cons (JS.TAtom JS.NotSlash))
                (option_map (cons JS.TStar) (JS.tokens (expand regex_char r)))).
      rewrite IH. reflexivity.
    - apply orb_prop in Hc. destruct Hc as [Hc|Hc].
      + apply negb_true_iff in Hc.
        destruct (syntax_char_cases _ Hc) as (H1 & H2 & H3 & H4 & H5).
        rewrite H5. cbn [String.append JS.tokens].
        rewrite H1, H2, H3, Hc, IH. reflexivity.
      + rewrite Hc. apply Ascii.eqb_eq in Hc. subst c.
        change (JS.tokens ("\." ++ expand regex_char r)%string)
          with (option_map (cons (JS.TAtom (JS.Lit ".")))
                  (JS.tokens (expand regex_char r))).
        rewrite IH. reflexivity. }
  intros H. rewrite (Htok _ H). clear Htok.
  induction pattern as [|c r IH]; [reflexivity|].
  cbn [single_stars] in H. apply andb_prop in H. destruct H as [Hc Hr].
  specialize (IH Hr). cbn [list_ascii_of_string flat_map glob_items].
  destruct (Ascii.eqb c "*") eqn:E.
  - cbn [app JS.items]. rewrite IH. reflexivity.
  - cbn [app]. destruct r as [|d r'].
    + reflexivity.
    + cbn [list_ascii_of_string flat_map] in *.
      destruct (Ascii.eqb d "*"); cbn [app JS.items] in *; rewrite IH; reflexivity.
Qed.

Lemma glob_tokens_single_stars c r :
  single_stars (String c r) = true ->
  PathMatcher.glob_tokens (String c r) =
  (if Ascii.eqb c "*" then PathMatcher.GStar else PathMatcher.GChar c)
  :: PathMatcher.glob_tokens r.
Proof.
  intros H. cbn [single_stars] in H. apply andb_prop in H. destruct H as [Hc _].
  cbn [PathMatcher.glob_tokens]. destruct (Ascii.eqb c "*"); [|reflexivity].
  destruct r as [|d r']; [reflexivity|]. apply negb_true_iff in Hc. rewrite Hc.
  reflexivity.
Qed.

Lemma match_items_star a re s :
  JS.match_items (JS.Item a true :: re) s =
  JS.match_items re s ||
  match s with
  | String c s' => JS.accepts a c && JS.match_items (JS.Item a true :: re) s'
  | EmptyString => false
  end.
Proof. destruct s; reflexivity. Qed.

Lemma glob_match_star g s :
  PathMatcher.glob_match (PathMatcher.GStar :: g) s =
  PathMatcher.glob_match g s ||
  match s with
  | String c s' =>
      negb (Ascii.eqb c "/") && PathMatcher.glob_match (PathMatcher.GStar :: g) s'
  | EmptyString => false
  end.
Proof. destruct s; reflexivity. Qed.

Lemma match_glob_items pattern :
  single_stars pattern = true ->
  forall s,
    JS.match_items (glob_items pattern) s =
    PathMatcher.glob_match (PathMatcher.glob_tokens pattern) s.
Proof.
  induction pattern as [|c r IH]; intros H s; [reflexivity|].
  rewrite (glob_tokens_single_stars _ _ H).
  cbn [single_stars] in H. apply andb_prop in H. destruct H as [_ Hr].
  specialize (IH Hr). cbn [glob_items].
  destruct (Ascii.eqb c "*").
  - induction s as [|d s' IHs]; rewrite match_items_star, glob_match_star, IH;
      [reflexivity|].
    rewrite IHs. reflexivity.
  - cbn [JS.match_items PathMatcher.glob_match JS.accepts].
    destruct s as [|d s']; [reflexivity|]. rewrite IH. reflexivity.
Qed.

Lemma matchesPattern_single_stars path pattern :
  single_stars pattern = true ->
  PathMatcher.matchesPattern path pattern =
  Some (PathMatcher.spec_matches path pattern).
Proof.
  intros H. unfold PathMatcher.matchesPattern, JS.anchored_test.
  rewrite (regexPattern_single_stars _ H), (RegExp_single_stars _ H). cbn [option_map].
  rewrite (match_glob_items _ H). reflexivity.
Qed.

(** When every pattern, its backslashes turned, has single stars only,
    [shouldExclude] decides by the glob rule: a star for a run of characters
    other than [/], any other character for itself, or the pattern found
    inside the path. *)
Theorem single_star_patterns_follow_glob relativePath patterns :
  Forall (fun pattern => single_stars (JS.replace_all "\" "/" pattern) = true)
    patterns ->
  PathMatcher.shouldExclude relativePath patterns =
  Some (PathMatcher.spec_excludes relativePath patterns).
Proof.
  unfold PathMatcher.shouldExclude, PathMatcher.spec_excludes.
  induction 1 as [|pattern rest Hp _ IH]; [reflexivity|].
  cbn [PathMatcher.shouldExclude_loop existsb].
  rewrite (matchesPattern_single_stars _ _ Hp).
  destruct (PathMatcher.spec_matches _ _); [reflexivity | exact IH].
Qed.

Lemma single_star_patterns_follow_glob_witness :
  PathMatcher.shouldExclude "src/deep/a.test.ts" ["node_modules"; "src/*.test.ts"]
  = Some false.
Proof.
  apply (single_star_patterns_follow_glob "src/deep/a.test.ts"
           ["node_modules"; "src/*.test.ts"]).
  repeat constructor.
Defined.

Lemma literal_single_stars pattern :
  literal_pattern pattern = true -> single_stars pattern = true.
Proof.
  induction pattern as [|c r IH]; [reflexivity|]. cbn [literal_pattern single_stars].
  intros H. apply andb_prop in H. destruct H as [Hc Hr]. rewrite (IH Hr), andb_true_r.
  destruct (Ascii.eqb c "*") eqn:E; [|exact Hc].
  apply Ascii.eqb_eq in E. subst c. discriminate Hc.
Qed.

Lemma literal_lacks_backslash pattern :
  literal_pattern pattern = true -> lacks "\" pattern = true.
Proof.
  induction pattern as [|c r IH]; [reflexivity|]. cbn [literal_pattern lacks].
  intros H. apply andb_prop in H. destruct H as [Hc Hr]. rewrite (IH Hr), andb_true_r.
  apply negb_true_iff. apply orb_prop in Hc. destruct Hc as [Hc|Hc].
  - apply negb_true_iff, syntax_char_cases in Hc. tauto.
  - apply Ascii.eqb_eq in Hc. subst c. reflexivity.
Qed.

Lemma prefix_refl s : prefix s s = true.
Proof.
  induction s as [|c r IH]; [reflexivity|]. rewrite prefix_cons, Ascii.eqb_refl.
  exact IH.
Qed.

Lemma includes_refl s : JS.includes s s = true.
Proof. destruct s; cbn [JS.includes]; rewrite prefix_refl; reflexivity. Qed.

Lemma glob_match_literal pattern :
  literal_pattern pattern = true ->
  forall s, PathMatcher.glob_match (PathMatcher.glob_tokens pattern) s = true ->
            s = pattern.
Proof.
  induction pattern as [|c r IH]; intros H s Hm.
  - destruct s; [reflexivity | discriminate Hm].
  - rewrite (glob_tokens_single_stars _ _ (literal_single_stars _ H)) in Hm.
    cbn [literal_pattern] in H. apply andb_prop in H. destruct H as [Hc Hr].
    destruct (Ascii.eqb c "*") eqn:E.
    { apply Ascii.eqb_eq in E. subst c. discriminate Hc. }
    cbn [PathMatcher.glob_match] in Hm. destruct s as [|d s']; [discriminate|].
    apply andb_prop in Hm. destruct Hm as [Hd Hs].
    apply Ascii.eqb_eq in Hd. subst d. rewrite (IH Hr s' Hs). reflexivity.
Qed.

(** A pattern without stars is a substring test and nothing more: a path
    is excluded exactly when, its backslashes turned, it contains one of
    the patterns. *)
Theorem literal_patterns_test_substrings relativePath patterns :
  Forall (fun pattern => literal_pattern pattern = true) patterns ->
  PathMatcher.shouldExclude relativePath patterns =
  Some (existsb (fun pattern => JS.includes pattern (JS.replace_all "\" "/" relativePath))
          patterns).
Proof.
  unfold PathMatcher.shouldExclude.
  induction 1 as [|pattern rest Hp _ IH]; [reflexivity|].
  cbn [PathMatcher.shouldExclude_loop existsb].
  rewrite (replace_absent "\" _ _ _ (literal_lacks_backslash _ Hp)).
  rewrite (matchesPattern_single_stars _ _ (literal_single_stars _ Hp)).
  unfold PathMatcher.spec_matches.
  destruct (JS.includes pattern _) eqn:Ei.
  - rewrite orb_true_r. reflexivity.
  - rewrite orb_false_r.
    destruct (PathMatcher.glob_match _ _) eqn:Em; [|exact IH].
    apply (glob_match_literal _ Hp) in Em. rewrite Em, includes_refl in Ei.
    discriminate Ei.
Qed.

Lemma literal_patterns_test_substrings_witness :
  PathMatcher.shouldExclude "old_node_modules.bak/readme.md" ["node_modules"; ".git"]
  = Some true.
Proof.
  apply (literal_patterns_test_substrings "old_node_modules.bak/readme.md"
           ["node_modules"; ".git"]).
  repeat constructor.
Defined.

(** ** Ids and time *)

Lemma years_ok_spec n : forall yoe,
  years_ok n yoe = true ->
  forall k, (0 <= k < Z.of_nat n)%Z -> year_ok (yoe + k) = true.
Proof.
  induction n as [|n IH]; intros yoe H k Hk; [lia|].
  cbn [years_ok] in H. destruct (year_ok yoe) eqn:E; [|discriminate].
  destruct (Z.eq_dec k 0) as [->|Hne]; [rewrite Z.add_0_r; exact E|].
  replace (yoe + k)%Z with (yoe + 1 + (k - 1))%Z by lia. apply IH; [exact H | lia].
Qed.

Lemma doys_ok_spec n : forall doy,
  doys_ok n doy = true ->
  forall k, (0 <= k < Z.of_nat n)%Z -> doy_ok (doy + k) = true.
Proof.
  induction n as [|n IH]; intros doy H k Hk; [lia|].
  cbn [doys_ok] in H. destruct (doy_ok doy) eqn:E; [|discriminate].
  destruct (Z.eq_dec k 0) as [->|Hne]; [rewrite Z.add_0_r; exact E|].
  replace (doy + k)%Z with (doy + 1 + (k - 1))%Z by lia. apply IH; [exact H | lia].
Qed.

(** Checked year by year and day by day. *)
Lemma years_checked : years_ok 400 0 = true.
Proof. vm_compute. reflexivity. Qed.

Lemma doys_checked : doys_ok 366 0 = true.
Proof. vm_compute. reflexivity. Qed.

Lemma yoe_monotone d d' :
  (0 <= d <= d')%Z -> (d' < 146097)%Z -> (yoe_of d <= yoe_of d')%Z.
Proof.
  intros H H'. unfold yoe_of. apply Z.div_le_mono; [lia|].
  Z.to_euclidean_division_equations. lia.
Qed.

Lemma year_start_next yoe :
  (0 <= yoe < 399)%Z -> year_start (yoe + 1) = (year_end yoe + 1)%Z.
Proof.
  intros H. unfold year_end. destruct (yoe =? 399)%Z eqn:E; [apply Z.eqb_eq in E; lia|].
  lia.
Qed.

Lemma year_in_era yoe :
  (0 <= yoe <= 399)%Z -> (0 <= year_start yoe /\ year_end yoe <= 146096)%Z.
Proof.
  intros H. unfold year_end, year_start.
  destruct (yoe =? 399)%Z; Z.to_euclidean_division_equations; lia.
Qed.

(** A day of the era lies in the year that [civil] finds for it. *)
Lemma year_located doe :
  (0 <= doe < 146097)%Z ->
  (0 <= yoe_of doe <= 399 /\ year_start (yoe_of doe) <= doe <= year_end (yoe_of doe))%Z.
Proof.
  intros H.
  assert (Hlo : (yoe_of 0 <= yoe_of doe)%Z) by (apply yoe_monotone; lia).
  assert (Hhi : (yoe_of doe <= yoe_of 146096)%Z) by (apply yoe_monotone; lia).
  change (yoe_of 0) with 0%Z in Hlo. change (yoe_of 146096) with 399%Z in Hhi.
  split; [lia|].
  assert (Hok : forall y, (0 <= y <= 399)%Z -> year_ok y = true).
  { intros y Hy. apply (years_ok_spec 400 0 years_checked y). lia. }
  pose proof (Hok (yoe_of doe) ltac:(lia)) as Hy.
  unfold year_ok in Hy. rewrite !andb_true_iff in Hy.
  destruct Hy as [[[Hs He] Hle] Hlen].
  apply Z.eqb_eq in Hs, He. apply Z.leb_le in Hle, Hlen.
  split.
  - destruct (Z_le_gt_dec (year_start (yoe_of doe)) doe) as [Hge|Hlt]; [exact Hge|].
    exfalso.
    destruct (Z.eq_dec (yoe_of doe) 0) as [H0|Hn0].
    + rewrite H0 in Hlt. change (year_start 0) with 0%Z in Hlt. lia.
    + pose proof (Hok (yoe_of doe - 1)%Z ltac:(lia)) as Hp.
      unfold year_ok in Hp. rewrite !andb_true_iff in Hp.
      destruct Hp as [[[_ Hpe] _] _]. apply Z.eqb_eq in Hpe.
      pose proof (year_start_next (yoe_of doe - 1) ltac:(lia)) as Hn.
      replace (yoe_of doe - 1 + 1)%Z with (yoe_of doe) in Hn by lia.
      pose proof (year_in_era (yoe_of doe - 1) ltac:(lia)) as Hb.
      assert (Hm : (yoe_of doe <= yoe_of (year_end (yoe_of doe - 1)))%Z).
      { apply yoe_monotone; lia. }
      lia.
  - destruct (Z_le_gt_dec doe (year_end (yoe_of doe))) as [Hle'|Hgt]; [exact Hle'|].
    exfalso.
    destruct (Z.eq_dec (yoe_of doe) 399) as [H399|Hn].
    + rewrite H399 in Hgt. change (year_end 399) with 146096%Z in Hgt. lia.
    + pose proof (Hok (yoe_of doe + 1)%Z ltac:(lia)) as Hp.
      unfold year_ok in Hp. rewrite !andb_true_iff in Hp.
      destruct Hp as [[[Hps _] _] _]. apply Z.eqb_eq in Hps.
      pose proof (year_start_next (yoe_of doe) ltac:(lia)) as Hnx.
      pose proof (year_in_era (yoe_of doe) ltac:(lia)) as Hb.
      assert (Hm : (yoe_of (year_start (yoe_of doe + 1)) <= yoe_of doe)%Z).
      { apply yoe_monotone; lia. }
      lia.
Qed.

Lemma civil_in_era doe :
  (0 <= doe < 146097)%Z ->
  JSDate.civil (era_start + doe) = date_of_doy (yoe_of doe) (doy_of doe).
Proof.
  intros H. unfold JSDate.civil, era_start, date_of_doy, doy_of, yoe_of.
  replace (-719468 + doe + 719468)%Z with doe by lia.
  rewrite (Z.div_small doe 146097) by lia.
  replace (doe - 0 * 146097)%Z with doe by lia.
  cbv zeta. f_equal. f_equal. lia.
Qed.

Lemma date_code_year yoe doy :
  date_code (date_of_doy yoe doy) = (date_code (date_of_doy 0 doy) + 512 * yoe)%Z.
Proof. unfold date_code, date_of_doy. cbv zeta. lia. Qed.

(** From a day of the era to the next the date grows. *)
Lemma era_next doe :
  (0 <= doe < 146096)%Z ->
  (date_code (JSDate.civil (era_start + doe))
   < date_code (JSDate.civil (era_start + (doe + 1))))%Z.
Proof.
  intros H. rewrite !civil_in_era by lia.
  destruct (year_located doe ltac:(lia)) as (Hy & Hs & He).
  destruct (year_located (doe + 1) ltac:(lia)) as (Hy' & Hs' & He').
  assert (Hmono : (yoe_of doe <= yoe_of (doe + 1))%Z) by (apply yoe_monotone; lia).
  assert (Hok : year_ok (yoe_of doe) = true).
  { apply (years_ok_spec 400 0 years_checked (yoe_of doe)). lia. }
  unfold year_ok in Hok. rewrite !andb_true_iff in Hok.
  destruct Hok as [[[_ _] _] Hlen]. apply Z.leb_le in Hlen.
  assert (Hdoy : (0 <= doy_of doe <= 365)%Z).
  { unfold doy_of. fold (year_start (yoe_of doe)). lia. }
  pose proof (doys_ok_spec 366 0 doys_checked (doy_of doe) ltac:(lia)) as Hd.
  rewrite Z.add_0_l in Hd. unfold doy_ok in Hd.
  rewrite (date_code_year (yoe_of doe)), (date_code_year (yoe_of (doe + 1))).
  destruct (date_of_doy 0 (doy_of doe)) as [[y m] d] eqn:Edate.
  rewrite !andb_true_iff in Hd. destruct Hd as [[[[[_ _] _] _] Hwrap] Hnext].
  apply Z.ltb_lt in Hwrap.
  destruct (Z.eq_dec (yoe_of (doe + 1)) (yoe_of doe)) as [Hsame|Hdiff].
  - assert (Hd1 : doy_of (doe + 1) = (doy_of doe + 1)%Z).
    { unfold doy_of. rewrite Hsame. lia. }
    rewrite Hd1, Hsame.
    apply orb_prop in Hnext. destruct Hnext as [Hlast|Hlt].
    + apply Z.eqb_eq in Hlast. exfalso.
      assert (Hd1' : (doy_of (doe + 1) <= 365)%Z).
      { unfold doy_of. fold (year_start (yoe_of (doe + 1))).
        assert (Hok' : year_ok (yoe_of (doe + 1)) = true).
        { apply (years_ok_spec 400 0 years_checked (yoe_of (doe + 1))). lia. }
        unfold year_ok in Hok'. rewrite !andb_true_iff in Hok'.
        destruct Hok' as [[[_ _] _] Hlen']. apply Z.leb_le in Hlen'. lia. }
      lia.
    + apply Z.ltb_lt in Hlt. lia.
  - assert (Hnexty : yoe_of (doe + 1) = (yoe_of doe + 1)%Z).
    { assert (Hup : (yoe_of (doe + 1) <= yoe_of doe + 1)%Z).
      { destruct (Z.eq_dec (yoe_of doe) 399) as [H399|Hn]; [lia|].
        pose proof (year_start_next (yoe_of doe) ltac:(lia)) as Hnx.
        assert (Hok1 : year_ok (yoe_of doe + 1) = true).
        { apply (years_ok_spec 400 0 years_checked (yoe_of doe + 1)). lia. }
        unfold year_ok in Hok1. rewrite !andb_true_iff in Hok1.
        destruct Hok1 as [[[Hs1 _] Hle1] _]. apply Z.eqb_eq in Hs1.
        apply Z.leb_le in Hle1.
        pose proof (year_in_era (yoe_of doe + 1) ltac:(lia)) as Hb.
        rewrite <- Hs1. apply yoe_monotone; lia. }
      lia. }
    assert (Hd0 : doy_of (doe + 1) = 0%Z).
    { unfold doy_of. rewrite Hnexty. fold (year_start (yoe_of doe + 1)).
      destruct (Z.eq_dec (yoe_of doe) 399) as [H399|Hn]; [lia|].
      pose proof (year_start_next (yoe_of doe) ltac:(lia)) as Hnx.
      rewrite Hnexty in Hs'. lia. }
    rewrite Hd0, Hnexty. change (date_code (date_of_doy 0 0)) with 97%Z.
    change (date_code (1, 3, 1)%Z) with 609%Z in Hwrap. lia.
Qed.

Lemma civil_era day :
  JSDate.civil day =
  let '(y, m, d) :=
    JSDate.civil (era_start + (day - era_start) mod era_days) in
  (y + 400 * ((day - era_start) / era_days), m, d)%Z.
Proof.
  unfold era_start, era_days.
  set (z := (day - -719468)%Z).
  assert (Hz : (0 <= z mod 146097 < 146097)%Z) by (apply Z.mod_pos_bound; lia).
  unfold JSDate.civil.
  replace (day + 719468)%Z with z by (unfold z; lia).
  replace (-719468 + z mod 146097 + 719468)%Z with (z mod 146097)%Z by lia.
  rewrite (Z.div_small (z mod 146097) 146097) by lia.
  replace (z mod 146097 - 0 * 146097)%Z with (z mod 146097)%Z by lia.
  replace (z - z / 146097 * 146097)%Z with (z mod 146097)%Z
    by (rewrite Z.mod_eq by lia; lia).
  cbv zeta. f_equal. f_equal. lia.
Qed.

Lemma date_code_shift y m d q :
  date_code ((y + 400 * q)%Z, m, d) = (date_code (y, m, d) + 204800 * q)%Z.
Proof. unfold date_code. lia. Qed.

(** From a day to the next the date grows. *)
Lemma civil_next day :
  (date_code (JSDate.civil day) < date_code (JSDate.civil (day + 1)))%Z.
Proof.
  rewrite (civil_era day), (civil_era (day + 1)).
  set (z := (day - era_start)%Z).
  replace (day + 1 - era_start)%Z with (z + 1)%Z by (unfold z; lia).
  assert (Hr : (0 <= z mod era_days < era_days)%Z)
    by (apply Z.mod_pos_bound; reflexivity).
  pose proof (Z.div_mod z era_days ltac:(discriminate)) as Hz.
  destruct (Z.eq_dec (z mod era_days) (era_days - 1)) as [Hlast|Hin].
  - assert (Hq : ((z + 1) / era_days = z / era_days + 1)%Z).
    { symmetry. apply (Z.div_unique _ _ _ 0); unfold era_days in *; lia. }
    assert (Hm : ((z + 1) mod era_days = 0)%Z).
    { symmetry. apply (Z.mod_unique _ _ (z / era_days + 1)); unfold era_days in *; lia. }
    rewrite Hq, Hm, Hlast.
    change (JSDate.civil (era_start + (era_days - 1))) with (400, 2, 29)%Z.
    change (JSDate.civil (era_start + 0)) with (0, 3, 1)%Z.
    cbv beta iota zeta. rewrite !date_code_shift. unfold date_code. lia.
  - assert (Hq : ((z + 1) / era_days = z / era_days)%Z).
    { symmetry. apply (Z.div_unique _ _ _ (z mod era_days + 1));
        unfold era_days in *; lia. }
    assert (Hm : ((z + 1) mod era_days = z mod era_days + 1)%Z).
    { symmetry. apply (Z.mod_unique _ _ (z / era_days)); unfold era_days in *; lia. }
    rewrite Hq, Hm.
    pose proof (era_next (z mod era_days) ltac:(unfold era_days in *; lia)) as Hlt.
    destruct (JSDate.civil (era_start + z mod era_days)) as [[y1 m1] d1].
    destruct (JSDate.civil (era_start + (z mod era_days + 1))) as [[y2 m2] d2].
    rewrite !date_code_shift. lia.
Qed.

(** The dates grow with the days. *)
Lemma civil_monotone d1 d2 :
  (d1 < d2)%Z -> (date_code (JSDate.civil d1) < date_code (JSDate.civil d2))%Z.
Proof.
  intros H.
  assert (Hn : forall n : nat,
             (date_code (JSDate.civil d1)
              < date_code (JSDate.civil (d1 + 1 + Z.of_nat n)))%Z).
  { induction n as [|n IH].
    - rewrite Z.add_0_r. apply civil_next.
    - eapply Z.lt_trans; [exact IH|].
      replace (d1 + 1 + Z.of_nat (S n))%Z with (d1 + 1 + Z.of_nat n + 1)%Z by lia.
      apply civil_next. }
  specialize (Hn (Z.to_nat (d2 - d1 - 1))).
  rewrite Z2Nat.id in Hn by lia.
  replace (d1 + 1 + (d2 - d1 - 1))%Z with d2 in Hn by lia. exact Hn.
Qed.

(** The fields of two time values, compared one after the other, order as
    the seconds do. *)
Lemma fields_order t1 t2 :
  compare_fields (fields_of t1) (fields_of t2) = (t1 / 1000 ?= t2 / 1000)%Z.
Proof.
  assert (Hlt : forall a b, (a / 1000 < b / 1000)%Z ->
                            compare_fields (fields_of a) (fields_of b) = Lt).
  { intros a b H. unfold fields_of, JSDate.YearFromTime, JSDate.MonthFromTime,
      JSDate.DateFromTime, JSDate.HourFromTime, JSDate.MinFromTime, JSDate.SecFromTime,
      JSDate.msPerDay.
    assert (Hday : (a / 86400000 < b / 86400000 \/
                    (a / 86400000 = b / 86400000 /\
                     ((a / 3600000) mod 24 < (b / 3600000) mod 24 \/
                      ((a / 3600000) mod 24 = (b / 3600000) mod 24 /\
                       ((a / 60000) mod 60 < (b / 60000) mod 60 \/
                        ((a / 60000) mod 60 = (b / 60000) mod 60 /\
                         (a / 1000) mod 60 < (b / 1000) mod 60))))))%Z).
    { change 86400000%Z with (1000 * 86400)%Z. change 3600000%Z with (1000 * 3600)%Z.
      change 60000%Z with (1000 * 60)%Z.
      rewrite <- !Z.div_div by lia.
      set (sa := (a / 1000)%Z) in *. set (sb := (b / 1000)%Z) in *.
      clearbody sa sb. clear a b.
      Z.to_euclidean_division_equations. lia. }
    pose proof (civil_bounds (a / 86400000)) as Ba.
    pose proof (civil_bounds (b / 86400000)) as Bb.
    destruct Hday as [Hd|[Hd Hrest]].
    - pose proof (civil_monotone _ _ Hd) as Hc.
      destruct (JSDate.civil (a / 86400000)) as [[y1 m1] d1].
      destruct (JSDate.civil (b / 86400000)) as [[y2 m2] d2].
      cbn [fst snd compare_fields]. unfold date_code in Hc.
      destruct (Z.compare_spec y1 y2) as [->|Hy|Hy]; [|reflexivity | lia].
      destruct (Z.compare_spec m1 m2) as [->|Hm|Hm]; [|reflexivity | lia].
      destruct (Z.compare_spec d1 d2) as [->|Hdd|Hdd]; [lia | reflexivity | lia].
    - rewrite Hd. cbn [compare_fields]. rewrite !Z.compare_refl.
      destruct Hrest as [Hh|[Hh [Hm|[Hm Hs]]]].
      + apply Z.compare_lt_iff in Hh. rewrite Hh. reflexivity.
      + rewrite Hh, Z.compare_refl. apply Z.compare_lt_iff in Hm. rewrite Hm. reflexivity.
      + rewrite Hh, Hm, !Z.compare_refl. apply Z.compare_lt_iff. exact Hs. }
  assert (Heq : forall a b, (a / 1000 = b / 1000)%Z -> fields_of a = fields_of b).
  { intros a b H.
    pose proof (fields_ignore_ms a) as (A1 & A2 & A3 & A4 & A5 & A6 & _).
    pose proof (fields_ignore_ms b) as (B1 & B2 & B3 & B4 & B5 & B6 & _).
    cbv zeta in *. unfold fields_of.
    rewrite <- A1, <- A2, <- A3, <- A4, <- A5, <- A6, H, B1, B2, B3, B4, B5, B6.
    reflexivity. }
  destruct (Z.compare_spec (t1 / 1000) (t2 / 1000)) as [He|Hl|Hg].
  - rewrite (Heq _ _ He). destruct (fields_of t2) as [[[[[y m] d] h] mi] s].
    cbn [compare_fields]. rewrite !Z.compare_refl. reflexivity.
  - apply Hlt, Hl.
  - pose proof (Hlt _ _ Hg) as H.
    destruct (fields_of t1) as [[[[[y1 m1] d1] h1] mi1] s1].
    destruct (fields_of t2) as [[[[[y2 m2] d2] h2] mi2] s2].
    cbn [compare_fields] in *.
    rewrite (Z.compare_antisym y2 y1), (Z.compare_antisym m2 m1),
      (Z.compare_antisym d2 d1), (Z.compare_antisym h2 h1),
      (Z.compare_antisym mi2 mi1), (Z.compare_antisym s2 s1).
    destruct (y2 ?= y1)%Z; try discriminate; try reflexivity.
    destruct (m2 ?= m1)%Z; try discriminate; try reflexivity.
    destruct (d2 ?= d1)%Z; try discriminate; try reflexivity.
    destruct (h2 ?= h1)%Z; try discriminate; try reflexivity.
    destruct (mi2 ?= mi1)%Z; try discriminate; try reflexivity.
    destruct (s2 ?= s1)%Z; try discriminate; reflexivity.
Qed.

Lemma string_length_app a b :
  String.length (a ++ b)%string = String.length a + String.length b.
Proof. induction a as [|c r IH]; simpl; [reflexivity|]. rewrite IH. reflexivity. Qed.

Lemma length_pad w : forall n, String.length (JSDate.pad w n) = w.
Proof.
  induction w as [|w IH]; intros n; cbn [JSDate.pad]; [reflexivity|].
  rewrite string_length_app, IH. simpl. lia.
Qed.

(** Two texts that begin with parts of the same length compare by these
    parts first. *)
Lemma compare_app a : forall b x y,
  String.length a = String.length b ->
  String.compare (a ++ x) (b ++ y) =
  match String.compare a b with
  | Eq => String.compare x y
  | c => c
  end.
Proof.
  induction a as [|c a IH]; intros [|d b] x y Hlen; try discriminate; [reflexivity|].
  cbn [String.append String.compare]. destruct (Ascii.compare c d); try reflexivity.
  apply IH. simpl in Hlen. lia.
Qed.

Lemma digit_compare a b :
  (0 <= a < 10)%Z -> (0 <= b < 10)%Z ->
  Ascii.compare (JSDate.digit a) (JSDate.digit b) = (a ?= b)%Z.
Proof.
  intros Ha Hb.
  assert (Ca : (a = 0 \/ a = 1 \/ a = 2 \/ a = 3 \/ a = 4 \/ a = 5 \/ a = 6 \/ a = 7 \/
                a = 8 \/ a = 9)%Z) by lia.
  assert (Cb : (b = 0 \/ b = 1 \/ b = 2 \/ b = 3 \/ b = 4 \/ b = 5 \/ b = 6 \/ b = 7 \/
                b = 8 \/ b = 9)%Z) by lia.
  repeat destruct Ca as [Ca|Ca]; subst a;
    repeat destruct Cb as [Cb|Cb]; subst b; reflexivity.
Qed.

Lemma compare_by_digits n m :
  (n ?= m)%Z =
  match (n / 10 ?= m / 10)%Z with
  | Eq => (n mod 10 ?= m mod 10)%Z
  | c => c
  end.
Proof.
  destruct (Z.compare_spec (n / 10) (m / 10)) as [H|H|H].
  - destruct (Z.compare_spec (n mod 10) (m mod 10)) as [H'|H'|H'].
    + apply Z.compare_eq_iff. Z.to_euclidean_division_equations. lia.
    + apply Z.compare_lt_iff. Z.to_euclidean_division_equations. lia.
    + apply Z.compare_gt_iff. Z.to_euclidean_division_equations. lia.
  - apply Z.compare_lt_iff. Z.to_euclidean_division_equations. lia.
  - apply Z.compare_gt_iff. Z.to_euclidean_division_equations. lia.
Qed.

(** Numbers padded to the same width compare as the numbers do. *)
Lemma pad_compare w : forall n m,
  (0 <= n < 10 ^ Z.of_nat w)%Z -> (0 <= m < 10 ^ Z.of_nat w)%Z ->
  String.compare (JSDate.pad w n) (JSDate.pad w m) = (n ?= m)%Z.
Proof.
  induction w as [|w IH]; intros n m Hn Hm.
  - simpl in *. assert (n = 0 /\ m = 0)%Z as [-> ->] by lia. reflexivity.
  - rewrite Nat2Z.inj_succ, Z.pow_succ_r in Hn, Hm by lia.
    cbn [JSDate.pad]. rewrite compare_app by (rewrite !length_pad; reflexivity).
    rewrite IH by (Z.to_euclidean_division_equations; lia).
    rewrite (compare_by_digits n m).
    destruct (n / 10 ?= m / 10)%Z; try reflexivity.
    cbn [String.compare].
    rewrite digit_compare by (apply Z.mod_pos_bound; lia).
    destruct (n mod 10 ?= m mod 10)%Z; reflexivity.
Qed.

(** Ids compare as their fields do. *)
Lemma id_of_fields_compare y1 mo1 d1 h1 mi1 s1 y2 mo2 d2 h2 mi2 s2 :
  (0 <= y1 < 10000 /\ 0 <= mo1 < 100 /\ 0 <= d1 < 100 /\
   0 <= h1 < 100 /\ 0 <= mi1 < 100 /\ 0 <= s1 < 100)%Z ->
  (0 <= y2 < 10000 /\ 0 <= mo2 < 100 /\ 0 <= d2 < 100 /\
   0 <= h2 < 100 /\ 0 <= mi2 < 100 /\ 0 <= s2 < 100)%Z ->
  String.compare (id_of_fields y1 mo1 d1 h1 mi1 s1) (id_of_fields y2 mo2 d2 h2 mi2 s2) =
  compare_fields (y1, mo1, d1, h1, mi1, s1) (y2, mo2, d2, h2, mi2, s2).
Proof.
  intros B1 B2. unfold id_of_fields. cbn [compare_fields].
  rewrite compare_app by (rewrite !length_pad; reflexivity).
  rewrite (pad_compare 4) by (cbn; lia).
  destruct (y1 ?= y2)%Z; try reflexivity.
  change ("-" ++ ?x)%string with (String "-" x). cbn [String.compare].
  change (Ascii.compare "-" "-") with Eq. cbv iota.
  rewrite compare_app by (rewrite !length_pad; reflexivity).
  rewrite (pad_compare 2) by (cbn; lia).
  destruct (mo1 ?= mo2)%Z; try reflexivity.
  cbn [String.append String.compare]. change (Ascii.compare "-" "-") with Eq. cbv iota.
  rewrite compare_app by (rewrite !length_pad; reflexivity).
  rewrite (pad_compare 2) by (cbn; lia).
  destruct (d1 ?= d2)%Z; try reflexivity.
  cbn [String.append String.compare]. change (Ascii.compare "T" "T") with Eq. cbv iota.
  rewrite compare_app by (rewrite !length_pad; reflexivity).
  rewrite (pad_compare 2) by (cbn; lia).
  destruct (h1 ?= h2)%Z; try reflexivity.
  cbn [String.append String.compare]. change (Ascii.compare "-" "-") with Eq. cbv iota.
  rewrite compare_app by (rewrite !length_pad; reflexivity).
  rewrite (pad_compare 2) by (cbn; lia).
  destruct (mi1 ?= mi2)%Z; try reflexivity.
  cbn [String.append String.compare]. change (Ascii.compare "-" "-") with Eq. cbv iota.
  rewrite compare_app by (rewrite !length_pad; reflexivity).
  rewrite (pad_compare 2) by (cbn; lia).
  destruct (s1 ?= s2)%Z; reflexivity.
Qed.

Lemma fields_in_range t :
  (0 <= JSDate.YearFromTime t <= 9999)%Z ->
  (0 <= JSDate.YearFromTime t < 10000 /\ 0 <= JSDate.MonthFromTime t < 100 /\
   0 <= JSDate.DateFromTime t < 100 /\ 0 <= JSDate.HourFromTime t < 100 /\
   0 <= JSDate.MinFromTime t < 100 /\ 0 <= JSDate.SecFromTime t < 100)%Z.
Proof.
  intros Hy. pose proof (civil_bounds (t / JSDate.msPerDay)) as Hb.
  unfold JSDate.MonthFromTime, JSDate.DateFromTime, JSDate.HourFromTime,
    JSDate.MinFromTime, JSDate.SecFromTime.
  destruct (JSDate.civil (t / JSDate.msPerDay)) as [[y m] d]. cbn [fst snd].
  pose proof (Z.mod_pos_bound (t / 3600000) 24 ltac:(lia)).
  pose proof (Z.mod_pos_bound (t / 60000) 60 ltac:(lia)).
  pose proof (Z.mod_pos_bound (t / 1000) 60 ltac:(lia)).
  lia.
Qed.

(** The ids order as the seconds they were taken in: from year 0 to year
    9999, the id of a later second is lexicographically greater, the ids of
    two instants of the same second are equal. *)
Theorem backup_ids_order_as_time t1 t2 :
  (-62167219200000 <= t1 < 253402300800000)%Z ->
  (-62167219200000 <= t2 < 253402300800000)%Z ->
  String.compare (generateBackupTimestamp t1) (generateBackupTimestamp t2) =
  (t1 / 1000 ?= t2 / 1000)%Z.
Proof.
  intros H1 H2.
  pose proof (year_range t1 H1) as Hy1. pose proof (year_range t2 H2) as Hy2.
  rewrite (id_fields t1 Hy1), (id_fields t2 Hy2).
  rewrite (id_of_fields_compare _ _ _ _ _ _ _ _ _ _ _ _
             (fields_in_range t1 Hy1) (fields_in_range t2 Hy2)).
  apply (fields_order t1 t2).
Qed.

Lemma backup_ids_order_as_time_witness :
  String.compare (generateBackupTimestamp 1736942399999)
                 (generateBackupTimestamp 1736942400000) = Lt.
Proof.
  apply (backup_ids_order_as_time 1736942399999 1736942400000); lia.
Defined.

(** ** The configuration that [validateConfig] accepts *)

Lemma forEach_accepts {A} (check : A -> ConfigLoader.checked) xs said :
  ConfigLoader.forEach check xs = (inr tt, said) ->
  Forall (fun x => exists s, check x = (inr tt, s)) xs.
Proof.
  revert said. induction xs as [|x r IH]; intros said H; [constructor|].
  cbn [ConfigLoader.forEach] in H.
  destruct (check x) as [[e|[]] s] eqn:E; [discriminate|].
  destruct (ConfigLoader.forEach check r) as [[e|[]] more] eqn:Er; [discriminate|].
  constructor; [eauto | eapply IH; reflexivity].
Qed.

Lemma checkProject_accepts cwd configDir root project s :
  ConfigLoader.checkProject cwd configDir root project = (inr tt, s) ->
  project_checked cwd configDir root project.
Proof.
  unfold ConfigLoader.checkProject, project_checked.
  destruct (String.eqb (project_name project) "") eqn:En; [discriminate|].
  destruct (ConfigLoader.is_empty (project_path project)); [discriminate|].
  destruct (Fs.stat _ root) as [c|n] eqn:Es; [destruct c; discriminate|].
  destruct n as [content|es|]; try discriminate.
  intros _. split; [|split; [reflexivity | exists es; exact Es]].
  intros Heq. rewrite Heq in En. discriminate En.
Qed.

Lemma checkTarget_accepts cwd configDir root target s :
  ConfigLoader.checkTarget cwd configDir root target = (inr tt, s) ->
  target_checked target.
Proof.
  unfold ConfigLoader.checkTarget, target_checked.
  destruct (String.eqb (ConfigLoader.target_name target) "") eqn:En; [discriminate|].
  intros H. split.
  - intros Heq. rewrite Heq in En. discriminate En.
  - destruct target as [name tpath|name ssh tpath]; cbn [target_path_of];
      destruct (ConfigLoader.is_empty tpath); [discriminate | reflexivity
                                              | discriminate | reflexivity].
Qed.

(** A configuration that [validateConfig] accepts has a project and a
    target; each project has a name and a path, and a directory stands at the
    path, read against the directory of the configuration file; each target
    has a name and a path; the limit that [backupCommand] hands to the
    retention is at least one; and [getBackupTarget] without a name answers
    with the first target, not with [undefined]. *)
Theorem validateConfig_accepts cwd root config configPath said :
  ConfigLoader.validateConfig cwd root config configPath = (inr tt, said) ->
  Forall (project_checked cwd (dirname configPath) root) (ConfigLoader.projects config) /\
  Forall target_checked (ConfigLoader.backupTargets config) /\
  ConfigLoader.projects config <> [] /\
  (1 <= Cli.maxBackupsOf config)%Z /\
  exists target rest,
    ConfigLoader.backupTargets config = target :: rest /\
    ConfigLoader.getBackupTarget config None = inr (Some target).
Proof.
  unfold ConfigLoader.validateConfig, Cli.maxBackupsOf, ConfigLoader.getBackupTarget.
  destruct (ConfigLoader.projects config) as [|p ps] eqn:Ep; [discriminate|].
  destruct (ConfigLoader.backupTargets config) as [|t ts] eqn:Et; [discriminate|].
  cbv zeta.
  destruct (ConfigLoader.forEach _ (p :: ps)) as [[e|[]] s1] eqn:E1; [discriminate|].
  destruct (ConfigLoader.forEach _ (t :: ts)) as [[e|[]] s2] eqn:E2; [discriminate|].
  intros H. split; [|split; [|split; [discriminate|split]]].
  - apply forEach_accepts in E1. eapply Forall_impl; [|exact E1].
    intros x [s Hx]. eapply checkProject_accepts, Hx.
  - apply forEach_accepts in E2. eapply Forall_impl; [|exact E2].
    intros x [s Hx]. eapply checkTarget_accepts, Hx.
  - destruct (ConfigLoader.retention config) as [[[n|]]|];
      cbn [ConfigLoader.maxBackupsPerProject] in *; try lia.
    destruct (n <? 1)%Z eqn:En; [discriminate|]. apply Z.ltb_ge in En.
    destruct (n =? 0)%Z; lia.
  - exists t, ts. split; reflexivity.
Qed.

Lemma validateConfig_accepts_witness :
  (1 <= Cli.maxBackupsOf sample_config)%Z /\
  ConfigLoader.getBackupTarget sample_config None = inr (Some sample_local).
Proof.
  destruct (validateConfig_accepts ["proj"] sample_tree sample_config
              (CPath true ["proj"; "cat-ate-my-source-code.config.json"]) [] eq_refl)
    as (_ & _ & _ & Hmax & t & rest & Ht & Hget).
  injection Ht as <- _. split; [exact Hmax | exact Hget].
Defined.


(** ** The backup command *)

Lemma reads_only_creturn {A} (a : A) : reads_only (Cli.creturn a).
Proof. intros st. apply untouched_refl. Qed.

Lemma reads_only_cthrow {A} f : reads_only (@Cli.cthrow A f).
Proof. intros st. apply untouched_refl. Qed.

Lemma reads_only_say l n : reads_only (Cli.say l n).
Proof. intros st. apply untouched_refl. Qed.

Lemma reads_only_cbind {A B} (m : Cli.C A) (k : A -> Cli.C B) :
  reads_only m -> (forall a, reads_only (k a)) -> reads_only (Cli.cbind m k).
Proof.
  intros Hm Hk st. unfold Cli.cbind. specialize (Hm st).
  destruct (m st) as [[a|f|r] st1]; cbn [snd] in *; try exact Hm.
  eapply untouched_trans; [exact Hm | apply Hk].
Qed.

Lemma reads_only_cfor_of {A} (xs : list A) (body : A -> Cli.C unit) :
  (forall x, reads_only (body x)) -> reads_only (Cli.cfor_of xs body).
Proof.
  intros Hb. induction xs as [|x r IH]; cbn [Cli.cfor_of].
  - apply reads_only_creturn.
  - apply reads_only_cbind; [apply Hb | intros _; exact IH].
Qed.

Lemma reads_only_plan {A} (m : M A) : preserves untouched m -> reads_only (Cli.plan m).
Proof.
  intros Hm st. unfold Cli.plan. specialize (Hm (fst st)).
  destruct (m (fst st)) as [[a|e|r] w1]; exact Hm.
Qed.

Lemma reads_only_config_call {A} (r : ConfigLoader.config_error + A) :
  reads_only (Cli.config_call r).
Proof. destruct r; [apply reads_only_cthrow | apply reads_only_creturn]. Qed.

(** [backupCommand] leaves the file system as it is when it is a dry run,
    and when neither a project nor all projects are asked for; whatever the
    configuration, the other options and the outcome. *)
Theorem backupCommand_writes_only_when_asked localeCompare fuel clock config options st :
  Cli.flag_set (Cli.opt_dryRun options) = true \/
  (Cli.flag_set (Cli.opt_all options) = false /\
   (Cli.opt_project options = None \/ Cli.opt_project options = Some "")) ->
  fs (fst (snd (Cli.backupCommand localeCompare fuel clock config options st)))
    = fs (fst st).
Proof.
  intros [Hdry|[Hall Hproj]].
  - assert (Htry : reads_only
                     (Cli.backupCommand_try localeCompare fuel clock config options)).
    { unfold Cli.backupCommand_try.
      apply reads_only_cbind; [apply reads_only_plan, preserves_get_cwd, untouched_refl|].
      intros cwd0. cbv zeta. apply reads_only_cbind.
      { destruct (Cli.flag_set (Cli.opt_all options)); [apply reads_only_creturn|].
        destruct (Cli.opt_project options) as [name|]; [|apply reads_only_creturn].
        destruct (String.eqb name ""); [apply reads_only_creturn|].
        apply reads_only_cbind; [apply reads_only_config_call|].
        intros p. apply reads_only_creturn. }
      intros projectsToBackup.
      destruct (length projectsToBackup =? 0)%nat; [apply reads_only_cthrow|].
      apply reads_only_cbind; [apply reads_only_config_call|]. intros target.
      apply reads_only_cbind; [|intros _; apply reads_only_say].
      apply reads_only_cfor_of. intros turn. unfold Cli.backupProject.
      apply reads_only_cbind; [apply reads_only_say|]. intros _.
      destruct target as [target|]; [|apply reads_only_cthrow].
      rewrite Hdry. cbn [negb].
      apply reads_only_cbind;
        [apply reads_only_plan, untouched_createBackup_dry|]. intros _.
      apply reads_only_cbind;
        [apply reads_only_plan, untouched_applyRetention_dry|]. intros _.
      apply reads_only_creturn. }
    unfold Cli.backupCommand. specialize (Htry st).
    destruct (Cli.backupCommand_try localeCompare fuel clock config options st)
      as [[a|f|r] st1]; cbn [snd fst] in *; apply Htry.
  - unfold Cli.backupCommand, Cli.backupCommand_try, Cli.cbind, Cli.plan, get_cwd.
    rewrite Hall. destruct Hproj as [-> | ->]; reflexivity.
Qed.

Lemma backupCommand_writes_only_when_asked_witness :
  fs (fst (snd (Cli.backupCommand code_unit_compare 8 (fun _ => 1736942400000%Z)
                  sample_config sample_dry_options (sample_world, []))))
  = sample_tree.
Proof.
  apply (backupCommand_writes_only_when_asked code_unit_compare 8
           (fun _ => 1736942400000%Z) sample_config sample_dry_options
           (sample_world, [])).
  left. reflexivity.
Defined.

(** ** What a dry run counts *)

Lemma census_cons rootSource pats k c r source stats :
  census rootSource pats (Fs.Dir ((k, c) :: r)) source stats =
  match PathMatcher.shouldExclude (relative rootSource (source ++ [k])) pats with
  | None => None
  | Some true =>
      census rootSource pats (Fs.Dir r) source
        (push_skipped (relative rootSource (source ++ [k])) stats)
  | Some false =>
      match
        match c with
        | Fs.Dir _ => census rootSource pats c (source ++ [k]) stats
        | Fs.File _ => Some (count_file stats)
        | Fs.Special => Some stats
        end
      with
      | Some stats' => census rootSource pats (Fs.Dir r) source stats'
      | None => None
      end
  end.
Proof. reflexivity. Qed.

Lemma dry_walk_counts fuel : forall source dest rootSource pats stats w es,
  well_formed (fs w) = true ->
  Fs.stat source (fs w) = inr (Fs.Dir es) ->
  height (Fs.Dir es) <= fuel ->
  fst (copyDirectoryRecursive fuel source dest rootSource pats stats true w) =
  counted (census rootSource pats (Fs.Dir es) source stats).
Proof.
  induction fuel as [|fuel IH]; intros source dest rootSource pats stats w es Hwf Hst Hh.
  { cbn [height] in Hh. lia. }
  cbn [copyDirectoryRecursive]. unfold bind at 1. unfold read_fs, Fs.readdir.
  unfold Fs.stat in Hst. rewrite Hst.
  assert (Hwfd : well_formed (Fs.Dir es) = true) by (eapply well_formed_stat; eauto).
  destruct (well_formed_dir _ Hwfd) as [Hdist _].
  set (recurse := fun sourcePath destinationPath stats' =>
                    copyDirectoryRecursive fuel sourcePath destinationPath rootSource
                      pats stats' true).
  assert (Hloop : forall es' pre stats0 w0,
             es = pre ++ es' -> fs w0 = fs w ->
             fst (for_of (map Fs.dirent_of es')
                    (copyEntry recurse source dest rootSource pats true) stats0 w0) =
             counted (census rootSource pats (Fs.Dir es') source stats0)).
  { induction es' as [|[k c] r IHr]; intros pre stats0 w0 Hes Hw0; [reflexivity|].
    rewrite census_cons. cbn [map for_of]. unfold bind at 1.
    assert (Hin : In (k, c) es).
    { rewrite Hes. apply in_or_app. right. left. reflexivity. }
    assert (Hl : Fs.lookup k es = Some c) by (apply distinct_lookup; assumption).
    assert (Hstep : dry_step (copyEntry recurse source dest rootSource pats true
                                (Fs.dirent_of (k, c)))).
    { apply dry_copyEntry. intros s d. apply dry_copyDirectoryRecursive. }
    destruct (Hstep stats0 w0) as [Hfs _].
    assert (Hnext : forall stats1 w1,
               fs w1 = fs w ->
               fst (for_of (map Fs.dirent_of r)
                      (copyEntry recurse source dest rootSource pats true) stats1 w1) =
               counted (census rootSource pats (Fs.Dir r) source stats1)).
    { intros stats1 w1 Hw1. apply (IHr (pre ++ [(k, c)])); [|exact Hw1].
      rewrite <- app_assoc. exact Hes. }
    unfold copyEntry in *. unfold bind at 1 in Hfs. unfold bind at 1.
    rewrite shouldExclude_run in *. unfold join, Fs.dirent_of in *.
    cbn [Fs.name Fs.dkind fst snd] in *.
    destruct (PathMatcher.shouldExclude (relative rootSource (source ++ [k])) pats)
      as [[|]|]; [| |reflexivity].
    - unfold bind, emit, ret. apply Hnext. cbn [fs logged]. exact Hw0.
    - unfold Fs.isDirectory, Fs.isFile in *. cbn [Fs.dkind negb] in *.
      destruct c as [content|sub|]; cbn [Fs.kind_of] in *.
      + unfold ret. apply Hnext. exact Hw0.
      + unfold bind at 1. unfold ret at 1. unfold bind at 1 in Hfs. unfold ret at 1 in Hfs.
        assert (Hsub : Fs.stat (source ++ [k]) (fs w0) = inr (Fs.Dir sub)).
        { rewrite Hw0. unfold Fs.stat. rewrite (stat_child _ k _ _ Hst), Hl. reflexivity. }
        assert (Hhs : height (Fs.Dir sub) <= fuel).
        { pose proof (height_lookup _ _ _ Hl). lia. }
        pose proof (IH (source ++ [k]) (dest ++ [k]) rootSource pats stats0 w0 sub
                      ltac:(rewrite Hw0; exact Hwf) Hsub Hhs) as Hrec.
        unfold recurse in *.
        destruct (copyDirectoryRecursive fuel (source ++ [k]) (dest ++ [k]) rootSource
                    pats stats0 true w0) as [[stats1|e|why] w1];
          cbn [fst snd] in *;
          destruct (census rootSource pats (Fs.Dir sub) (source ++ [k]) stats0)
            as [stats1'|]; try discriminate Hrec; try reflexivity.
        * injection Hrec as ->. apply Hnext. congruence.
        * exact Hrec.
      + unfold ret. apply Hnext. exact Hw0. }
  apply (Hloop es [] stats w eq_refl eq_refl).
Qed.

Lemma files_of_cons k c r :
  files_of (Fs.Dir ((k, c) :: r)) =
  match c with
  | Fs.File _ => [[k]]
  | Fs.Dir _ => map (cons k) (files_of c)
  | Fs.Special => []
  end ++ files_of (Fs.Dir r).
Proof. reflexivity. Qed.

Lemma visible_files_below rootSource pats source k files :
  filter (visible_from rootSource pats source) (map (cons k) files) =
  match PathMatcher.shouldExclude (relative rootSource (source ++ [k])) pats with
  | Some false => map (cons k) (filter (visible_from rootSource pats (source ++ [k])) files)
  | _ => []
  end.
Proof.
  induction files as [|f r IH]; cbn [map filter visible_from].
  - destruct (PathMatcher.shouldExclude _ pats) as [[|]|]; reflexivity.
  - rewrite IH. destruct (PathMatcher.shouldExclude _ pats) as [[|]|]; try reflexivity.
    destruct (visible_from rootSource pats (source ++ [k]) f); reflexivity.
Qed.

(** The count of files of a census is the number of the files that the walk
    reaches. *)
Lemma census_files rootSource pats h : forall n source stats c,
  height n <= h ->
  census rootSource pats n source stats = Some c ->
  filesCopied c =
  filesCopied stats + length (visible_files rootSource pats source n).
Proof.
  unfold visible_files.
  induction h as [|h IH]; intros n source stats c Hh Hc.
  - destruct n as [content|es|]; cbn [height] in Hh; try lia;
      cbn in Hc; injection Hc as <-; cbn; lia.
  - destruct n as [content|es|]; try (cbn in Hc; injection Hc as <-; cbn; lia).
    revert stats c Hh Hc. induction es as [|[k n] r IHr]; intros stats c Hh Hc.
    + cbn in Hc. injection Hc as <-. cbn. lia.
    + rewrite census_cons in Hc. rewrite files_of_cons, filter_app, length_app.
      rewrite height_cons in Hh.
      assert (Hr : height (Fs.Dir r) <= S h).
      { destruct r; cbn [height] in *; lia. }
      destruct (PathMatcher.shouldExclude (relative rootSource (source ++ [k])) pats)
        as [[|]|] eqn:Eex; [| |discriminate].
      * rewrite (IHr _ _ Hr Hc). cbn [filesCopied push_skipped].
        destruct n as [content|sub|].
        -- cbn [filter visible_from]. rewrite Eex. cbn. lia.
        -- rewrite visible_files_below, Eex. cbn. lia.
        -- cbn. lia.
      * destruct n as [content|sub|].
        -- rewrite (IHr _ _ Hr Hc). cbn [filter visible_from]. rewrite Eex.
           cbn. lia.
        -- destruct (census rootSource pats (Fs.Dir sub) (source ++ [k]) stats)
             as [stats'|] eqn:Esub; [|discriminate].
           rewrite (IHr _ _ Hr Hc).
           rewrite (IH (Fs.Dir sub) (source ++ [k]) stats stats' ltac:(lia) Esub).
           rewrite visible_files_below, Eex, length_map. lia.
        -- rewrite (IHr _ _ Hr Hc). cbn. lia.
Qed.

Lemma well_formed_cons k c r :
  well_formed (Fs.Dir ((k, c) :: r)) = true ->
  ~ In k (map fst r) /\ well_formed c = true /\ well_formed (Fs.Dir r) = true.
Proof.
  intros H. destruct (well_formed_dir _ H) as [Hd Hall].
  cbn [map fst distinct] in Hd. apply andb_prop in Hd. destruct Hd as [Hk Hr].
  split; [|split].
  - intros Hin. apply existsb_eqb_In in Hin. apply negb_true_iff in Hk. congruence.
  - apply (Hall k c). left. reflexivity.
  - apply well_formed_dir_intro; [exact Hr|]. intros k' c' Hin. apply (Hall k' c').
    right. exact Hin.
Qed.

Lemma files_of_begin es rel :
  In rel (files_of (Fs.Dir es)) -> exists k rest, rel = k :: rest /\ In k (map fst es).
Proof.
  induction es as [|[k c] r IH]; [intros []|].
  rewrite files_of_cons. intros H. apply in_app_or in H. destruct H as [H|H].
  - destruct c as [content|sub|].
    + destruct H as [<-|[]]. exists k, []. split; [reflexivity | left; reflexivity].
    + apply in_map_iff in H. destruct H as (x & <- & _).
      exists k, x. split; [reflexivity | left; reflexivity].
    + destruct H.
  - destruct (IH H) as (k' & rest & -> & Hin). exists k', rest.
    split; [reflexivity | right; exact Hin].
Qed.

Lemma lookup_names k es c : Fs.lookup k es = Some c -> In k (map fst es).
Proof.
  intros H. apply lookup_In in H. apply in_map_iff. exists (k, c). auto.
Qed.

Lemma NoDup_map_cons {A} (k : A) (l : list (list A)) :
  NoDup l -> NoDup (map (cons k) l).
Proof.
  induction 1 as [|x l Hx Hl IH]; cbn [map]; constructor; [|exact IH].
  intros Hin. apply in_map_iff in Hin. destruct Hin as (y & Hy & Hin).
  injection Hy as ->. contradiction.
Qed.

(** The files of a well-formed directory are what [stat] finds to be a file
    beneath it, each listed once. *)
Lemma files_of_spec h : forall es,
  height (Fs.Dir es) <= h ->
  well_formed (Fs.Dir es) = true ->
  NoDup (files_of (Fs.Dir es)) /\
  forall rel,
    In rel (files_of (Fs.Dir es)) <->
    exists content, Fs.stat_from rel (Fs.Dir es) = inr (Fs.File content).
Proof.
  induction h as [|h IH]; intros es Hh Hwf; [cbn [height] in Hh; lia|].
  induction es as [|[k c] r IHr].
  - split; [constructor|]. intros rel. split; [intros []|].
    intros [content H]. destruct rel; discriminate H.
  - destruct (well_formed_cons _ _ _ Hwf) as (Hk & Hwfc & Hwfr).
    rewrite height_cons in Hh.
    assert (Hr : height (Fs.Dir r) <= S h) by (destruct r; cbn [height] in *; lia).
    destruct (IHr Hr Hwfr) as [Hnd Hin]. rewrite files_of_cons.
    assert (Hc : match c with
                 | Fs.Dir sub =>
                     NoDup (files_of c) /\
                     forall rel, In rel (files_of c) <->
                                 exists content, Fs.stat_from rel c = inr (Fs.File content)
                 | _ => True
                 end).
    { destruct c as [content|sub|]; try exact I. apply IH; [lia | exact Hwfc]. }
    split.
    + apply NoDup_app.
      * destruct c as [content|sub|]; [repeat constructor; intros [] | | constructor].
        apply NoDup_map_cons, Hc.
      * exact Hnd.
      * intros rel H1 H2. destruct (files_of_begin _ _ H2) as (k' & rest & -> & Hk').
        destruct c as [content|sub|].
        -- destruct H1 as [H1|[]]. injection H1 as -> _. contradiction.
        -- apply in_map_iff in H1. destruct H1 as (x & Hx & _).
           injection Hx as -> _. contradiction.
        -- destruct H1.
    + intros rel. rewrite in_app_iff. split.
      * intros [H|H].
        -- destruct c as [content|sub|].
           ++ destruct H as [<-|[]]. exists content. cbn. rewrite String.eqb_refl.
              reflexivity.
           ++ apply in_map_iff in H. destruct H as (x & <- & Hx).
              apply Hc in Hx. destruct Hx as [content Hx]. exists content.
              cbn [Fs.stat_from Fs.lookup]. rewrite String.eqb_refl. exact Hx.
           ++ destruct H.
        -- pose proof H as H'. apply Hin in H. destruct H as [content H].
           destruct (files_of_begin _ _ H') as (k' & rest & -> & Hk').
           exists content. cbn [Fs.stat_from Fs.lookup] in *.
           destruct (String.eqb k k') eqn:E; [|exact H].
           apply String.eqb_eq in E. subst k'. contradiction.
      * intros [content H]. destruct rel as [|k' rest]; [discriminate H|].
        cbn [Fs.stat_from Fs.lookup] in H. destruct (String.eqb k k') eqn:E.
        -- apply String.eqb_eq in E. subst k'. left.
           destruct c as [content'|sub|].
           ++ destruct rest; [left; reflexivity | discriminate H].
           ++ apply in_map. apply Hc. eauto.
           ++ destruct rest; discriminate H.
        -- right. apply Hin. exists content. exact H.
Qed.

(** [filesCopied], of a dry run and of a real copy alike, is the number of
    the regular files of the source that no exclusion hides: the files that
    [stat] finds beneath the source and that the walk reaches, each counted
    once. *)
Theorem files_copied_counts_visible_files fuel source dest pats w es :
  well_formed (fs w) = true ->
  Fs.stat source (fs w) = inr (Fs.Dir es) ->
  height (Fs.Dir es) <= fuel ->
  let files := visible_files source pats source (Fs.Dir es) in
  NoDup files /\
  (forall rel,
      In rel files <->
      visible_from source pats source rel = true /\
      exists content, Fs.stat (source ++ rel) (fs w) = inr (Fs.File content)) /\
  (forall stats,
      fst (copyDirectory fuel source dest pats true w) = Ok stats ->
      filesCopied stats = length files) /\
  (separate source dest ->
   forall stats w',
     copyDirectory fuel source dest pats false w = (Ok stats, w') ->
     filesCopied stats = length files).
Proof.
  intros Hwf Hst Hh files.
  assert (Hwfd : well_formed (Fs.Dir es) = true) by (eapply well_formed_stat; eauto).
  destruct (files_of_spec _ es (le_n _) Hwfd) as [Hnd Hin].
  assert (Hdry : forall stats,
             fst (copyDirectory fuel source dest pats true w) = Ok stats ->
             filesCopied stats = length files).
  { intros stats Hrun. unfold copyDirectory in Hrun. unfold bind at 1 in Hrun.
    unfold bind at 1 in Hrun. unfold emit at 1, ret at 1 in Hrun.
    rewrite (dry_walk_counts fuel source dest source pats (MkCopyStats 0 0 0 [])
               (logged LInfo (DryRunWouldCopy source dest) w) es Hwf Hst Hh) in Hrun.
    destruct (census source pats (Fs.Dir es) source (MkCopyStats 0 0 0 []))
      as [c|] eqn:Ec; [|discriminate Hrun].
    injection Hrun as <-.
    rewrite (census_files source pats _ _ _ _ _ (le_n _) Ec). reflexivity. }
  split; [apply NoDup_filter, Hnd|]. split; [|split; [exact Hdry|]].
  - intros rel. unfold files, visible_files. rewrite filter_In, Hin.
    unfold Fs.stat in *. rewrite stat_app, Hst. tauto.
  - intros Hsep stats w' Hrun.
    unfold copyDirectory, bind, write_fs in Hrun. cbn [negb] in Hrun.
    destruct (Fs.mkdir dest (fs w)) as [e|root1] eqn:Emk; [discriminate|].
    unfold ret in Hrun.
    destruct (coupled_copyDirectoryRecursive fuel source dest source pats Hsep
                (count_directory (MkCopyStats 0 0 0 [])) (MkCopyStats 0 0 0 [])
                (World root1 (log w) (cwd w))
                (logged LInfo (DryRunWouldCopy source dest) w)
                stats w')
      as (sd & wd & Hd & [Hfiles _] & _).
    + split; reflexivity.
    + cbn [fs logged]. eapply agree_after_writes; [exact Hsep | eapply mkdir_frame; eauto |].
      intros q _. reflexivity.
    + exact Hrun.
    + rewrite <- Hfiles. apply Hdry. unfold copyDirectory, bind, emit, ret.
      rewrite Hd. reflexivity.
Qed.

Lemma files_copied_counts_visible_files_witness :
  visible_files ["proj"] ["node_modules"] ["proj"]
    (Fs.Dir [("a.txt", Fs.File "aaa"); ("b.txt", Fs.File "bb");
             ("node_modules", Fs.Dir [("x.json", Fs.File "{}")]);
             ("sub", Fs.Dir [("c.txt", Fs.File "c"); ("link", Fs.Special)])])
    = [["a.txt"]; ["b.txt"]; ["sub"; "c.txt"]] /\
  filesCopied (MkCopyStats 3 2 6 ["node_modules"]) = 3.
Proof.
  split; [reflexivity|].
  destruct (files_copied_counts_visible_files 8 ["proj"] ["backups"; "x"]
              ["node_modules"] sample_world
              [("a.txt", Fs.File "aaa"); ("b.txt", Fs.File "bb");
               ("node_modules", Fs.Dir [("x.json", Fs.File "{}")]);
               ("sub", Fs.Dir [("c.txt", Fs.File "c"); ("link", Fs.Special)])]
              eq_refl eq_refl) as (_ & _ & _ & Hreal).
  - cbn. lia.
  - apply (Hreal sample_paths_apart (MkCopyStats 3 2 6 ["node_modules"])
             (snd (copyDirectory 8 ["proj"] ["backups"; "x"] ["node_modules"] false
                     sample_world)) eq_refl).
Defined.
(** ** What an exclusion prunes *)












(** The scenario of the specification: [node_modules] is skipped as one unit,
    nothing of it reaches the backup. *)
Example exclusion_scenario :
  let run := copyDirectory 8 ["proj"] ["backups"; "x"] ["node_modules"] false
               sample_world in
  fst run = Ok (MkCopyStats 3 2 6 ["node_modules"]) /\
  Fs.stat ["backups"; "x"; "node_modules"] (fs (snd run)) = inl Fs.ENOENT /\
  Fs.stat ["backups"; "x"; "sub"; "c.txt"] (fs (snd run)) = inr (Fs.File "c").
Proof. repeat split; reflexivity. Qed.
Lemma mkdir_holds_directory p root root1 :
  Fs.mkdir p root = inr root1 -> holds_directory p root1.
Proof.
  intros Emk. unfold Fs.mkdir, Fs.change in Emk.
  destruct (Fs.alter true Fs.mkdir_at p (Some root)) as [e|[r|]] eqn:E;
    try discriminate.
  injection Emk as <-. destruct (mkdir_makes_directory _ _ _ E) as [es Hes].
  exists es. exact Hes.
Qed.

Section Skeleton.

Variables (rootSource : path) (pats : list string) (root0 : Fs.node).
Hypothesis wf0 : well_formed root0 = true.

Variable recurse : path -> path -> CopyStats -> M CopyStats.
Hypothesis recurse_continues : forall s d stats, preserves continues (recurse s d stats).
Hypothesis recurse_mirrors : forall s d,
  separate s d -> mirrors rootSource pats root0 s d (fun _ => True) (recurse s d).

Lemma continues_copyEntry source dest entry stats :
  preserves continues (copyEntry recurse source dest rootSource pats false entry stats).
Proof.
  apply preserves_copyEntry;
    [exact continues_refl | exact continues_trans | exact continues_emit
    | intros _; exact continues_mkdir | intros _; exact continues_copyFile
    | exact recurse_continues].
Qed.

Lemma skeleton_copyEntry source dest entry es :
  separate source dest ->
  Fs.stat source root0 = inr (Fs.Dir es) ->
  In entry (map Fs.dirent_of es) ->
  mirrors_directories rootSource pats root0
    (source ++ [Fs.name entry]) (dest ++ [Fs.name entry]) (fun rel => rel <> [])
    (recurse (source ++ [Fs.name entry]) (dest ++ [Fs.name entry])) ->
  mirrors_directories rootSource pats root0 source dest (begins_with [Fs.name entry])
    (copyEntry recurse source dest rootSource pats false entry).
Proof.
  intros Hsep Hsrc Hin IH stats w stats' w' Hagree Hrun rel des Hcov Hvis Hdir.
  destruct rel as [|k0 rest]; [destruct Hcov|]. destruct Hcov as [<-|[]].
  apply in_map_iff in Hin. destruct Hin as ([k n] & <- & Hin).
  cbn [Fs.dirent_of Fs.name fst snd] in *.
  assert (Hwfd : well_formed (Fs.Dir es) = true) by (eapply well_formed_stat; eauto).
  destruct (well_formed_dir _ Hwfd) as [Hdist _].
  assert (Hl : Fs.lookup k es = Some n) by (apply distinct_lookup; assumption).
  assert (Hst0 : Fs.stat (source ++ [k]) root0 = inr n).
  { unfold Fs.stat in *. rewrite (stat_child _ k _ _ Hsrc), Hl. reflexivity. }
  assert (Hdeep : Fs.stat (source ++ k :: rest) root0 = Fs.stat_from rest n).
  { change (k :: rest) with ([k] ++ rest). rewrite app_assoc.
    unfold Fs.stat in *. rewrite stat_app, Hst0. reflexivity. }
  rewrite Hdeep in Hdir.
  unfold copyEntry, bind in Hrun. rewrite shouldExclude_run in Hrun.
  cbn [visible_from] in Hvis. unfold join, Fs.dirent_of in *.
  cbn [Fs.name Fs.dkind fst snd] in *.
  destruct (PathMatcher.shouldExclude (relative rootSource (source ++ [k])) pats)
    as [[|]|] eqn:Eex; try discriminate.
  unfold Fs.isDirectory, Fs.isFile in Hrun. cbn [Fs.dkind negb] in Hrun.
  destruct n as [c0|sub|]; cbn [Fs.kind_of] in Hrun.
  - destruct rest; discriminate Hdir.
  - unfold write_fs, ret in Hrun.
    destruct (Fs.mkdir (dest ++ [k]) (fs w)) as [e|root1] eqn:Emk; [discriminate|].
    destruct rest as [|k2 rest].
    + destruct (recurse_continues (source ++ [k]) (dest ++ [k]) (count_directory stats)
                  (World root1 (log w) (cwd w))) as (_ & Hdirs & _).
      rewrite Hrun in Hdirs. cbn [snd fs] in Hdirs. apply Hdirs.
      eapply mkdir_holds_directory, Emk.
    + assert (Hag1 : agree_below (source ++ [k]) root1 root0).
      { apply (agree_after_writes _ (dest ++ [k]) (fs w)).
        - apply separate_children, Hsep.
        - apply mkdir_frame, Emk.
        - apply agree_below_child, Hagree. }
      change (k :: k2 :: rest) with ([k] ++ k2 :: rest). rewrite app_assoc.
      apply (IH _ (World root1 (log w) (cwd w)) _ _ Hag1 Hrun (k2 :: rest) des).
      * discriminate.
      * exact Hvis.
      * rewrite <- app_assoc. cbn [app]. rewrite Hdeep. exact Hdir.
  - destruct rest; discriminate Hdir.
Qed.

Lemma skeleton_for_of source dest es :
  separate source dest ->
  Fs.stat source root0 = inr (Fs.Dir es) ->
  (forall k,
      mirrors_directories rootSource pats root0 (source ++ [k]) (dest ++ [k])
        (fun rel => rel <> []) (recurse (source ++ [k]) (dest ++ [k]))) ->
  forall xs,
    incl xs (map Fs.dirent_of es) ->
    mirrors_directories rootSource pats root0 source dest
      (begins_with (map Fs.name xs))
      (for_of xs (copyEntry recurse source dest rootSource pats false)).
Proof.
  intros Hsep Hsrc IH. induction xs as [|entry rest IHx]; intros Hincl.
  - intros stats w stats' w' Hagree Hrun [|k r] des Hcov; destruct Hcov.
  - intros stats w stats' w' Hagree Hrun rel des Hcov Hvis Hdir.
    cbn [for_of] in Hrun. unfold bind in Hrun.
    destruct (copyEntry recurse source dest rootSource pats false entry stats w)
      as [[stats1|e|r] w1] eqn:Eone; try discriminate.
    assert (Hin : In entry (map Fs.dirent_of es)) by (apply Hincl; left; reflexivity).
    destruct (mirror_copyEntry rootSource pats root0 wf0 recurse source dest entry es
                Hsep Hsrc Hin
                (recurse_mirrors _ _ (separate_children _ _ (Fs.name entry) Hsep))
                stats w stats1 w1 Hagree Eone)
      as (Hout1 & _).
    assert (Hagree1 : agree_below source (fs w1) root0).
    { eapply agree_after_writes; eauto. }
    assert (Hincl' : incl rest (map Fs.dirent_of es)).
    { intros x Hx. apply Hincl. right. exact Hx. }
    destruct rel as [|k r]; [destruct Hcov|]. cbn [begins_with map] in Hcov.
    destruct (string_dec (Fs.name entry) k) as [<-|Hne].
    + pose proof (preserves_for_of continues continues_refl continues_trans rest
                    (copyEntry recurse source dest rootSource pats false)
                    (fun x acc => continues_copyEntry source dest x acc) stats1 w1)
        as (_ & Hdirs & _).
      rewrite Hrun in Hdirs. cbn [snd] in Hdirs. apply Hdirs.
      apply (skeleton_copyEntry source dest entry es Hsep Hsrc Hin (IH (Fs.name entry))
               stats w stats1 w1 Hagree Eone (Fs.name entry :: r) des);
        [left; reflexivity | exact Hvis | exact Hdir].
    + apply (IHx Hincl' stats1 w1 stats' w' Hagree1 Hrun (k :: r) des);
        [|exact Hvis | exact Hdir].
      destruct Hcov as [Heq|Hin']; [congruence | exact Hin'].
Qed.

End Skeleton.

Lemma continues_copyDirectoryRecursive fuel source dest rootSource pats stats :
  preserves continues
    (copyDirectoryRecursive fuel source dest rootSource pats stats false).
Proof.
  apply preserves_copyDirectoryRecursive;
    [exact continues_refl | exact continues_trans | exact continues_emit
    | intros _; exact continues_mkdir | intros _; exact continues_copyFile].
Qed.

Lemma skeleton_copyDirectoryRecursive rootSource pats root0 :
  well_formed root0 = true ->
  forall fuel source dest,
    separate source dest ->
    mirrors_directories rootSource pats root0 source dest (fun rel => rel <> [])
      (fun stats => copyDirectoryRecursive fuel source dest rootSource pats stats false).
Proof.
  intros wf0. induction fuel as [|fuel IH];
    intros source dest Hsep stats w stats' w' Hagree Hrun rel des Hcov Hvis Hdir.
  - discriminate Hrun.
  - cbn [copyDirectoryRecursive] in Hrun. unfold bind, read_fs in Hrun.
    assert (Hrd : Fs.readdir source (fs w) = Fs.readdir source root0).
    { unfold Fs.readdir. unfold agree_below, Fs.stat in Hagree.
      rewrite (Hagree source (is_prefix_refl source)). reflexivity. }
    rewrite Hrd in Hrun. unfold Fs.readdir in Hrun.
    destruct (Fs.stat_from source root0) as [e|[c0|es|]] eqn:Esrc; try discriminate.
    set (recurse := fun sourcePath destinationPath stats0 =>
                      copyDirectoryRecursive fuel sourcePath destinationPath
                        rootSource pats stats0 false) in *.
    apply (skeleton_for_of rootSource pats root0 wf0 recurse
             (fun s d st => continues_copyDirectoryRecursive fuel s d rootSource pats st)
             (fun s d Hsd => mirror_copyDirectoryRecursive rootSource pats root0 wf0
                               fuel s d Hsd)
             source dest es Hsep Esrc
             (fun k => IH (source ++ [k]) (dest ++ [k]) (separate_children _ _ k Hsep))
             (map Fs.dirent_of es) (incl_refl _) stats w stats' w' Hagree Hrun rel des);
      [|exact Hvis | exact Hdir].
    destruct rel as [|k r]; [congruence|].
    cbn [begins_with]. change (k :: r) with ([k] ++ r) in Hdir.
    rewrite app_assoc in Hdir. unfold Fs.stat in Hdir. rewrite stat_app in Hdir.
    rewrite (stat_child _ k _ _ Esrc) in Hdir.
    destruct (Fs.lookup k es) as [n|] eqn:El; [|discriminate].
    apply lookup_In in El. rewrite map_map. apply in_map_iff.
    exists (k, n). split; [reflexivity | exact El].
Qed.

(** A real copy that returns has left a directory beneath the destination
    at the place of every directory of the source that no exclusion hides,
    the empty ones too. *)
Theorem copy_mirrors_directories fuel source dest pats w stats w' :
  well_formed (fs w) = true ->
  separate source dest ->
  copyDirectory fuel source dest pats false w = (Ok stats, w') ->
  forall rel es,
    visible_from source pats source rel = true ->
    Fs.stat (source ++ rel) (fs w) = inr (Fs.Dir es) ->
    holds_directory (dest ++ rel) (fs w').
Proof.
  intros Hwf Hsep Hrun rel des Hvis Hdir.
  destruct rel as [|k r].
  - rewrite app_nil_r. eapply copyDirectory_makes_destination, Hrun.
  - unfold copyDirectory, bind, write_fs in Hrun. cbn [negb] in Hrun.
    destruct (Fs.mkdir dest (fs w)) as [e|root1] eqn:Emk; [discriminate|].
    unfold ret in Hrun.
    assert (Hag : agree_below source root1 (fs w)).
    { eapply (agree_after_writes source dest (fs w)); eauto.
      - apply mkdir_frame, Emk.
      - intros q _. reflexivity. }
    apply (skeleton_copyDirectoryRecursive source pats (fs w) Hwf fuel source dest Hsep
             _ (World root1 (log w) (cwd w)) _ _ Hag Hrun (k :: r) des);
      [discriminate | exact Hvis | exact Hdir].
Qed.

Lemma copy_mirrors_directories_witness :
  holds_directory (["backups"; "x"] ++ ["sub"])
    (fs (snd (copyDirectory 8 ["proj"] ["backups"; "x"] ["node_modules"] false
                sample_world))).
Proof.
  apply (copy_mirrors_directories 8 ["proj"] ["backups"; "x"] ["node_modules"]
           sample_world (MkCopyStats 3 2 6 ["node_modules"]) _
           eq_refl sample_paths_apart eq_refl ["sub"]
           [("c.txt", Fs.File "c"); ("link", Fs.Special)] eq_refl eq_refl).
Defined.
Lemma listed_only_refl st : listed_only st st.
Proof. split; [apply untouched_refl | intros entry H; left; exact H]. Qed.

Lemma listed_only_trans a b c : listed_only a b -> listed_only b c -> listed_only a c.
Proof.
  intros [Hu1 Hl1] [Hu2 Hl2]. split; [eapply untouched_trans; eassumption|].
  intros entry H. destruct (Hl2 entry H) as [Hb|Hk]; [apply Hl1, Hb | right; exact Hk].
Qed.

Lemma lists_only_creturn {A} (a : A) : lists_only (Cli.creturn a).
Proof. intros st. apply listed_only_refl. Qed.

Lemma lists_only_cthrow {A} f : lists_only (@Cli.cthrow A f).
Proof. intros st. apply listed_only_refl. Qed.

Lemma lists_only_say l n : size_known n -> lists_only (Cli.say l n).
Proof.
  intros Hn st. split; [apply untouched_refl|]. intros entry H.
  cbn [Cli.say snd] in H. apply in_app_or in H. destruct H as [H|[<-|[]]].
  - left. exact H.
  - right. exact Hn.
Qed.

Lemma lists_only_cbind {A B} (m : Cli.C A) (k : A -> Cli.C B) :
  lists_only m -> (forall a, lists_only (k a)) -> lists_only (Cli.cbind m k).
Proof.
  intros Hm Hk st. unfold Cli.cbind. specialize (Hm st).
  destruct (m st) as [[a|f|r] st1]; cbn [snd] in *; try exact Hm.
  eapply listed_only_trans; [exact Hm | apply Hk].
Qed.

Lemma lists_only_cfor_of {A} (xs : list A) (body : A -> Cli.C unit) :
  (forall x, lists_only (body x)) -> lists_only (Cli.cfor_of xs body).
Proof.
  intros Hb. induction xs as [|x r IH]; cbn [Cli.cfor_of].
  - apply lists_only_creturn.
  - apply lists_only_cbind; [apply Hb | intros _; exact IH].
Qed.

Lemma lists_only_plan {A} (m : M A) : preserves untouched m -> lists_only (Cli.plan m).
Proof.
  intros Hm st. unfold Cli.plan. specialize (Hm (fst st)).
  destruct (m (fst st)) as [[a|e|r] w1]; cbn [snd];
    (split; [exact Hm | intros entry H; left; exact H]).
Qed.

Lemma lists_only_config_call {A} (r : ConfigLoader.config_error + A) :
  lists_only (Cli.config_call r).
Proof. destruct r; [apply lists_only_cthrow | apply lists_only_creturn]. Qed.

(** The [catch] of the loop over the backups is never entered: what
    [getDirectorySize] does not throw, the line with the size does not
    either. *)
Lemma lists_only_listBackupLine fuel backup :
  lists_only (Cli.listBackupLine fuel backup).
Proof.
  intros st. unfold Cli.listBackupLine, Cli.ctry_catch, Cli.cbind, Cli.plan.
  destruct (getDirectorySize_catches fuel (backup_path backup) (fst st)) as [Hw Hne].
  destruct (getDirectorySize fuel (backup_path backup) (fst st)) as [[size|e|r] w1];
    cbn [fst snd] in *; subst w1.
  - apply (lists_only_say LInfo (Cli.BackupLine (timestamp backup) size)).
    intros ts. discriminate.
  - exfalso. apply (Hne e). reflexivity.
  - split; [apply untouched_refl | intros entry H; left; exact H].
Qed.

Lemma lists_only_listCommand_try localeCompare fuel config options :
  lists_only (Cli.listCommand_try localeCompare fuel config options).
Proof.
  unfold Cli.listCommand_try.
  apply lists_only_cbind; [apply lists_only_plan, preserves_get_cwd, untouched_refl|].
  intros cwd0. cbv zeta.
  apply lists_only_cbind; [apply lists_only_config_call|]. intros target.
  apply lists_only_cbind.
  { destruct (Cli.list_project options) as [name|]; [|apply lists_only_creturn].
    destruct (String.eqb name ""); [apply lists_only_creturn|].
    apply lists_only_cbind; [apply lists_only_config_call|].
    intros p. apply lists_only_creturn. }
  intros projectsToShow.
  destruct (length projectsToShow =? 0)%nat.
  { apply lists_only_say. intros ts. discriminate. }
  apply lists_only_cfor_of. intros project. unfold Cli.listProject.
  apply lists_only_cbind; [apply lists_only_say; intros ts; discriminate|]. intros _.
  apply lists_only_cbind; [apply lists_only_say; intros ts; discriminate|]. intros _.
  destruct target as [target|]; [|apply lists_only_cthrow].
  apply lists_only_cbind; [apply lists_only_plan, untouched_listBackups|].
  intros backups.
  destruct (length backups =? 0)%nat.
  { apply lists_only_say. intros ts. discriminate. }
  apply lists_only_cbind; [|intros _; apply lists_only_say; intros ts; discriminate].
  apply lists_only_cfor_of. intros backup. apply lists_only_listBackupLine.
Qed.

(** [listCommand] writes nothing to the file system, whatever the
    configuration, the options and the outcome, and it never gives the size
    of a backup as unknown: [getDirectorySize] throws nothing, so the
    [catch] around it is never entered. *)
Theorem listCommand_reads_only localeCompare fuel config options st :
  let st' := snd (Cli.listCommand localeCompare fuel config options st) in
  fs (fst st') = fs (fst st) /\
  forall at_ l timestamp,
    In (at_, l, Cli.BackupLineSizeUnknown timestamp) (snd st') ->
    In (at_, l, Cli.BackupLineSizeUnknown timestamp) (snd st).
Proof.
  cbv zeta. unfold Cli.listCommand.
  pose proof (lists_only_listCommand_try localeCompare fuel config options st) as [Hu Hl].
  assert (Hgoal : forall st1 : Cli.state,
             listed_only st st1 ->
             fs (fst st1) = fs (fst st) /\
             forall at_ l timestamp,
               In (at_, l, Cli.BackupLineSizeUnknown timestamp) (snd st1) ->
               In (at_, l, Cli.BackupLineSizeUnknown timestamp) (snd st)).
  { intros st1 [[Hfs _] Hn]. split; [exact Hfs|]. intros at_ l ts Hin.
    destruct (Hn _ Hin) as [H|H]; [exact H|]. exfalso. apply (H ts). reflexivity. }
  destruct (Cli.listCommand_try localeCompare fuel config options st)
    as [[a|f|r] st1] eqn:Erun; cbn [snd] in *.
  - apply Hgoal. split; assumption.
  - apply Hgoal. eapply listed_only_trans; [split; eassumption|].
    apply (lists_only_say LError (Cli.Failed f)). intros ts. discriminate.
  - apply Hgoal. split; assumption.
Qed.

(** The five backups of the sample, as [list] shows them. *)
Example listCommand_sample :
  let r := Cli.listCommand code_unit_compare 8 sample_config sample_list_options
             (sample_backup_world, []) in
  fst r = inl Cli.Returns /\
  map snd (snd (snd r)) =
    [Cli.BackupsForProject "proj"; Cli.Rule;
     Cli.BackupLine "2025-01-15T14-00-00Z" 3;
     Cli.BackupLine "2025-01-15T13-00-00Z" 3;
     Cli.BackupLine "2025-01-15T12-00-00Z" 3;
     Cli.BackupLine "2025-01-15T11-00-00Z" 3;
     Cli.BackupLine "2025-01-15T10-00-00Z" 3;
     Cli.Total 5].
Proof. vm_compute. split; reflexivity. Qed.
